(** * The temporal rollup and aggregation engine of [daily_report_generator.py]

    A shallow embedding of the computational core of [DailyReportGenerator]:
    the dimension key builder ([process_raw_data]), the aggregator
    ([_aggregate_data_impl]), the rollup builders ([create_table_data],
    [create_supervisor_report]) and the comparator ([format_change_rate],
    [create_supervisors_daily_report]), followed by the properties that the
    specification states about them.

    Modelling conventions.
    - A pandas float64/int64 cell is a [number]: [NaN] or an exact rational.
      Sums and comparisons are exact; binary floating-point rounding and the
      range of int64 are not part of the model.  A property that holds of
      the code only within the range in which a float64 holds the whole
      numbers one by one (up to 2^53 in size) has that range as a
      hypothesis.
    - A Python [str] is a [string] of bytes (UTF-8); byte-wise comparison
      agrees with Python's code-point comparison.  [str.strip()] is
      modelled on the white space of ASCII; a property that depends on
      what it removes is stated for texts that have no white space of
      Unicode at their ends ([Notions.stripped]).
    - A [Timestamp] is its calendar day ([date]); the time of day, which the
      generator never reads, is dropped.
    - pandas' parsers ([pd.to_datetime], [pd.to_numeric]) are parameters of the
      functions that call them.
    - A DataFrame that the code updates in place lives in a store and is
      addressed by reference; a rebinding such as [df = df.fillna('')]
      allocates a new frame. *)

From stdpp Require Import gmap strings list sorting.
From Stdlib Require Import Ascii ZArith QArith Qround Qreduction Lia Lqa.
From Stdlib Require Import DecimalString DecimalPos DecimalZ.

Local Open Scope string_scope.
Local Open Scope list_scope.

(* ================================================================== *)
(** * Text: the [str] operations the generator uses                    *)
(* ================================================================== *)

Module Text.

Definition chars (s : string) : list ascii := String.list_ascii_of_string s.
Definition text (l : list ascii) : string := String.string_of_list_ascii l.

(** [str(n)] for a Python [int]. *)
Definition str_of_Z (n : Z) : string := NilZero.string_of_int (Z.to_int n).

(** [f"{n:02d}"]: zero-padded to width two (the sign counts as a column). *)
Definition zfill2 (n : Z) : string :=
  if ((0 <=? n) && (n <? 10))%Z then "0" ++ str_of_Z n else str_of_Z n.

(** The [","] grouping of the format specifier [",.0f"], on the digits
    in reverse order; [k] counts the digits since the last separator. *)
Fixpoint group3 (rev_digits : list ascii) (k : nat) : list ascii :=
  match rev_digits with
  | [] => []
  | c :: rest =>
      match k with
      | 3%nat => "," % char :: c :: group3 rest 1
      | _ => c :: group3 rest (S k)
      end
  end.

Definition thousands (n : Z) : string :=
  text (rev (group3 (rev (chars (str_of_Z (Z.abs n)))) 0)).

(** The ASCII white space that [str.strip()] removes.  It removes the
    white space beyond ASCII as well ([Notions.white_space] lists it);
    [lstrip] and [strip] below are [str.strip()] on a text that, once the
    ASCII white space is taken from its ends, has none of the other kind
    there. *)
Definition is_space (c : ascii) : bool :=
  let n := nat_of_ascii c in
  ((9 <=? n) && (n <=? 13) || (28 <=? n) && (n <=? 32))%nat.

Fixpoint lstrip (l : list ascii) : list ascii :=
  match l with
  | c :: rest => if is_space c then lstrip rest else l
  | [] => []
  end.

Definition strip (s : string) : string :=
  text (rev (lstrip (rev (lstrip (chars s))))).

Fixpoint starts_with (p l : list ascii) : bool :=
  match p, l with
  | [], _ => true
  | a :: p', b :: l' => if Ascii.eqb a b then starts_with p' l' else false
  | _ :: _, [] => false
  end.

(** [needle in s] *)
Fixpoint contains_chars (needle l : list ascii) : bool :=
  starts_with needle l ||
  match l with
  | [] => false
  | _ :: rest => contains_chars needle rest
  end.

Definition contains (needle s : string) : bool :=
  contains_chars (chars needle) (chars s).

(** [s.replace(old, new)] for a non-empty literal [old]: the non-overlapping
    occurrences, leftmost first.  [skip] is the number of characters of the
    occurrence just replaced that are still to be dropped. *)
Fixpoint replace_chars (old new l : list ascii) (skip : nat) : list ascii :=
  match l with
  | [] => []
  | c :: rest =>
      match skip with
      | S k => replace_chars old new rest k
      | O =>
          if starts_with old l
          then new ++ replace_chars old new rest (Nat.pred (List.length old))
          else c :: replace_chars old new rest 0
      end
  end.

Definition replace (old new s : string) : string :=
  match chars old with
  | [] => s
  | o => text (replace_chars o (chars new) (chars s) 0)
  end.

(** [re.sub('^' + lit, '', s)]: the literal is removed when [s] begins
    with it. *)
Definition remove_prefix (lit s : string) : string :=
  if starts_with (chars lit) (chars s)
  then text (drop (List.length (chars lit)) (chars s))
  else s.

(** [re.sub(lit + '$', '', s)].  [$] matches at the very end and also just
    before a final line feed, and the leftmost match is the one replaced. *)
Definition remove_suffix (lit s : string) : string :=
  let l := chars s in
  let n := List.length (chars lit) in
  if starts_with (rev (chars lit ++ ["010" % char])) (rev l)
  then text (take (List.length l - n - 1) l ++ ["010" % char])
  else if starts_with (rev (chars lit)) (rev l)
  then text (take (List.length l - n) l)
  else s.

End Text.

(* ================================================================== *)
(** * Calendar: [calendar.monthrange] and the ISO calendar of a day     *)
(* ================================================================== *)

Module Calendar.
Local Open Scope Z_scope.

Record date := mkDate { year : Z; month : Z; day : Z }.

#[global] Instance date_eq_dec : EqDecision date.
Proof. solve_decision. Defined.

(** [calendar.isleap] *)
Definition isleap (y : Z) : bool :=
  (y mod 4 =? 0) && (negb (y mod 100 =? 0) || (y mod 400 =? 0)).

(** [calendar.mdays] *)
Definition mdays : list Z := [0; 31; 28; 31; 30; 31; 30; 31; 31; 30; 31; 30; 31].

(** [calendar.monthrange(year, month)[1]], for a month in [1..12]. *)
Definition days_in_month (y m : Z) : Z :=
  nth (Z.to_nat m) mdays 0 + (if (m =? 2) && isleap y then 1 else 0).

(** The days a [Timestamp] can denote. *)
Definition valid_date (d : date) : bool :=
  (1 <=? year d) && (year d <=? 9999) &&
  (1 <=? month d) && (month d <=? 12) &&
  (1 <=? day d) && (day d <=? days_in_month (year d) (month d)).

(** [datetime._days_before_year] *)
Definition days_before_year (y : Z) : Z :=
  let y1 := y - 1 in y1 * 365 + y1 / 4 - y1 / 100 + y1 / 400.

(** [datetime._DAYS_BEFORE_MONTH] *)
Definition DAYS_BEFORE_MONTH : list Z :=
  [0; 0; 31; 59; 90; 120; 151; 181; 212; 243; 273; 304; 334].

(** [datetime._days_before_month] *)
Definition days_before_month (y m : Z) : Z :=
  nth (Z.to_nat m) DAYS_BEFORE_MONTH 0 + (if (2 <? m) && isleap y then 1 else 0).

(** [datetime._ymd2ord]: the proleptic Gregorian ordinal, 0001-01-01 is 1.
    Timestamps are ordered by it. *)
Definition ordinal (d : date) : Z :=
  days_before_year (year d) + days_before_month (year d) (month d) + day d.

(** [datetime._isoweek1monday] *)
Definition isoweek1monday (y : Z) : Z :=
  let firstday := ordinal (mkDate y 1 1) in
  let firstweekday := (firstday + 6) mod 7 in
  let week1monday := firstday - firstweekday in
  if 3 <? firstweekday then week1monday + 7 else week1monday.

(** [date.isocalendar()]: ISO year and ISO week number. *)
Definition isocalendar (d : date) : Z * Z :=
  let y := year d in
  let today := ordinal d in
  let week := (today - isoweek1monday y) / 7 in
  if week <? 0 then
    (y - 1, (today - isoweek1monday (y - 1)) / 7 + 1)
  else if (52 <=? week) && (isoweek1monday (y + 1) <=? today) then
    (y + 1, 1)
  else (y, week + 1).

(** [strftime('%Y-%m-%d')] and [strftime('%m/%d')] (years of four digits,
    as every [Timestamp] has). *)
Definition strftime_ymd (d : date) : string :=
  Text.str_of_Z (year d) ++ "-" ++ Text.zfill2 (month d) ++ "-" ++ Text.zfill2 (day d).

Definition strftime_md (d : date) : string :=
  Text.zfill2 (month d) ++ "/" ++ Text.zfill2 (day d).

(** Comparison of two days, field by field. *)
Definition date_compare (a b : date) : comparison :=
  match year a ?= year b with
  | Eq => match month a ?= month b with
          | Eq => day a ?= day b
          | c => c
          end
  | c => c
  end.

(** [Series.min()] and [Series.max()] on a column of days; [None] is [NaT]. *)
Definition earliest (l : list date) : option date :=
  foldr (fun d acc => match acc with
                      | Some e => if ordinal d <? ordinal e then Some d else Some e
                      | None => Some d
                      end) None l.

Definition most_recent (l : list date) : option date :=
  foldr (fun d acc => match acc with
                      | Some e => if ordinal e <? ordinal d then Some d else Some e
                      | None => Some d
                      end) None l.

(** [f"{year}/{month:02d}"] *)
Definition month_label (y m : Z) : string :=
  Text.str_of_Z y ++ "/" ++ Text.zfill2 m.

End Calendar.

(* ================================================================== *)
(** * Numbers: float cells, their reductions and their display          *)
(* ================================================================== *)

(** A numeric cell: [NaN] marks a missing value. *)
Inductive number := NaN | Num (q : Q).

Module Numeric.
Local Open Scope Q_scope.

(** [pd.isna] *)
Definition isna (v : number) : bool :=
  match v with NaN => true | Num _ => false end.

(** [Series.sum()]: missing values are skipped, the empty sum is 0. *)
Definition total (l : list Q) : Q := foldr Qplus 0 l.

Definition present (l : list number) : list Q :=
  omap (fun v => match v with NaN => None | Num q => Some q end) l.

Definition sum (l : list number) : number := Num (total (present l)).

(** [Series.max()]: missing values are skipped; [NaN] when nothing is left. *)
Definition Qmax (a b : Q) : Q := if Qle_bool a b then b else a.

Definition max (l : list number) : number :=
  match present l with
  | [] => NaN
  | q :: rest => Num (foldr Qmax q rest)
  end.

(** [Series.nunique()] on a column of strings. *)
Definition nunique `{EqDecision A} (l : list A) : nat := length (remove_dups l).

(** Round half to even, the rounding of the format specifiers and of
    [round()]. *)
Definition round_half_even (q : Q) : Z :=
  let f := Qfloor q in
  match Qcompare (q - inject_Z f) (1 # 2) with
  | Lt => f
  | Gt => (f + 1)%Z
  | Eq => if Z.even f then f else (f + 1)%Z
  end.

(** [int(q)]: truncation towards zero. *)
Definition trunc (q : Q) : Z :=
  if Qle_bool 0 q then Qfloor q else Qceiling q.

Definition negative (q : Q) : bool := negb (Qle_bool 0 q).

Definition Qabs' (q : Q) : Q := if negative q then - q else q.

(** [f"{q:,.0f}"], for [q] the value of a float64: Python prints the
    exact value of the float, rounded half to even.  (A whole number of
    more than 2^53 in size need not be the value of a float64.) *)
Definition fixed0 (q : Q) : string :=
  ((if negative q then "-" else "") ++ Text.thousands (round_half_even q))%string.

(** [f"{q:.1f}"] *)
Definition fixed1 (q : Q) : string :=
  let t := Z.abs (round_half_even (q * inject_Z 10)) in
  ((if negative q then "-" else "") ++
   Text.str_of_Z (t / 10) ++ "." ++ Text.str_of_Z (t mod 10))%string.

End Numeric.

(* ================================================================== *)
(** * Store: frames that the code updates in place                      *)
(* ================================================================== *)

Module Store.

Definition ref := nat.

Section Monad.
Context {F : Type}.

(** A computation over a store of frames; [None] is an exception
    (a [KeyError], or a reference that is not in the store). *)
Definition State (A : Type) : Type := list F -> option (A * list F).

Definition ret {A} (a : A) : State A := fun st => Some (a, st).

Definition bind {A B} (m : State A) (k : A -> State B) : State B :=
  fun st => match m st with
            | Some (a, st') => k a st'
            | None => None
            end.

Definition raise {A} : State A := fun _ => None.

(** The frame a variable refers to. *)
Definition read (r : ref) : State F :=
  fun st => match st !! r with
            | Some f => Some (f, st)
            | None => None
            end.

(** An in-place update of the frame behind [r]; every holder of [r]
    sees it. *)
Definition update (r : ref) (g : F -> F) : State unit :=
  fun st => match st !! r with
            | Some f => Some (tt, <[r := g f]> st)
            | None => None
            end.

(** A newly constructed frame. *)
Definition alloc (f : F) : State ref :=
  fun st => Some (length st, st ++ [f]).

End Monad.

Arguments State : clear implicits.

Declare Scope store_scope.
Delimit Scope store_scope with store.
Notation "'let*' x := m 'in' k" := (bind m (fun x => k))
  (at level 10, x name, m at level 100, k at level 200) : store_scope.

End Store.

(* ================================================================== *)
(** * Tables: sorting and grouping as pandas does them                  *)
(* ================================================================== *)

Module Frame.

(** [sort_values(key, ascending=False)], as a stable sort: rows with equal
    keys are left in their order of arrival.  (pandas' default sort makes
    no promise about the order of rows with equal keys; the aggregator
    gives each dimension one row per date, so that equal keys arise only
    from two spellings of one date.) *)
Fixpoint insert_desc {A} (key : A -> Z) (x : A) (l : list A) : list A :=
  match l with
  | [] => [x]
  | y :: rest =>
      if (key x <? key y)%Z then y :: insert_desc key x rest else x :: l
  end.

Definition sort_values_desc {A} (key : A -> Z) (l : list A) : list A :=
  foldr (insert_desc key) [] l.

(** [Series.unique()]: the distinct values in order of first appearance. *)
Fixpoint unique `{EqDecision K} (l : list K) : list K :=
  match l with
  | [] => []
  | k :: rest => k :: filter (fun k' => k' <> k) (unique rest)
  end.

(** [groupby(key, sort=False)]: one group per distinct key, in order of
    first appearance, each holding its rows in their original order. *)
Definition groupby `{EqDecision K} {A} (key : A -> K) (l : list A)
  : list (K * list A) :=
  map (fun k => (k, filter (fun x => key x = k) l)) (unique (map key l)).

(** The distinct keys in ascending order, as [groupby(key)] (whose default
    is [sort=True]) lists them. *)
Fixpoint insert_asc {K} (cmp : K -> K -> comparison) (k : K) (l : list K) : list K :=
  match l with
  | [] => [k]
  | k' :: rest =>
      match cmp k k' with
      | Lt => k :: l
      | Eq => l
      | Gt => k' :: insert_asc cmp k rest
      end
  end.

Definition sorted_keys {K} (cmp : K -> K -> comparison) (l : list K) : list K :=
  foldr (insert_asc cmp) [] l.

Definition groupby_sorted `{EqDecision K} {A} (cmp : K -> K -> comparison)
    (key : A -> K) (l : list A) : list (K * list A) :=
  map (fun k => (k, filter (fun x => key x = k) l)) (sorted_keys cmp (map key l)).

(** Lexicographic comparison of a pair of keys. *)
Definition lex {A B} (ca : A -> A -> comparison) (cb : B -> B -> comparison)
    (x y : A * B) : comparison :=
  match ca x.1 y.1 with
  | Eq => cb x.2 y.2
  | c => c
  end.

End Frame.


(* ================================================================== *)
(** * The generator                                                     *)
(* ================================================================== *)

Module Generator.
Import Calendar.

(** ** Aggregated frames

    One row per (dimension, date): the two key columns are text, every
    other column is numeric.  [Date_dt] is the column of parsed dates once
    a report builder has added it. *)
Record Row := mkRow {
  Dimension : string;
  Date : string;
  values : gmap string number
}.

Record DataFrame := mkFrame {
  metric_columns : list string;
  rows : list Row;
  Date_dt : option (list (option date))
}.

Definition columns (df : DataFrame) : list string :=
  ["Dimension"; "Date"] ++ metric_columns df ++
  match Date_dt df with Some _ => ["Date_dt"] | None => [] end.

(** A row that has a date, as the report builders see it after they have
    dropped the rows whose date is [NaT]. *)
Record Day := mkDay {
  stamp : date;
  label : string;
  figures : gmap string number
}.

(** [row[col]] for a numeric column: a cell the row does not fill is
    missing. *)
Definition cell (x : Day) (col : string) : number :=
  default NaN (figures x !! col).

(** A report row, and the table of them handed to the renderer. *)
Abbreviation Table := (list (list string)).

(** ** [_define_columns] *)
Definition int_columns : list string :=
  ["Reg"; "FTD"; "FTT"; "DAU"; "Activate KOL"; "EFTTC"].

Definition display_columns : list string :=
  ["Date"; "Reg"; "FTD"; "FTT"; "Deposit ($)"; "Withdraw ($)";
   "Net Deposit ($)"; "DAU"; "Spot Vol ($)"; "Spot Fee ($)";
   "Futures Vol ($)"; "Futures Fee ($)"; "Total Vol ($)"; "Total Fee ($)";
   "Profit Fee ($)"; "Activate KOL"; "EFTTC"; "Bonus Consumption";
   "Bonus Transfer Into"; "Futures PNL"].

(** ** [format_number] *)
Definition format_number (value : number) : string :=
  match value with
  | NaN => "0"
  | Num q =>
      let a := Numeric.Qabs' q in
      if Qeq_bool q 0 then "0"
      else if Qle_bool (inject_Z 1000000) a then Numeric.fixed0 q
      else if Qle_bool (inject_Z 1000) a then Numeric.fixed0 q
      else if Qeq_bool q (inject_Z (Numeric.trunc q))
      then Text.str_of_Z (Numeric.trunc q)
      else if Qle_bool (inject_Z 10) a then Numeric.fixed0 q
      else Numeric.fixed1 q
  end.

(** ** [is_month_complete] *)
Definition is_month_complete (month_data : list Day) (y m : Z) : bool :=
  let days_in_month := Calendar.days_in_month y m in
  let unique_days := Numeric.nunique (map (fun x => day (stamp x)) month_data) in
  bool_decide (days_in_month <= Z.of_nat unique_days)%Z.

(** The reduction of one column over a set of rows: the maximum for the
    two gauge columns, the sum for every other column. *)
Definition column (col : string) (data : list Day) : list number :=
  map (fun x => cell x col) data.

Definition reduce (col : string) (data : list Day) : number :=
  if bool_decide (col ∈ ["DAU"; "Activate KOL"])
  then Numeric.max (column col data)
  else Numeric.sum (column col data).

(** ** [_add_month_total_row] and [_add_total_row] *)
Definition month_total_row (month_data : list Day)
    (available_columns : list string) (y m : Z) : list string :=
  month_label y m ::
  map (fun col => format_number (reduce col month_data)) (tail available_columns).

Definition _add_month_total_row (table_data : Table) (month_data : list Day)
    (available_columns : list string) (y m : Z) : Table :=
  table_data ++ [month_total_row month_data available_columns y m].

Definition total_row (agent_data : list Day)
    (available_columns : list string) : list string :=
  "TOTAL" ::
  map (fun col => format_number (reduce col agent_data)) (tail available_columns).

Definition _add_total_row (table_data : Table) (agent_data : list Day)
    (available_columns : list string) : Table :=
  table_data ++ [total_row agent_data available_columns].

(** ** [create_table_data] *)

(** One daily row of the latest month. *)
Definition formatted_row (available_columns : list string) (x : Day) : list string :=
  map (fun col => if bool_decide (col = "Date")
                  then strftime_ymd (stamp x)
                  else format_number (cell x col))
      available_columns.

Definition year_month (x : Day) : Z * Z := (year (stamp x), month (stamp x)).

(** The body of the loop over the month groups. *)
Definition month_step (available_columns : list string) (latest_year_month : Z * Z)
    (table_data : Table) (g : (Z * Z) * list Day) : Table :=
  let '((y, m), month_data) := g in
  let is_latest_month := bool_decide ((y, m) = latest_year_month) in
  let is_complete := is_month_complete month_data y m in
  if is_latest_month then
    _add_month_total_row
      (table_data ++ map (formatted_row available_columns) month_data)
      month_data available_columns y m
  else if is_complete then
    _add_month_total_row table_data month_data available_columns y m
  else table_data.

(** The table built from the frame's columns and its dated rows (lines
    198-271); [None] is the tuple of [None]s returned when no row has a
    date.  The business name and the supervisor, which are returned along
    with the table, only label the picture and are left out. *)
Definition table_data_of (frame_columns : list string) (dated : list Day)
  : option (Table * list string) :=
  match dated with
  | [] => None
  | _ =>
      let agent_data := Frame.sort_values_desc (fun x => ordinal (stamp x)) dated in
      match agent_data with
      | [] => None
      | newest :: _ =>
          let latest_year_month := year_month newest in
          let available_columns :=
            filter (fun col => col ∈ frame_columns) display_columns in
          let month_groups := Frame.groupby year_month agent_data in
          let table_data :=
            foldl (month_step available_columns latest_year_month) [] month_groups in
          Some (_add_total_row table_data agent_data available_columns,
                available_columns)
      end
  end.

(** The rows of a frame whose [Date_dt] is not [NaT], each with its date. *)
Definition dated_rows (df : DataFrame) : list Day :=
  match Date_dt df with
  | Some dates =>
      omap (fun x : option date * Row =>
              (fun d => mkDay d (Date x.2) (values x.2)) <$> x.1)
           (zip dates (rows df))
  | None => []
  end.

(** ** [create_supervisor_report] *)

(** The columns summed per day (the [agg] dictionary, lines 447-467). *)
Definition team_columns : list string :=
  ["Reg"; "FTD"; "FTT"; "Deposit ($)"; "Withdraw ($)"; "Net Deposit ($)";
   "DAU"; "Spot Vol ($)"; "Spot Fee ($)"; "Futures Vol ($)";
   "Futures Fee ($)"; "Total Vol ($)"; "Total Fee ($)"; "Profit Fee ($)";
   "Activate KOL"; "EFTTC"; "Bonus Consumption"; "Bonus Transfer Into";
   "Futures PNL"].

(** The list [columns] of lines 486-492. *)
Definition report_columns : list string :=
  ["Date"; "Reg"; "FTD"; "FTT"; "Deposit ($)"; "Withdraw ($)";
   "Net Deposit ($)"; "DAU"; "Spot Vol ($)"; "Spot Fee ($)";
   "Futures Vol ($)"; "Futures Fee ($)"; "Total Vol ($)"; "Total Fee ($)";
   "Profit Fee ($)"; "Activate KOL"; "EFTTC"; "Bonus Consumption";
   "Bonus Transfer Into"; "Futures PNL"].

(** [daily_totals]: the team's rows summed per date, newest first.  The
    group key is the tuple (Date, Date_dt, Year, Month, YearMonth), whose
    last three components are functions of the second. *)
Definition daily_totals (supervisor_data : list Day) : list Day :=
  let groups :=
    Frame.groupby_sorted (Frame.lex String.compare date_compare)
      (fun x => (label x, stamp x)) supervisor_data in
  let summed :=
    map (fun g : (string * date) * list Day =>
           mkDay g.1.2 g.1.1
             (list_to_map
                (map (fun col => (col, Numeric.sum (column col g.2))) team_columns)))
        groups in
  Frame.sort_values_desc (fun x => ordinal (stamp x)) summed.

Definition daily_totals_columns : list string :=
  ["Date"; "Date_dt"; "Year"; "Month"; "YearMonth"] ++ team_columns.

(** The [YearWeek] column: ISO year, ["-W"], ISO week on two digits. *)
Definition YearWeek (x : Day) : string :=
  let '(iso_year, iso_week) := isocalendar (stamp x) in
  (Text.str_of_Z iso_year ++ "-W" ++ Text.zfill2 iso_week)%string.

(** [week_groups]: a [dict], so its keys keep their order of insertion. *)
Fixpoint week_groups_append (week_groups : list (string * list nat))
    (week_key : string) (index : nat) : list (string * list nat) :=
  match week_groups with
  | [] => [(week_key, [index])]
  | (k, indices) :: rest =>
      if bool_decide (k = week_key)
      then (k, indices ++ [index]) :: rest
      else (k, indices) :: week_groups_append rest week_key index
  end.

(** The body of the loop over the days of the latest month (lines
    521-535). *)
Definition day_step (available_columns : list string)
    (st : Table * list (string * list nat)) (x : Day)
  : Table * list (string * list nat) :=
  let table_data := st.1 ++ [formatted_row available_columns x] in
  (table_data, week_groups_append st.2 (YearWeek x) (length table_data - 1)).

(** One week's subtotal (lines 538-558).  The branches for ["Reg"] and
    ["Onboard KOL"] take the sum, as the final [else] does. *)
Definition week_total_row (available_columns : list string)
    (full_team_data : list Day) (week_key : string) : list string :=
  let week_data := filter (fun x => YearWeek x = week_key) full_team_data in
  let week_total_label :=
    match earliest (map stamp week_data), most_recent (map stamp week_data) with
    | Some start_date, Some end_date =>
        (strftime_md start_date ++ "~" ++ strftime_md end_date)%string
    | _, _ => "NaT~NaT"
    end in
  week_total_label ::
  map (fun col => format_number (reduce col week_data)) (tail available_columns).

Definition week_step (available_columns : list string) (full_team_data : list Day)
    (table_data : Table) (entry : string * list nat) : Table :=
  table_data ++ [week_total_row available_columns full_team_data entry.1].

(** The body of the loop over the month groups (lines 505-585). *)
Definition team_month_step (available_columns : list string)
    (latest_year_month : Z * Z) (full_team_data : list Day)
    (table_data : Table) (g : (Z * Z) * list Day) : Table :=
  let '((y, m), month_data) := g in
  let is_latest_month := bool_decide ((y, m) = latest_year_month) in
  let is_complete := is_month_complete month_data y m in
  if is_latest_month then
    let '(table_data, week_groups) :=
      foldl (day_step available_columns) (table_data, []) month_data in
    let table_data :=
      foldl (week_step available_columns full_team_data) table_data week_groups in
    table_data ++ [month_total_row month_data available_columns y m]
  else if is_complete then
    table_data ++ [month_total_row month_data available_columns y m]
  else table_data.

(** The table the team report draws (lines 434-597), from the dated rows
    of the supervisor's frame; [None] when there is none. *)
Definition team_table_of (dated : list Day) : option Table :=
  match dated with
  | [] => None
  | _ =>
      let supervisor_data := Frame.sort_values_desc (fun x => ordinal (stamp x)) dated in
      let daily_totals := daily_totals supervisor_data in
      match daily_totals with
      | [] => None
      | newest :: _ =>
          let latest_year_month := year_month newest in
          let available_columns :=
            filter (fun col => col ∈ daily_totals_columns) report_columns in
          let month_groups := Frame.groupby year_month daily_totals in
          let full_team_data := daily_totals in
          let table_data :=
            foldl (team_month_step available_columns latest_year_month full_team_data)
                  [] month_groups in
          Some (table_data ++ [total_row daily_totals available_columns])
      end
  end.


(** ** Raw frames

    The frame read from the CSV file: any cell may be missing, a number,
    or text. *)
Inductive raw := Blank | Number (q : Q) | Text (s : string).

Record RawFrame := mkRaw {
  raw_columns : list string;
  raw_rows : list (gmap string raw)
}.

Definition raw_cell (r : gmap string raw) (col : string) : raw :=
  default Blank (r !! col).

(** [df[col] = ...]: the column is overwritten, or appended when new. *)
Definition setitem (col : string) (f : gmap string raw -> raw) (df : RawFrame) : RawFrame :=
  mkRaw (if bool_decide (col ∈ raw_columns df) then raw_columns df
         else raw_columns df ++ [col])
        (map (fun r => <[col := f r]> r) (raw_rows df)).

(** [df[mask]]: the rows that satisfy the mask. *)
Definition keep (mask : gmap string raw -> bool) (df : RawFrame) : RawFrame :=
  mkRaw (raw_columns df) (filter (fun r => mask r = true) (raw_rows df)).

Definition numeric_columns : list string :=
  ["注册用户"; "完成KYC用户"; "邀请用户"; "B端邀请用户"; "直客人数";
   "FTD"; "FTT"; "effective FTT";
   "充值人数"; "充值折U"; "提现人数"; "提现折U"; "净充值折U";
   "合约划出"; "合约划入"; "合约净划入"; "赠金划出"; "赠金划入"; "合约赠金净划入";
   "合约交易次数"; "合约交易人数"; "合约交易金额"; "合约交易手续费";
   "合约交易平仓盈亏"; "合约赠金手续费";
   "现货交易次数"; "现货交易人数"; "现货交易金额"; "现货交易手续费"; "赠金真实消耗";
   "B端返佣"; "B端合约返佣"; "B端现货返佣"; "C端返佣"; "C端合约返佣"; "C端现货返佣";
   "净手续费(现货&合约)"; "手续费(现货&合约)"; "交易人数";
   "首次合约赠金交易人数"; "合约赠金亏损"; "effective FTTf";
   "次日留存合约新增交易用户数"; "EFTT(充值≥100U)"; "EFTTC"].

(** [Series.replace(old, new)]: a cell that is exactly [old] becomes
    [new]. *)
Definition replace_value (old new s : string) : string :=
  if bool_decide (s = old) then new else s.

(** The dimension key of lines 103-106, from the two cleaned levels. *)
Definition dimension_key (director bd_name : string) : string :=
  let dimension := (director ++ " - " ++ bd_name)%string in
  let dimension := Text.replace " -  - " " - " (Text.strip dimension) in
  let dimension := Text.remove_prefix " - " dimension in
  Text.remove_suffix " - " dimension.

Section Cleaning.
(** [pd.to_numeric(s, errors='coerce')] on one string; [None] is [NaN]. *)
Variable to_numeric : string -> option Q.
(** [str(x)] for a numeric cell. *)
Variable str_of_number : Q -> string.

(** [astype(str)] on one cell. *)
Definition astype_str (c : raw) : string :=
  match c with
  | Blank => "nan"
  | Number q => str_of_number q
  | Text s => s
  end.

(** Lines 94-95 on one cell. *)
Definition clean_cell (c : raw) : raw :=
  let s := replace_value "nan" "0" (Text.replace "," "" (astype_str c)) in
  Number (default 0%Q (to_numeric s)).

(** Lines 92-95: every numeric column the frame has is overwritten. *)
Definition clean_numeric_columns (df : RawFrame) : RawFrame :=
  foldl (fun df col =>
           if bool_decide (col ∈ raw_columns df)
           then setitem col (fun r => clean_cell (raw_cell r col)) df
           else df)
        df numeric_columns.

(** [df.fillna('')]: a new frame in which every missing cell is the
    empty text. *)
Definition fillna_empty (df : RawFrame) : RawFrame :=
  foldl (fun df col =>
           setitem col (fun r => match raw_cell r col with
                                 | Blank => Text ""
                                 | c => c
                                 end) df)
        df (raw_columns df).

(** Lines 101-102 on one cell: a hierarchy level, with the markers of
    "no value" made empty. *)
Definition level (c : raw) : string :=
  replace_value "0" "" (replace_value "nan" "" (astype_str c)).

(** [~df[col].str.contains('离职', na=False)] *)
Definition stays (col : string) (r : gmap string raw) : bool :=
  negb (Text.contains "离职" (astype_str (raw_cell r col))).

Import Store.
Local Open Scope store_scope.

(** [process_raw_data].  The loop of lines 92-95 assigns into the frame
    the caller passed.  Line 98 rebinds [df] to a new frame, which
    lines 101-106 then fill in; each filter of lines 110-112 makes a
    copy, and the last copy is returned. *)
Definition process_raw_data (df : ref) : State RawFrame ref :=
  let* _ := update df clean_numeric_columns in
  let* f := read df in
  let* df := alloc (fillna_empty f) in
  let* f := read df in
  if bool_decide ("商务总监" ∈ raw_columns f /\ "商务BD" ∈ raw_columns f) then
    let* _ := update df (setitem "商务总监" (fun r => Text (level (raw_cell r "商务总监")))) in
    let* _ := update df (setitem "商务BD" (fun r => Text (level (raw_cell r "商务BD")))) in
    let* _ := update df (setitem "dimension" (fun r =>
                Text (dimension_key (astype_str (raw_cell r "商务总监"))
                                    (astype_str (raw_cell r "商务BD"))))) in
    let* f := read df in
    let* df := alloc (keep (stays "商务总监") f) in
    let* f := read df in
    let* df := alloc (keep (stays "商务BD") f) in
    let* f := read df in
    let* df := alloc (keep (stays "dimension") f) in
    ret df
  else raise.

End Cleaning.

(** ** Processed frames

    The frame [process_raw_data] returns, as the aggregator and the
    comparator read it: the hierarchy columns 商务总监, 商务BD, 总代理, the
    key [dimension], the date 统计日期, all text, and numeric columns. *)
Record Processed := mkProcessed {
  supervisor : string;
  bd : string;
  agent : string;
  dimension : string;
  stat_date : string;
  amounts : gmap string number
}.

Record ProcessedFrame := mkProcessedFrame {
  amount_columns : list string;
  records : list Processed;
  stat_date_dt : option (list (option date))
}.

Definition processed_columns (df : ProcessedFrame) : list string :=
  ["统计日期"; "商务总监"; "商务BD"; "总代理"] ++ amount_columns df ++ ["dimension"] ++
  match stat_date_dt df with Some _ => ["Date_dt"] | None => [] end.

Definition amount (r : Processed) (col : string) : number :=
  default NaN (amounts r !! col).

(** ** [_aggregate_data_impl], as [aggregate_data] calls it:
    [groupby_cols = ['dimension', '统计日期']], [include_kol_count = True]. *)

(** The [agg] dictionary (lines 123-142); every entry is ['sum']. *)
Definition agg_columns : list string :=
  ["注册用户"; "FTD"; "FTT"; "充值折U"; "提现折U"; "净充值折U"; "交易人数";
   "现货交易金额"; "现货交易手续费"; "合约交易金额"; "合约交易手续费";
   "手续费(现货&合约)"; "净手续费(现货&合约)"; "effective FTT"; "EFTTC";
   "赠金真实消耗"; "合约赠金净划入"; "合约交易平仓盈亏"].

(** [column_mapping] (lines 36-58). *)
Definition column_mapping : list (string * string) :=
  [("dimension", "Dimension"); ("统计日期", "Date"); ("注册用户", "Reg");
   ("FTD", "FTD"); ("FTT", "FTT"); ("充值折U", "Deposit ($)");
   ("提现折U", "Withdraw ($)"); ("净充值折U", "Net Deposit ($)");
   ("交易人数", "DAU"); ("现货交易金额", "Spot Vol ($)");
   ("现货交易手续费", "Spot Fee ($)"); ("合约交易金额", "Futures Vol ($)");
   ("合约交易手续费", "Futures Fee ($)"); ("总交易额", "Total Vol ($)");
   ("手续费(现货&合约)", "Total Fee ($)"); ("净手续费(现货&合约)", "Profit Fee ($)");
   ("effective FTT", "EFTT"); ("EFTTC", "EFTTC");
   ("赠金真实消耗", "Bonus Consumption"); ("合约赠金净划入", "Bonus Transfer Into");
   ("合约交易平仓盈亏", "Futures PNL")].

(** [rename(columns=column_mapping)] on one label. *)
Definition rename (col : string) : string :=
  match list_find (fun kv : string * string => kv.1 = col) column_mapping with
  | Some (_, kv) => kv.2
  | None => col
  end.

(** [astype(int)] and [round(2)] on a cell that holds a number.  The cast
    truncates; it is to int64, and is modelled within the range of int64
    only (a sum of whole amounts stays within it while the column is at
    most 2^53 in size, [Notions.size]). *)
Definition astype_int (q : Q) : Q := inject_Z (Numeric.trunc q).

Definition round2 (q : Q) : Q :=
  Qmake (Numeric.round_half_even (q * inject_Z 100)) 100.

(** The value a result column gets after the conversions of lines
    159-169. *)
Definition convert (col : string) (q : Q) : number :=
  if bool_decide (col ∈ int_columns) then Num (astype_int q) else Num (round2 q).

Definition group_sum (col : string) (g : list Processed) : Q :=
  Numeric.total (Numeric.present (map (fun r => amount r col) g)).

(** One result row: the sums, the total volume, the number of distinct
    总代理, renamed and converted. *)
Definition aggregated_row (key : string * string) (g : list Processed) : Row :=
  let sums := map (fun col => (col, group_sum col g)) agg_columns in
  let total_vol := (group_sum "现货交易金额" g + group_sum "合约交易金额" g)%Q in
  let kol := inject_Z (Z.of_nat (Numeric.nunique (map agent g))) in
  let cells := sums ++ [("总交易额", total_vol); ("Activate KOL", kol)] in
  mkRow key.1 key.2
    (list_to_map (map (fun kv : string * Q =>
                         (rename kv.1, convert (rename kv.1) kv.2)) cells)).

Definition aggregated_columns : list string :=
  map rename (agg_columns ++ ["总交易额"; "Activate KOL"]).

Definition aggregate (df : ProcessedFrame) : DataFrame :=
  let groups :=
    Frame.groupby_sorted (Frame.lex String.compare String.compare)
      (fun r => (dimension r, stat_date r)) (records df) in
  mkFrame aggregated_columns
          (map (fun g : (string * string) * list Processed => aggregated_row g.1 g.2) groups)
          None.

(** ** [format_change_rate] *)
Definition positive (q : Q) : bool := negb (Qle_bool q 0).

Definition format_change_rate (current previous : number) : string :=
  let no_previous :=
    match current with
    | Num c => if positive c then "+100%" else "0%"
    | NaN => "0%"
    end in
  match previous with
  | NaN => no_previous
  | Num p =>
      if Qeq_bool p 0 then no_previous
      else
        match current with
        | NaN => "0%"
        | Num c =>
            let change_rate := (((c - p) / Numeric.Qabs' p) * inject_Z 100)%Q in
            if positive change_rate then ("+" ++ Numeric.fixed1 change_rate ++ "%")%string
            else if Numeric.negative change_rate then (Numeric.fixed1 change_rate ++ "%")%string
            else "0%"
        end
  end.

(** ** [create_supervisors_daily_report] *)
Definition key_metrics : list string :=
  ["Reg"; "FTD"; "FTT"; "Net Deposit ($)"; "DAU"; "Total Vol ($)";
   "Total Fee ($)"; "Profit Fee ($)"; "Activate KOL"; "EFTTC"; "Futures PNL"].

(** Lines 815-820 and 825-830: the value of a metric in a row, read
    "safely". *)
Definition safe_value (index : list string) (r : Processed) (metric : string) : number :=
  if bool_decide (metric ∈ index) then
    let v := amount r metric in
    if Numeric.isna v then Num 0 else v
  else Num 0.

(** Lines 822-834: the change of a metric against the previous row, when
    there is one. *)
Definition change_rate (index : list string) (latest_row : Processed)
    (prev_row : option Processed) (metric : string) : string :=
  match prev_row with
  | Some prev =>
      format_change_rate (safe_value index latest_row metric)
                         (safe_value index prev metric)
  | None => "-"
  end.

(** Lines 813-838: one cell of the comparison, value and change. *)
Definition combined_text (index : list string) (latest_row : Processed)
    (prev_row : option Processed) (metric : string) : string :=
  let current_value := safe_value index latest_row metric in
  (format_number current_value ++ " (" ++
   change_rate index latest_row prev_row metric ++ ")")%string.

(** Lines 798-840: the row of one supervisor, from that supervisor's rows
    newest first; no row when there is none. *)
Definition data_row (index : list string) (item : string * list (date * Processed))
  : option (list string) :=
  match item.2 with
  | [] => None
  | latest :: rest =>
      Some (item.1 ::
            map (combined_text index latest.2 (snd <$> head rest)) key_metrics)
  end.

(** [x < y] on float cells; no comparison with [NaN] holds. *)
Definition number_ltb (a b : number) : bool :=
  match a, b with
  | Num x, Num y => negb (Qle_bool y x)
  | _, _ => false
  end.

(** [list.sort(key=total_vol, reverse=True)], by insertion; equal keys stay
    in their order.  (How Python's sort places [NaN] keys is not
    modelled.) *)
Fixpoint insert_ranked {A} (key : A -> number) (x : A) (l : list A) : list A :=
  match l with
  | [] => [x]
  | y :: rest =>
      if number_ltb (key x) (key y) then y :: insert_ranked key x rest else x :: l
  end.

Definition ranked {A} (key : A -> number) (l : list A) : list A :=
  foldr (insert_ranked key) [] l.

(** [supervisor_data.iloc[0].get('Total Vol ($)', 0)] *)
Definition latest_total_vol (index : list string) (rows : list (date * Processed)) : number :=
  match rows with
  | latest :: _ =>
      if bool_decide ("Total Vol ($)" ∈ index) then amount latest.2 "Total Vol ($)" else Num 0
  | [] => Num 0
  end.

(** The comparison table (lines 744-840) from the dated rows of the
    frame. *)
Definition comparison_of (index : list string) (days : Z)
    (dated : list (date * Processed)) : option Table :=
  let data := Frame.sort_values_desc (fun x : date * Processed => ordinal x.1) dated in
  match data with
  | [] => None
  | newest :: _ =>
      let cutoff := (ordinal newest.1 - days)%Z in
      let recent_data := filter (fun x : date * Processed => (cutoff <= ordinal x.1)%Z) data in
      let supervisors := Frame.unique (map (fun x : date * Processed => supervisor x.2) recent_data) in
      let supervisors_data :=
        map (fun s =>
               (s, Frame.sort_values_desc (fun x : date * Processed => ordinal x.1)
                     (filter (fun x : date * Processed => supervisor x.2 = s) recent_data)))
            supervisors in
      let sorted_data := ranked (fun item => latest_total_vol index item.2) supervisors_data in
      Some (omap (data_row index) sorted_data)
  end.

Definition dated_records (df : ProcessedFrame) : list (date * Processed) :=
  match stat_date_dt df with
  | Some dates =>
      omap (fun x : option date * Processed => (fun d => (d, x.2)) <$> x.1)
           (zip dates (records df))
  | None => []
  end.

Section Parsing.
(** [pd.to_datetime(s, errors='coerce')] on one cell; [None] is [NaT]. *)
Variable to_datetime : string -> option date.

(** [df['Date_dt'] = pd.to_datetime(df['Date'], errors='coerce')] *)
Definition set_Date_dt (df : DataFrame) : DataFrame :=
  mkFrame (metric_columns df) (rows df)
          (Some (map (fun r => to_datetime (Date r)) (rows df))).

Import Store.
Local Open Scope store_scope.

(** Line 195 writes the new column into the frame the caller passed;
    from line 196 on the function works on copies of its own. *)
Definition create_table_data (agent_data : ref)
  : State DataFrame (option (Table * list string)) :=
  let* _ := update agent_data set_Date_dt in
  let* df := read agent_data in
  ret (table_data_of (columns df) (dated_rows df)).

(** Line 431 writes [Date_dt] into the caller's frame as well.  The
    aggregation of line 447 raises [KeyError] unless the frame has all
    the summed columns.  The result is the table that is drawn. *)
Definition create_supervisor_report (supervisor_data : ref)
  : State DataFrame (option Table) :=
  let* _ := update supervisor_data set_Date_dt in
  let* df := read supervisor_data in
  match dated_rows df with
  | [] => ret None
  | dated =>
      if bool_decide (Forall (fun col => col ∈ columns df) team_columns)
      then ret (team_table_of dated)
      else raise
  end.

(** [aggregate_data]: the grouping raises [KeyError] unless the frame
    has every summed column; the frame itself is only read. *)
Definition aggregate_data (df : ref) : State ProcessedFrame DataFrame :=
  let* f := read df in
  if bool_decide (Forall (fun col => col ∈ processed_columns f) agg_columns)
  then ret (aggregate f)
  else raise.

(** [data['Date_dt'] = pd.to_datetime(data[date_column], errors='coerce')] *)
Definition set_stat_date_dt (df : ProcessedFrame) : ProcessedFrame :=
  mkProcessedFrame (amount_columns df) (records df)
                   (Some (map (fun r => to_datetime (stat_date r)) (records df))).

(** [create_supervisors_daily_report]; the result is the table that is
    drawn.  Line 741 writes [Date_dt] into the caller's frame. *)
Definition create_supervisors_daily_report (data : ref) (days : Z)
  : State ProcessedFrame (option Table) :=
  let* _ := update data set_stat_date_dt in
  let* df := read data in
  ret (comparison_of (processed_columns df) days (dated_records df)).

End Parsing.

End Generator.

(* ================================================================== *)
(** * The reports: who gets one, where it is saved, how it is styled    *)
(* ================================================================== *)

Module Reports.
Import Calendar Generator Store.

(** ** Names read off a dimension key *)

(** [s.split(sep)] for a non-empty [sep]: the pieces between the
    non-overlapping occurrences of [sep], leftmost first.  [skip] counts
    the characters of the occurrence just met that are still to be
    dropped. *)
Fixpoint split_chars (sep l : list ascii) (skip : nat) : list (list ascii) :=
  match l with
  | [] => [[]]
  | c :: rest =>
      match skip with
      | S k => split_chars sep rest k
      | O =>
          if Text.starts_with sep l
          then [] :: split_chars sep rest (Nat.pred (List.length sep))
          else match split_chars sep rest 0 with
               | piece :: pieces => (c :: piece) :: pieces
               | [] => [[c]]
               end
      end
  end.

Definition split (sep s : string) : list string :=
  map Text.text (split_chars (Text.chars sep) (Text.chars s) 0).

(** [parts[0]] and [parts[-1]]. *)
Definition first_part (parts : list string) : string := default "" (head parts).
Definition last_part (parts : list string) : string := default "" (last parts).

(** Lines 224-232 of [create_table_data] ([kol_name] is [None]): the
    business name and the supervisor. *)
Definition names_of (dimension : string) : string * string :=
  if Text.contains " - " dimension then
    let parts := split " - " dimension in
    let supervisor := Text.strip (first_part parts) in
    let business_name := Text.strip (last_part parts) in
    (business_name, supervisor)
  else (dimension, "").

(** ** [group_by_supervisor] *)

(** Lines 983-986: the supervisor a dimension is filed under. *)
Definition supervisor_of (dimension : string) : string :=
  if Text.contains " - " dimension
  then Text.strip (first_part (split " - " dimension))
  else "Other".

(** Lines 988-990 on a [dict] of lists, whose keys keep their order of
    insertion. *)
Fixpoint setdefault_append {V} (groups : list (string * list V)) (key : string) (v : V)
  : list (string * list V) :=
  match groups with
  | [] => [(key, [v])]
  | (k, vs) :: rest =>
      if bool_decide (k = key)
      then (k, vs ++ [v]) :: rest
      else (k, vs) :: setdefault_append rest key v
  end.

Definition group_by_supervisor (result_df : DataFrame) : list (string * list string) :=
  foldl (fun supervisor_groups dimension =>
           setdefault_append supervisor_groups (supervisor_of dimension) dimension)
        [] (Frame.unique (map Dimension (rows result_df))).

(** ** [save_report]: the path of a picture *)

(** [os.path.join(a, b)] (POSIX). *)
Definition path_join (a b : string) : string :=
  if Text.starts_with (Text.chars "/") (Text.chars b) then b
  else if bool_decide (a = "") || Text.starts_with ["/"%char] (rev (Text.chars a))
       then (a ++ b)%string
       else (a ++ "/" ++ b)%string.

Definition safe_folder (name : string) : string :=
  Text.replace "\" "_" (Text.replace "/" "_" name).

Definition safe_name (name : string) : string :=
  Text.replace " " "_" (safe_folder name).

(** The path [save_report] writes to and returns; making the folders and
    writing the picture are not modelled. *)
Definition save_report (business_name supervisor output_dir : string) : string :=
  if bool_decide (supervisor <> "") then
    let supervisor_folder := path_join output_dir (safe_folder supervisor) in
    path_join supervisor_folder (safe_name business_name ++ "_report.png")
  else path_join output_dir (safe_name business_name ++ "_report.png").

(** ** [create_visualization] and [_apply_table_styles] *)

(** The styling functions a cell is handed to. *)
Inductive cell_style :=
  | _style_header
  | _style_total_cell
  | _style_month_summary_cell
  | _style_data_cell (is_even_row : bool).

(** Line 317: the test that takes a row for a month total (on a label in
    ASCII, whose length is its number of bytes). *)
Definition is_month_label (label : string) : bool :=
  (String.length label =? 7)%nat && Text.contains "/" label &&
  negb (String.eqb label "TOTAL").

(** Lines 315-318: the numbers of the table rows taken for month totals;
    [None] is the [IndexError] of [row_data[0]] on an empty row. *)
Fixpoint month_summary_rows_from (i : nat) (table_data : Table) : option (list nat) :=
  match table_data with
  | [] => Some []
  | row_data :: rest =>
      match head row_data, month_summary_rows_from (S i) rest with
      | Some label, Some later =>
          Some (if is_month_label label then (i + 1)%nat :: later else later)
      | _, _ => None
      end
  end.

Definition month_summary_rows (table_data : Table) : option (list nat) :=
  month_summary_rows_from 0 table_data.

(** Lines 349-363: one cell of row [i], column [j]; the result is the
    styling function called and the new value of [row_counter]. *)
Definition style_cell (table_data : Table) (ncols : nat) (month_summary_rows : list nat)
    (i j row_counter : nat) : option (cell_style * nat) :=
  match table_data !! (i - 1)%nat with
  | Some row_data =>
      match head row_data with
      | Some label =>
          let is_month_summary := bool_decide (i ∈ month_summary_rows) in
          let is_total := Text.contains "TOTAL" label in
          let styled :=
            if is_total then (_style_total_cell, row_counter)
            else if is_month_summary then (_style_month_summary_cell, 0%nat)
            else (_style_data_cell (Nat.even row_counter), row_counter) in
          Some (styled.1,
                if negb is_month_summary && negb is_total && (j =? ncols - 1)%nat
                then S styled.2 else styled.2)
      | None => None
      end
  | None => None
  end.

(** The loop over the columns of row [i] (lines 348-363). *)
Fixpoint style_row (table_data : Table) (ncols : nat) (month_summary_rows : list nat)
    (i : nat) (columns : list nat) (row_counter : nat) : option (list cell_style * nat) :=
  match columns with
  | [] => Some ([], row_counter)
  | j :: later =>
      match style_cell table_data ncols month_summary_rows i j row_counter with
      | Some (style, row_counter) =>
          match style_row table_data ncols month_summary_rows i later row_counter with
          | Some (styles, row_counter) => Some (style :: styles, row_counter)
          | None => None
          end
      | None => None
      end
  end.

(** The loop over the rows (lines 346-363). *)
Fixpoint style_rows (table_data : Table) (ncols : nat) (month_summary_rows : list nat)
    (row_numbers : list nat) (row_counter : nat) : option (list (list cell_style)) :=
  match row_numbers with
  | [] => Some []
  | i :: later =>
      match style_row table_data ncols month_summary_rows i (seq 0 ncols) row_counter with
      | Some (styles, row_counter) =>
          match style_rows table_data ncols month_summary_rows later row_counter with
          | Some rest => Some (styles :: rest)
          | None => None
          end
      | None => None
      end
  end.

(** [_apply_table_styles]: the styling function called on each cell, the
    header row first.  (The cells themselves are matplotlib's; the table
    has one for every label and for every entry of [table_data].) *)
Definition _apply_table_styles (table_data : Table) (available_columns : list string)
    (month_summary_rows : list nat) : option (list (list cell_style)) :=
  let ncols := length available_columns in
  match style_rows table_data ncols month_summary_rows
          (seq 1 (length table_data)) 0 with
  | Some body => Some (replicate ncols _style_header :: body)
  | None => None
  end.

(** What [create_visualization] does to the cells of the table it draws
    (lines 314-321). *)
Definition create_visualization (table_data : Table) (available_columns : list string)
  : option (list (list cell_style)) :=
  match month_summary_rows table_data with
  | Some rows => _apply_table_styles table_data available_columns rows
  | None => None
  end.

(** ** [create_bd_report] and [generate_reports] *)

(** [agent_data['Dimension'].iloc[0]] after lines 196-202: the dimension of
    the newest row that has a date. *)
Definition newest_dimension (df : DataFrame) : option string :=
  match Date_dt df with
  | Some dates =>
      snd <$> head (Frame.sort_values_desc (fun x : date * string => ordinal x.1)
                      (omap (fun x : option date * Row =>
                               (fun d => (d, Dimension x.2)) <$> x.1)
                            (zip dates (rows df))))
  | None => None
  end.



Section Drawing.
Variable to_datetime : string -> option date.

Local Open Scope store_scope.

(** [create_bd_report] with [kol_name = None]; the result is the path of
    the picture.  When no row has a date, [create_table_data] returns a
    tuple of four [None]s, which the test [result is None] of line 963 does
    not catch: [create_visualization] then raises on [len(None)].
    Drawing the picture and writing the file are not modelled. *)
Definition create_bd_report (agent_data : ref) (output_dir : string)
  : State DataFrame string :=
  let* result := create_table_data to_datetime agent_data in
  let* df := read agent_data in
  match result, newest_dimension df with
  | Some (table_data, available_columns), Some dimension =>
      match create_visualization table_data available_columns with
      | Some _ =>
          let '(business_name, supervisor) := names_of dimension in
          ret (save_report business_name supervisor output_dir)
      | None => raise
      end
  | _, _ => raise
  end.


End Drawing.

(** ** [main]: the frame of a team *)

(** [s.startswith(prefix)] *)
Definition startswith (prefix s : string) : bool :=
  Text.starts_with (Text.chars prefix) (Text.chars s).

(** Line 1165 of [main]: the rows of the aggregated frame that are handed
    to the team report of a supervisor.  The aggregated frame is new, from
    [aggregate_data], and has no column [Date_dt] yet. *)
Definition supervisor_df (aggregated_df : DataFrame) (supervisor_name : string)
  : DataFrame :=
  mkFrame (metric_columns aggregated_df)
          (filter (fun row => startswith (supervisor_name ++ " - ") (Dimension row) = true)
                  (rows aggregated_df))
          None.

End Reports.

(* ================================================================== *)
(** * Concrete parsers and sample data                                   *)
(* ================================================================== *)

Module Sample.
Import Calendar Generator.

Definition digit (c : ascii) : option Z :=
  let n := nat_of_ascii c in
  if ((48 <=? n) && (n <=? 57))%nat then Some (Z.of_nat (n - 48)) else None.

Fixpoint digits (l : list ascii) (acc : Z) : option Z :=
  match l with
  | [] => Some acc
  | c :: rest =>
      match digit c with
      | Some d => digits rest (acc * 10 + d)
      | None => None
      end
  end.

(** [pd.to_datetime] on the form [YYYY-MM-DD]; anything else, and any day
    that is not on the calendar, is [NaT]. *)
Definition to_datetime (s : string) : option date :=
  let l := Text.chars s in
  if bool_decide (length l = 10%nat /\ l !! 4%nat = Some "-"%char /\ l !! 7%nat = Some "-"%char)
  then
    match digits (take 4 l) 0, digits (take 2 (drop 5 l)) 0, digits (drop 8 l) 0 with
    | Some y, Some m, Some d =>
        if valid_date (mkDate y m d) then Some (mkDate y m d) else None
    | _, _, _ => None
    end
  else None.

(** [pd.to_numeric] on a string of decimal digits; nothing else is taken
    for a number. *)
Definition to_numeric (s : string) : option Q :=
  match Text.chars s with
  | [] => None
  | l => inject_Z <$> digits l 0
  end.

(** [str(x)] for a cell of an integer column. *)
Definition str_of_number (q : Q) : string := Text.str_of_Z (Numeric.trunc q).

Definition raw_row (cells : list (string * raw)) : gmap string raw := list_to_map cells.

Definition row (dim date : string) (vals : list (string * Q)) : Row :=
  mkRow dim date (list_to_map (map (fun kv => (kv.1, Num kv.2)) vals)).

Definition frame (cols : list string) (rs : list Row) : DataFrame :=
  mkFrame cols rs None.

(** A team row: every summed column holds [v], except the two given. *)
Definition team_row (dim date : string) (v reg dau : Z) : Row :=
  mkRow dim date
    (<["Reg" := Num (inject_Z reg)]>
       (<["DAU" := Num (inject_Z dau)]>
          (list_to_map (map (fun col => (col, Num (inject_Z v))) team_columns)))).

(** A processed frame with the single numeric column FTD: one
    supervisor, two days. *)
Definition record (who date : string) (vals : list (string * Q)) : Processed :=
  mkProcessed who "" "" who date (list_to_map (map (fun kv => (kv.1, Num kv.2)) vals)).

Definition ledger : ProcessedFrame :=
  mkProcessedFrame ["FTD"]
    [record "Ann" "2024-07-01" [("FTD", 5%Q)];
     record "Ann" "2024-07-02" [("FTD", 7%Q)]]
    None.

(** The same supervisor with a single day. *)
Definition ledger_one_day : ProcessedFrame :=
  mkProcessedFrame ["FTD"] [record "Ann" "2024-07-02" [("FTD", 100%Q)]] None.

(** A raw frame of one row, whose FTD cell is text with a thousands
    separator. *)
Definition raw_frame : RawFrame :=
  mkRaw ["统计日期"; "商务总监"; "商务BD"; "总代理"; "FTD"]
    [raw_row [("统计日期", Text "2024-07-01"); ("商务总监", Text "Alice");
              ("商务BD", Text "Bob"); ("总代理", Text "K1"); ("FTD", Text "1,000")]].

(** Raw rows for the key builder: a missing 商务BD, a 商务总监 that is
    the number 0, both levels present, and a level with the marker of a
    departed member. *)
Definition key_frame : RawFrame :=
  mkRaw ["统计日期"; "商务总监"; "商务BD"; "总代理"; "FTD"]
    [raw_row [("统计日期", Text "2024-07-01"); ("商务总监", Text "Alice");
              ("商务BD", Blank); ("总代理", Text "K1"); ("FTD", Number 1)];
     raw_row [("统计日期", Text "2024-07-01"); ("商务总监", Number 0);
              ("商务BD", Text "Bob"); ("总代理", Text "K1"); ("FTD", Number 1)];
     raw_row [("统计日期", Text "2024-07-01"); ("商务总监", Text "Alice");
              ("商务BD", Text "Bob"); ("总代理", Text "K1"); ("FTD", Number 1)];
     raw_row [("统计日期", Text "2024-07-01"); ("商务总监", Text "Alice");
              ("商务BD", Text "Bob(离职)"); ("总代理", Text "K1"); ("FTD", Number 1)]].

(** A processed frame with every summed column: two records of one key
    and one of another, and the same records in another order. *)
Definition entry (dim date kol : string) (ftd fee : Q) : Processed :=
  mkProcessed "Ann" dim kol dim date
    (list_to_map [("FTD", Num ftd); ("现货交易金额", Num fee); ("合约交易金额", Num fee)]).

Definition processed : ProcessedFrame :=
  mkProcessedFrame agg_columns
    [entry "Ann - Bob" "2024-07-02" "K1" 1 (1 # 3);
     entry "Ann - Al" "2024-07-02" "K1" 2 (1 # 3);
     entry "Ann - Bob" "2024-07-02" "K2" 4 (1 # 3)]
    None.

Definition processed_shuffled : ProcessedFrame :=
  mkProcessedFrame agg_columns
    [entry "Ann - Bob" "2024-07-02" "K2" 4 (1 # 3);
     entry "Ann - Bob" "2024-07-02" "K1" 1 (1 # 3);
     entry "Ann - Al" "2024-07-02" "K1" 2 (1 # 3)]
    None.

(** One dimension: a single day of June, two days of July, and a row whose
    date does not parse. *)
Definition june_row : Row := row "A - B" "2024-06-30" [("Reg", 1%Q); ("DAU", 5%Q)].

Definition july_rows : list Row :=
  [row "A - B" "2024-07-01" [("Reg", 2%Q); ("DAU", 3%Q)];
   row "A - B" "2024-07-02" [("Reg", 1200%Q); ("DAU", 4%Q)];
   row "A - B" "n/a" [("Reg", 7%Q); ("DAU", 40%Q)]].

Definition bd_frame : DataFrame := frame ["Reg"; "DAU"] (june_row :: july_rows).

Definition bd_frame_july : DataFrame := frame ["Reg"; "DAU"] july_rows.

(** A team of two: the last day of July, and two days of August that lie
    in different ISO weeks; the first of them shares its week with the
    July day. *)
Definition team_frame : DataFrame :=
  frame team_columns
    [team_row "A - B" "2024-07-31" 0 1 5;
     team_row "A - C" "2024-07-31" 0 10 5;
     team_row "A - B" "2024-08-01" 0 2 3;
     team_row "A - B" "2024-08-05" 0 3 3].

(** The tables of the sample frames, as the builders return them. *)
Definition bd_table : Table :=
  [["2024-07-02"; "1,200"; "4"]; ["2024-07-01"; "2"; "3"];
   ["2024/07"; "1,202"; "4"]; ["TOTAL"; "1,203"; "5"]].

Definition team_table : Table :=
  [ "2024-08-05" :: "3" :: replicate 5 "0" ++ "3" :: replicate 12 "0";
    "2024-08-01" :: "2" :: replicate 5 "0" ++ "3" :: replicate 12 "0";
    "08/05~08/05" :: "3" :: replicate 5 "0" ++ "3" :: replicate 12 "0";
    "07/31~08/01" :: "13" :: replicate 5 "0" ++ "10" :: replicate 12 "0";
    "2024/08" :: "5" :: replicate 5 "0" ++ "3" :: replicate 12 "0";
    "TOTAL" :: "16" :: replicate 5 "0" ++ "10" :: replicate 12 "0" ].

(** The comparison of the sample ledger over one day. *)
Definition comparison_table : Table :=
  [["Ann"; "0 (0%)"; "7 (+40.0%)"; "0 (0%)"; "0 (0%)"; "0 (0%)";
    "0 (0%)"; "0 (0%)"; "0 (0%)"; "0 (0%)"; "0 (0%)"; "0 (0%)"]].

End Sample.

(* ================================================================== *)
(** * Notions used to state the properties                              *)
(* ================================================================== *)

Module Notions.
Import Calendar Generator.

(** A list in descending order of a key. *)
Definition descending {A} (key : A -> Z) : list A -> Prop :=
  StronglySorted (fun a b => (key b <= key a)%Z).

(** The frame's rows that have a date, each with its parsed date. *)
Definition days_of (to_datetime : string -> option date) (df : DataFrame) : list Day :=
  omap (fun r => (fun d => mkDay d (Date r) (values r)) <$> to_datetime (Date r))
       (rows df).

(** Newest first, as the builders order them. *)
Definition newest_first (l : list Day) : list Day :=
  Frame.sort_values_desc (fun x => ordinal (stamp x)) l.

(** The current month: the month of the newest row. *)
Definition current_month (l : list Day) : option (Z * Z) :=
  year_month <$> head (newest_first l).

(** The rows of one month, and the rows of all other months. *)
Definition in_month (y m : Z) (l : list Day) : list Day :=
  filter (fun x => year_month x = (y, m)) l.

Definition outside_month (y m : Z) (l : list Day) : list Day :=
  filter (fun x => year_month x <> (y, m)) l.

(** The columns [create_table_data] shows for a frame. *)
Definition shown_columns (df : DataFrame) : list string :=
  filter (fun col => col ∈ columns df) display_columns.

(** Two cells hold the same number. *)
Definition same_number (a b : number) : Prop :=
  match a, b with
  | NaN, NaN => True
  | Num x, Num y => (x == y)%Q
  | _, _ => False
  end.

(** [m] is the greatest of the numbers [l]. *)
Definition greatest (m : Q) (l : list Q) : Prop :=
  (exists x, x ∈ l /\ (x == m)%Q) /\ forall x, x ∈ l -> (x <= m)%Q.



(** The previous value of a metric is absent, undefined or zero: there is
    no previous row, or the row lacks the metric, or holds [NaN] or 0 for
    it. *)
Definition previous_missing (index : list string) (prev_row : option Processed)
    (metric : string) : Prop :=
  match prev_row with
  | None => True
  | Some prev =>
      metric ∉ index \/
      match amount prev metric with
      | NaN => True
      | Num p => (p == 0)%Q
      end
  end.

(** The number a metric is taken to be in a row of the comparison. *)
Definition reading (index : list string) (r : Processed) (metric : string) : Q :=
  match safe_value index r metric with
  | Num q => q
  | NaN => 0%Q
  end.

(** One grouping key comes before another: dimension first, then date,
    each compared as text. *)
Definition key_before (a b : string * string) : Prop :=
  Frame.lex String.compare String.compare a b = Lt.

(** The label of a report row. *)
Definition row_label (r : list string) : option string := head r.

(** A report row that is the total of some month. *)
Definition month_total (cols : list string) (r : list string) : Prop :=
  exists y m month_data, r = month_total_row month_data cols y m.

(** A text with no white space of ASCII at either end ([stripped], below,
    is the same for the white space of Unicode). *)
Definition trimmed (l : list ascii) : Prop :=
  (forall c, head l = Some c -> Text.is_space c = false) /\
  (forall c, last l = Some c -> Text.is_space c = false).

(** A column of the frame that a call of [process_raw_data] returns. *)
Definition returned_column (col : string) (res : option (Store.ref * list RawFrame))
  : option (list raw) :=
  match res with
  | Some (out, st) =>
      (fun f => map (fun row => raw_cell row col) (raw_rows f)) <$> st !! out
  | None => None
  end.

(** The number in a column of an aggregated row; a cell the row does not
    fill is missing. *)
Definition figure (row : Row) (col : string) : number :=
  default NaN (values row !! col).

(** A cell that holds a whole number, or nothing. *)
Definition whole (v : number) : Prop :=
  match v with
  | Num q => exists n : Z, (q == inject_Z n)%Q
  | NaN => True
  end.

(** A missing value counts for nothing in a sum. *)
Definition or_zero (v : number) : Q :=
  match v with Num q => q | NaN => 0%Q end.

(** The records of one grouping key of the aggregator. *)
Definition records_of_key (df : ProcessedFrame) (d t : string) : list Processed :=
  filter (fun r => dimension r = d /\ stat_date r = t) (records df).

(** The records of a frame whose date parses, each with its date. *)
Definition dated_of (to_datetime : string -> option date) (df : ProcessedFrame)
  : list (date * Processed) :=
  omap (fun r => (fun d => (d, r)) <$> to_datetime (stat_date r)) (records df).

(** What the styling loop does with a row, read off its label: the style
    of its cells and the value of [row_counter] after the row. *)
Definition row_style (label : string) (row_counter : nat) : Reports.cell_style * nat :=
  if Text.contains "TOTAL" label then (Reports._style_total_cell, row_counter)
  else if Reports.is_month_label label then (Reports._style_month_summary_cell, 0%nat)
  else (Reports._style_data_cell (Nat.even row_counter), S row_counter).

Fixpoint styles_from (ncols : nat) (labels : list string) (row_counter : nat)
  : list (list Reports.cell_style) :=
  match labels with
  | [] => []
  | label :: rest =>
      replicate ncols (row_style label row_counter).1 ::
      styles_from ncols rest (row_style label row_counter).2
  end.

(** The styles of a report of one dimension: the header, the days in
    stripes that begin with an even row, the month totals, the total. *)
Definition striped (ncols days months : nat) : list (list Reports.cell_style) :=
  replicate ncols Reports._style_header ::
  map (fun k => replicate ncols (Reports._style_data_cell (Nat.even k))) (seq 0 days) ++
  replicate months (replicate ncols Reports._style_month_summary_cell) ++
  [replicate ncols Reports._style_total_cell].

(** The path of the picture of a dimension. *)
Definition report_path (output_dir dimension : string) : string :=
  let '(business_name, supervisor) := Reports.names_of dimension in
  Reports.save_report business_name supervisor output_dir.


(** The hierarchy level that lines 101-102 read in a column of a raw
    row. *)
Definition level_of (str_of_number : Q -> string) (row : gmap string raw) (col : string)
  : string :=
  level str_of_number (raw_cell row col).

(** A row of someone who has left: one of its two levels has the mark. *)
Definition departed (str_of_number : Q -> string) (row : gmap string raw) : Prop :=
  Text.contains "离职" (level_of str_of_number row "商务总监") = true \/
  Text.contains "离职" (level_of str_of_number row "商务BD") = true.

#[global] Instance departed_dec str_of_number row : Decision (departed str_of_number row).
Proof. unfold departed. apply _. Defined.

(** A cell after [fillna('')]. *)
Definition filled (c : raw) : raw :=
  match c with Blank => Text "" | _ => c end.


(** A row after lines 101-106 have written the two levels and the key
    into it. *)
Definition keyed_row (str_of_number : Q -> string) (row : gmap string raw)
  : gmap string raw :=
  let row := <["商务总监" := Text (level str_of_number (raw_cell row "商务总监"))]> row in
  let row := <["商务BD" := Text (level str_of_number (raw_cell row "商务BD"))]> row in
  <["dimension" :=
      Text (dimension_key (astype_str str_of_number (raw_cell row "商务总监"))
                          (astype_str str_of_number (raw_cell row "商务BD")))]> row.

(** The size of a column: the sum of the absolute values of its amounts.
    While it is at most 2^53, every sum of whole amounts of the column is
    a whole number that a float64 holds exactly and that lies within
    int64, so that the sums and the cast of line 161 are exact. *)
Definition size (col : string) (l : list Generator.Processed) : Q :=
  Numeric.total (map (fun r => Numeric.Qabs' (or_zero (Generator.amount r col))) l).

(** The white space that [str.strip()] removes, in UTF-8: the characters
    U+0009 to U+000D and U+001C to U+0020 of ASCII, and beyond ASCII
    U+0085, U+00A0, U+1680, U+2000 to U+200A, U+2028, U+2029, U+202F,
    U+205F and U+3000. *)
Definition white_space : list (list ascii) :=
  map (fun n => [ascii_of_nat n]) (seq 9 5 ++ seq 28 5) ++
  map (map ascii_of_nat)
      ([[194; 133]; [194; 160]; [225; 154; 128]] ++
       map (fun n => [226; 128; n]) (seq 128 11) ++
       [[226; 128; 168]; [226; 128; 169]; [226; 128; 175]; [226; 129; 159];
        [227; 128; 128]])%nat.

(** A text, in UTF-8, that neither begins nor ends with white space, of
    ASCII or beyond: [str.strip()] returns it as it is. *)
Definition stripped (l : list ascii) : Prop :=
  Forall (fun w => Text.starts_with w l = false /\
                   Text.starts_with (rev w) (rev l) = false) white_space.

(** The week of a day, Monday to Sunday: the number of whole weeks
    between Monday 0001-01-01 and the day. *)
Definition week_of (d : date) : Z := ((ordinal d - 1) / 7)%Z.

(** The figure of a team on each day of some rows: the sum of the column
    over the rows of the day, a day being a date as the frame writes
    it. *)
Definition day_sums (col : string) (l : list Day) : list number :=
  map (fun key => Numeric.sum (column col (filter (fun x => (label x, stamp x) = key) l)))
      (Frame.unique (map (fun x => (label x, stamp x)) l)).

(** What the row of a week shows of a column, from the rows of the week:
    their sum, and for DAU and Activate KOL the largest of the sums of
    the days. *)
Definition week_value (col : string) (l : list Day) : number :=
  if bool_decide (col ∈ ["DAU"; "Activate KOL"])
  then Numeric.max (day_sums col l)
  else Numeric.sum (column col l).

(** The row of week [k] of a team: labelled with the first and the last
    day that the team has in that week, and made of all the rows of the
    team in that week, of whatever month. *)
Definition is_week_row (dated : list Day) (k : Z) (row : list string) : Prop :=
  let l := filter (fun x => week_of (stamp x) = k) dated in
  exists first last,
    first ∈ map stamp l /\ last ∈ map stamp l /\
    (forall d, d ∈ map stamp l -> (ordinal first <= ordinal d <= ordinal last)%Z) /\
    row = (strftime_md first ++ "~" ++ strftime_md last)%string ::
          map (fun col => format_number (week_value col l)) team_columns.

End Notions.

(* ================================================================== *)
(** * Properties                                                        *)
(* ================================================================== *)

(** ** Sorting and grouping *)

Module FrameFacts.
Import Frame.

Lemma filter_all {A} (P : A -> Prop) `{!forall x, Decision (P x)} (l : list A) :
  Forall P l -> filter P l = l.
Proof.
  induction 1 as [|x l Hx _ IH]; [done|].
  rewrite filter_cons, IH. by destruct (decide (P x)).
Qed.

Lemma filter_none {A} (P : A -> Prop) `{!forall x, Decision (P x)} (l : list A) :
  Forall (fun x => ~ P x) l -> filter P l = [].
Proof.
  induction 1 as [|x l Hx _ IH]; [done|].
  rewrite filter_cons, IH. by destruct (decide (P x)).
Qed.

Section Sorting.
Context {A : Type} (key : A -> Z).

Abbreviation descending := (Notions.descending key).

Lemma insert_desc_perm x l : insert_desc key x l ≡ₚ x :: l.
Proof.
  induction l as [|y l IH]; simpl; [done|].
  destruct (key x <? key y)%Z; [|done].
  rewrite IH. apply Permutation_swap.
Qed.

Lemma sort_values_desc_perm l : sort_values_desc key l ≡ₚ l.
Proof.
  induction l as [|x l IH]; simpl; [done|].
  rewrite insert_desc_perm. by rewrite IH.
Qed.

Lemma insert_desc_sorted x l : descending l -> descending (insert_desc key x l).
Proof.
  induction 1 as [|y l Hs IH Hy]; simpl.
  - repeat constructor.
  - destruct (Z.ltb_spec (key x) (key y)).
    + constructor; [done|].
      rewrite insert_desc_perm. constructor; [lia|done].
    + constructor; [by constructor|].
      constructor; [lia|].
      eapply Forall_impl; [exact Hy|]. simpl. intros; lia.
Qed.

Lemma sort_values_desc_sorted l : descending (sort_values_desc key l).
Proof.
  induction l; simpl; [constructor|]. by apply insert_desc_sorted.
Qed.

Lemma insert_desc_front x l :
  Forall (fun y => (key y <= key x)%Z) l -> insert_desc key x l = x :: l.
Proof.
  destruct 1 as [|y l Hy _]; simpl; [done|].
  destruct (Z.ltb_spec (key x) (key y)); [lia|done].
Qed.

Lemma insert_desc_filter (P : A -> Prop) `{!forall x, Decision (P x)} x l :
  descending l ->
  filter P (insert_desc key x l) =
  if decide (P x) then insert_desc key x (filter P l) else filter P l.
Proof.
  induction 1 as [|y l Hs IH Hy]; simpl.
  - rewrite filter_cons, filter_nil. by destruct (decide (P x)).
  - destruct (Z.ltb_spec (key x) (key y)) as [Hlt|Hge].
    + rewrite !filter_cons, IH.
      destruct (decide (P x)), (decide (P y)); simpl; try done.
      destruct (Z.ltb_spec (key x) (key y)); [done|lia].
    + rewrite (filter_cons _ x). destruct (decide (P x)); [|done].
      symmetry. apply insert_desc_front.
      apply Forall_forall. intros z Hz.
      apply list_elem_of_filter in Hz as [_ Hz].
      apply elem_of_cons in Hz as [->|Hz]; [lia|].
      rewrite Forall_forall in Hy. specialize (Hy z Hz). simpl in Hy. lia.
Qed.

(** Sorting commutes with the selection of rows. *)
Lemma sort_values_desc_filter (P : A -> Prop) `{!forall x, Decision (P x)} l :
  filter P (sort_values_desc key l) = sort_values_desc key (filter P l).
Proof.
  induction l as [|x l IH]; simpl; [done|].
  rewrite insert_desc_filter by apply sort_values_desc_sorted.
  rewrite filter_cons, IH. by destruct (decide (P x)).
Qed.

Lemma sort_values_desc_nil l : sort_values_desc key l = [] -> l = [].
Proof.
  intros H. apply Permutation_nil_r. rewrite <- H.
  symmetry. apply sort_values_desc_perm.
Qed.

End Sorting.

Section Grouping.
Context `{EqDecision K} {A : Type} (key : A -> K).

Lemma elem_of_unique (k : K) l : k ∈ unique l <-> k ∈ l.
Proof.
  induction l as [|k' l IH]; simpl; [done|].
  rewrite !elem_of_cons, list_elem_of_filter, IH.
  destruct (decide (k = k')); tauto.
Qed.

Lemma unique_NoDup (l : list K) : NoDup (unique l).
Proof.
  induction l as [|k l IH]; simpl; constructor.
  - rewrite list_elem_of_filter. tauto.
  - by apply NoDup_filter.
Qed.

Lemma unique_filter (P : K -> Prop) `{!forall k, Decision (P k)} (l : list K) :
  unique (filter P l) = filter P (unique l).
Proof.
  induction l as [|k l IH]; simpl; [done|].
  rewrite !filter_cons. destruct (decide (P k)) as [Hk|Hk]; simpl.
  - rewrite IH, !list_filter_filter. f_equal.
    apply list_filter_iff. tauto.
  - rewrite IH, list_filter_filter. apply list_filter_iff.
    intros k'. split; [|tauto]. intros Hk'. split; [done|]. by intros ->.
Qed.

Lemma map_filter_key (P : K -> Prop) `{!forall k, Decision (P k)} (l : list A) :
  map key (filter (fun x => P (key x)) l) = filter P (map key l).
Proof.
  induction l as [|x l IH]; simpl; [done|].
  rewrite !filter_cons. destruct (decide (P (key x))); simpl; by rewrite IH.
Qed.

(** Dropping every row of one key drops that key's group and leaves the
    other groups as they were. *)
Lemma groupby_without (k0 : K) (l : list A) :
  groupby key (filter (fun x => key x <> k0) l) =
  filter (fun g => g.1 <> k0) (groupby key l).
Proof.
  unfold groupby.
  pose proof (map_filter_key (fun k => k <> k0) l) as E. simpl in E.
  rewrite E, unique_filter. clear E.
  induction (unique (map key l)) as [|k ks IH]; simpl; [done|].
  rewrite !filter_cons. simpl. destruct (decide (k <> k0)) as [Hk|Hk]; simpl.
  - rewrite IH. f_equal. f_equal.
    rewrite list_filter_filter. apply list_filter_iff.
    intros x. split; [tauto|]. intros Hx. split; [done|]. by rewrite Hx.
  - apply IH.
Qed.

Lemma groupby_keys (l : list A) : map fst (groupby key l) = unique (map key l).
Proof.
  unfold groupby. rewrite map_map. simpl. apply map_id.
Qed.

Lemma elem_of_groupby k g (l : list A) :
  (k, g) ∈ groupby key l <-> k ∈ map key l /\ g = filter (fun x => key x = k) l.
Proof.
  unfold groupby. rewrite list_elem_of_fmap. split.
  - intros (k' & Heq & Hk'). inversion Heq; subst.
    split; [by apply elem_of_unique|done].
  - intros [Hk ->]. exists k. by rewrite elem_of_unique.
Qed.

(** The first group is that of the first row, and no later group has its
    key. *)
Lemma groupby_head x (l : list A) :
  exists gs,
    groupby key (x :: l) = (key x, filter (fun z => key z = key x) (x :: l)) :: gs /\
    Forall (fun g => g.1 <> key x) gs.
Proof.
  unfold groupby. simpl. eexists. split; [reflexivity|].
  apply Forall_forall. intros g Hg.
  apply list_elem_of_fmap in Hg as (k & -> & Hk). simpl.
  by apply list_elem_of_filter in Hk as [Hk _].
Qed.

(** The group of a key that occurs splits the list of groups in two
    parts that do not have that key. *)
Lemma groupby_split (k0 : K) (l : list A) :
  k0 ∈ map key l ->
  exists pre post,
    groupby key l = pre ++ (k0, filter (fun x => key x = k0) l) :: post /\
    filter (fun g => g.1 <> k0) (groupby key l) = pre ++ post.
Proof.
  intros Hin.
  assert (Hg : (k0, filter (fun x => key x = k0) l) ∈ groupby key l)
    by by apply elem_of_groupby.
  apply list_elem_of_split in Hg as (pre & post & Hg).
  exists pre, post. split; [done|].
  pose proof (unique_NoDup (map key l)) as Hnd.
  rewrite <- groupby_keys, Hg, fmap_app, fmap_cons in Hnd. simpl in Hnd.
  apply NoDup_app in Hnd as (_ & Hpre & Hpost).
  apply NoDup_cons in Hpost as [Hpost _].
  rewrite Hg, filter_app, filter_cons. simpl.
  destruct (decide (k0 <> k0)); [done|].
  f_equal; apply filter_all, Forall_forall; intros [k g] Hkg; simpl;
    intros ->.
  - eapply Hpre; [|left]. apply list_elem_of_fmap. by exists (k0, g).
  - apply Hpost. apply list_elem_of_fmap. by exists (k0, g).
Qed.

End Grouping.

End FrameFacts.

(** ** Labels *)

Module LabelFacts.
Import Calendar.

Lemma chars_app (a b : string) :
  Text.chars (a ++ b) = Text.chars a ++ Text.chars b.
Proof.
  unfold Text.chars. induction a as [|c a IH]; simpl; [done|]. by rewrite IH.
Qed.

(** A label with a separator in it is not the word TOTAL. *)
Lemma separated_not_TOTAL (a b : string) (c : ascii) :
  c ∉ Text.chars "TOTAL" -> (a ++ String c b)%string <> "TOTAL".
Proof.
  intros Hc Heq. apply Hc. rewrite <- Heq, chars_app.
  apply elem_of_app. right. unfold Text.chars. simpl. left.
Qed.

Lemma strftime_ymd_not_TOTAL d : strftime_ymd d <> "TOTAL".
Proof.
  unfold strftime_ymd. apply separated_not_TOTAL.
  unfold Text.chars. simpl. rewrite !elem_of_cons, elem_of_nil.
  intros H. repeat destruct H as [H|H]; discriminate || done.
Qed.

Lemma month_label_not_TOTAL y m : month_label y m <> "TOTAL".
Proof.
  unfold month_label. apply separated_not_TOTAL.
  unfold Text.chars. simpl. rewrite !elem_of_cons, elem_of_nil.
  intros H. repeat destruct H as [H|H]; discriminate || done.
Qed.

End LabelFacts.

(** ** Numbers *)

Module NumericFacts.
Import Numeric Notions.
Local Open Scope Q_scope.

Lemma total_perm (l l' : list Q) : l ≡ₚ l' -> total l == total l'.
Proof.
  unfold total. induction 1 as [|x l l' _ IH|x y l|l l' l'' _ IH1 _ IH2]; simpl.
  - reflexivity.
  - by rewrite IH.
  - ring.
  - by rewrite IH1.
Qed.

Lemma present_perm (l l' : list number) : l ≡ₚ l' -> present l ≡ₚ present l'.
Proof. unfold present. intros H. by rewrite H. Qed.

Lemma sum_perm (l l' : list number) : l ≡ₚ l' -> same_number (sum l) (sum l').
Proof. intros H. simpl. by apply total_perm, present_perm. Qed.

Lemma Qmax_cases a b : (a <= b /\ Qmax a b = b) \/ (b <= a /\ Qmax a b = a).
Proof.
  unfold Qmax. destruct (Qle_bool a b) eqn:E.
  - left. split; [by apply Qle_bool_iff|done].
  - right. split; [|done]. apply Qlt_le_weak, Qnot_le_lt.
    intros H. apply Qle_bool_iff in H. congruence.
Qed.

Lemma foldr_Qmax_greatest q rest : greatest (foldr Qmax q rest) (q :: rest).
Proof.
  induction rest as [|x rest [(w & Hw & Hwm) Hle]]; simpl.
  - split.
    + exists q. split; [left|reflexivity].
    + intros x Hx. apply list_elem_of_singleton in Hx as ->. apply Qle_refl.
  - destruct (Qmax_cases x (foldr Qmax q rest)) as [[Hxm ->]|[Hmx ->]]; split.
    + exists w. split; [|done].
      apply elem_of_cons in Hw as [->|Hw]; [left|do 2 right; done].
    + intros z Hz. apply elem_of_cons in Hz as [->|Hz]; [apply Hle; left|].
      apply elem_of_cons in Hz as [->|Hz]; [done|]. apply Hle. by right.
    + exists x. split; [right; left|reflexivity].
    + intros z Hz. apply elem_of_cons in Hz as [->|Hz].
      * eapply Qle_trans; [apply Hle; left|done].
      * apply elem_of_cons in Hz as [->|Hz]; [apply Qle_refl|].
        eapply Qle_trans; [apply Hle; by right|done].
Qed.

Lemma greatest_unique m m' l l' :
  greatest m l -> greatest m' l' -> l ≡ₚ l' -> m == m'.
Proof.
  intros [(x & Hx & Hxm) Hle] [(x' & Hx' & Hxm') Hle'] Hp.
  apply Qle_antisym.
  - rewrite <- Hxm. apply Hle'. by rewrite <- Hp.
  - rewrite <- Hxm'. apply Hle. by rewrite Hp.
Qed.

Lemma max_perm (l l' : list number) : l ≡ₚ l' -> same_number (max l) (max l').
Proof.
  intros H. apply present_perm in H. unfold max.
  destruct (present l) as [|q rest], (present l') as [|q' rest']; simpl.
  - done.
  - by apply Permutation_nil_cons in H.
  - symmetry in H. by apply Permutation_nil_cons in H.
  - eapply greatest_unique; [apply foldr_Qmax_greatest..|done].
Qed.

Lemma round_half_even_comp x y : x == y -> round_half_even x = round_half_even y.
Proof.
  intros H. unfold round_half_even.
  rewrite (Qfloor_comp _ _ H).
  assert (E : (x - inject_Z (Qfloor y) ?= 1 # 2) = (y - inject_Z (Qfloor y) ?= 1 # 2))
    by (apply Qcompare_comp; [by rewrite H|reflexivity]).
  by rewrite E.
Qed.

Lemma negative_comp x y : x == y -> negative x = negative y.
Proof. intros H. unfold negative. by rewrite H. Qed.

Lemma trunc_comp x y : x == y -> trunc x = trunc y.
Proof.
  intros H. unfold trunc.
  rewrite (Qfloor_comp _ _ H), (Qceiling_comp _ _ H). by rewrite H.
Qed.

Lemma Qabs'_comp x y : x == y -> Qabs' x == Qabs' y.
Proof.
  intros H. unfold Qabs'. rewrite (negative_comp _ _ H).
  destruct (negative y); by rewrite H.
Qed.

Lemma fixed0_comp x y : x == y -> fixed0 x = fixed0 y.
Proof.
  intros H. unfold fixed0.
  by rewrite (negative_comp _ _ H), (round_half_even_comp _ _ H).
Qed.

Lemma fixed1_comp x y : x == y -> fixed1 x = fixed1 y.
Proof.
  intros H. unfold fixed1.
  rewrite (negative_comp _ _ H).
  rewrite (round_half_even_comp (x * inject_Z 10) (y * inject_Z 10)); [done|].
  by rewrite H.
Qed.

(** What is shown depends on the number only, not on the fraction that
    represents it. *)
Lemma format_number_comp a b :
  same_number a b -> Generator.format_number a = Generator.format_number b.
Proof.
  destruct a as [|x], b as [|y]; simpl; try done.
  intros H.
  rewrite (fixed0_comp _ _ H), (fixed1_comp _ _ H), (trunc_comp _ _ H).
  assert (E0 : Qeq_bool x 0 = Qeq_bool y 0) by by rewrite H.
  assert (E1 : forall c, Qle_bool c (Qabs' x) = Qle_bool c (Qabs' y))
    by (intros c; by rewrite (Qabs'_comp _ _ H)).
  assert (E2 : forall c, Qeq_bool x c = Qeq_bool y c) by (intros c; by rewrite H).
  by rewrite E0, !E1, E2.
Qed.

End NumericFacts.

(** ** The rollup of one dimension: [create_table_data] *)

Module RollupFacts.
Import Calendar Generator Notions FrameFacts.

Lemma filter_iff_in {A} (P Q : A -> Prop) `{!forall x, Decision (P x)}
    `{!forall x, Decision (Q x)} (l : list A) :
  Forall (fun x => P x <-> Q x) l -> filter P l = filter Q l.
Proof.
  induction 1 as [|x l Hx _ IH]; [done|].
  rewrite !filter_cons, IH. destruct (decide (P x)), (decide (Q x)); tauto.
Qed.

Lemma month_step_app cols latest t g :
  month_step cols latest t g = t ++ month_step cols latest [] g.
Proof.
  destruct g as [[y m] month_data]. unfold month_step, _add_month_total_row.
  destruct (bool_decide _); [|destruct (is_month_complete _ _ _)]; simpl;
    by rewrite ?app_nil_r, <- ?app_assoc.
Qed.

Lemma foldl_month_step cols latest gs t :
  foldl (month_step cols latest) t gs =
  t ++ concat (map (month_step cols latest []) gs).
Proof.
  revert t. induction gs as [|g gs IH]; intros t; simpl.
  - by rewrite app_nil_r.
  - by rewrite IH, (month_step_app _ _ t), app_assoc.
Qed.

(** A month other than the latest gives its total when complete, and
    nothing otherwise. *)
Lemma month_step_prior cols latest y m month_data :
  (y, m) <> latest ->
  month_step cols latest [] ((y, m), month_data) =
  if is_month_complete month_data y m
  then [month_total_row month_data cols y m] else [].
Proof.
  intros Hne. unfold month_step. rewrite bool_decide_eq_false_2 by done.
  by destruct (is_month_complete _ _ _).
Qed.

(** The latest month gives its days and then its total. *)
Lemma month_step_latest cols y m month_data :
  month_step cols (y, m) [] ((y, m), month_data) =
  map (formatted_row cols) month_data ++ [month_total_row month_data cols y m].
Proof. unfold month_step, _add_month_total_row. by rewrite bool_decide_eq_true_2. Qed.

Lemma prior_months_rows cols latest (gs : list ((Z * Z) * list Day)) :
  Forall (fun g => g.1 <> latest) gs ->
  Forall (month_total cols) (concat (map (month_step cols latest []) gs)).
Proof.
  intros H. apply Forall_concat, Forall_forall. intros t Ht.
  apply list_elem_of_fmap in Ht as ([[y m] month_data] & -> & Hg).
  rewrite Forall_forall in H. specialize (H _ Hg). simpl in H.
  rewrite month_step_prior by done.
  destruct (is_month_complete _ _ _); repeat constructor. by exists y, m, month_data.
Qed.

Lemma table_data_of_spec cols dated newest rest :
  newest_first dated = newest :: rest ->
  let shown := filter (fun col => col ∈ cols) display_columns in
  table_data_of cols dated =
  Some (concat (map (month_step shown (year_month newest) [])
                    (Frame.groupby year_month (newest_first dated)))
        ++ [total_row (newest_first dated) shown], shown).
Proof.
  intros Hs shown. unfold table_data_of.
  destruct dated as [|x dated]; [done|].
  fold (newest_first (x :: dated)). rewrite Hs at 1.
  unfold _add_total_row. by rewrite foldl_month_step.
Qed.

Lemma newest_first_nonempty dated :
  dated <> [] -> exists newest rest, newest_first dated = newest :: rest.
Proof.
  intros Hne. destruct (newest_first dated) as [|newest rest] eqn:E; [|eauto].
  by apply sort_values_desc_nil in E.
Qed.

Lemma shown_columns_Date df : exists rest, shown_columns df = "Date" :: rest.
Proof.
  unfold shown_columns, display_columns. rewrite filter_cons.
  destruct (decide ("Date" ∈ columns df)) as [|Hn]; [eauto|].
  exfalso. apply Hn. unfold columns. simpl. right. left.
Qed.

Section Builder.
Variable to_datetime : string -> option date.

Lemma dated_rows_set df :
  dated_rows (set_Date_dt to_datetime df) = days_of to_datetime df.
Proof.
  unfold dated_rows, days_of. simpl.
  induction (rows df) as [|r rs IH]; [done|].
  simpl. destruct (to_datetime (Date r)); simpl; [f_equal|]; exact IH.
Qed.

Lemma shown_columns_set df :
  filter (fun col => col ∈ columns (set_Date_dt to_datetime df)) display_columns =
  shown_columns df.
Proof.
  unfold shown_columns. apply filter_iff_in.
  assert (H : Forall (fun col => col <> "Date_dt") display_columns)
    by (unfold display_columns; repeat constructor; discriminate).
  eapply Forall_impl; [exact H|]. intros col Hcol. unfold columns. simpl.
  destruct (Date_dt df);
    repeat (rewrite elem_of_cons || rewrite elem_of_app || rewrite elem_of_nil).
  all: simpl in Hcol; intuition done.
Qed.

(** What a call returns, and what it leaves in the store. *)
Lemma create_table_data_run (st : list DataFrame) r df :
  st !! r = Some df ->
  create_table_data to_datetime r st =
  Some (table_data_of (columns (set_Date_dt to_datetime df))
                      (days_of to_datetime df),
        <[r := set_Date_dt to_datetime df]> st).
Proof.
  intros Hr. unfold create_table_data, Store.bind, Store.update, Store.read, Store.ret.
  rewrite Hr. rewrite list_lookup_insert_eq by by eapply lookup_lt_Some.
  by rewrite dated_rows_set.
Qed.

(** The table of a frame that has a dated row. *)
Lemma create_table_data_table (st : list DataFrame) r df newest rest :
  st !! r = Some df ->
  newest_first (days_of to_datetime df) = newest :: rest ->
  fst <$> create_table_data to_datetime r st =
  Some (Some
    (concat (map (month_step (shown_columns df) (year_month newest) [])
                 (Frame.groupby year_month (newest_first (days_of to_datetime df))))
     ++ [total_row (newest_first (days_of to_datetime df)) (shown_columns df)],
     shown_columns df)).
Proof.
  intros Hr Hs. rewrite (create_table_data_run _ _ _ Hr). simpl.
  rewrite (table_data_of_spec _ _ _ _ Hs). simpl.
  by rewrite shown_columns_set.
Qed.

(** The shape of the table of one dimension: the days of the current
    month, then its total, then the totals of earlier months, then TOTAL. *)
Lemma create_table_data_shape (st : list DataFrame) r df :
  st !! r = Some df ->
  days_of to_datetime df <> [] ->
  exists newest others earlier,
    newest_first (days_of to_datetime df) = newest :: others /\
    Forall (month_total (shown_columns df)) earlier /\
    let days := newest :: others in
    let y := year (stamp newest) in
    let m := month (stamp newest) in
    let month_days := in_month y m days in
    fst <$> create_table_data to_datetime r st =
    Some (Some
      (map (formatted_row (shown_columns df)) month_days
       ++ [month_total_row month_days (shown_columns df) y m]
       ++ earlier
       ++ [total_row days (shown_columns df)],
       shown_columns df)).
Proof.
  intros Hr Hne. destruct (newest_first_nonempty _ Hne) as (newest & others & Hs).
  destruct (groupby_head year_month newest others) as (gs & Hg & Hgs).
  exists newest, others,
    (concat (map (month_step (shown_columns df) (year_month newest) []) gs)).
  split; [done|]. split; [by apply prior_months_rows|].
  intros days y m month_days.
  rewrite (create_table_data_table _ _ _ _ _ Hr Hs), Hs, Hg, map_cons, concat_cons.
  change (year_month newest) with (y, m). rewrite month_step_latest.
  by rewrite <- !app_assoc.
Qed.

End Builder.

Lemma shown_columns_metric df df' :
  metric_columns df' = metric_columns df -> shown_columns df' = shown_columns df.
Proof.
  intros Hm.
  rewrite <- (shown_columns_set (fun _ => None) df'), <- (shown_columns_set (fun _ => None) df).
  unfold columns. simpl. by rewrite Hm.
Qed.

Lemma reduce_perm col l l' :
  l ≡ₚ l' -> same_number (reduce col l) (reduce col l').
Proof.
  intros H. unfold reduce, column.
  destruct (bool_decide _);
    [apply NumericFacts.max_perm|apply NumericFacts.sum_perm];
    by apply Permutation_map.
Qed.

Lemma month_step_labels rest latest g :
  Forall (fun r => row_label r <> Some "TOTAL")
         (month_step ("Date" :: rest) latest [] g).
Proof.
  destruct g as [[y m] month_data]. unfold month_step, _add_month_total_row.
  assert (Hm : row_label (month_total_row month_data ("Date" :: rest) y m) <> Some "TOTAL").
  { simpl. intros [=H]. by apply LabelFacts.month_label_not_TOTAL in H. }
  destruct (bool_decide _); [|destruct (is_month_complete _ _ _)]; simpl.
  - apply Forall_app. split; [|by repeat constructor].
    apply Forall_forall. intros r Hr.
    apply list_elem_of_fmap in Hr as (x & -> & _). simpl.
    intros [=H]. by apply LabelFacts.strftime_ymd_not_TOTAL in H.
  - by repeat constructor.
  - constructor.
Qed.

Lemma days_in_month_nonneg y m : (0 <= days_in_month y m)%Z.
Proof.
  unfold days_in_month.
  assert (H : (0 <= nth (Z.to_nat m) mdays 0)%Z).
  { generalize (Z.to_nat m). intros n. unfold mdays.
    do 13 (destruct n as [|n]; [simpl; lia|]). by destruct n. }
  destruct (_ && _); lia.
Qed.

(** Each day of a month of valid dates is a day of that month's calendar. *)
Lemma valid_day_range d :
  valid_date d = true -> (1 <= day d <= days_in_month (year d) (month d))%Z.
Proof.
  unfold valid_date. rewrite !andb_true_iff, !Z.leb_le. tauto.
Qed.

End RollupFacts.

(** ** Claims about the rollup of one dimension *)

Section RollupClaims.
Import Calendar Generator Notions FrameFacts RollupFacts.

Variable to_datetime : string -> option date.

(** C1.  A month that has rows but is not the current month contributes
    exactly one row, its month total, when the number of distinct days of
    the month among its rows reaches the number of days of that calendar
    month; otherwise it contributes no row at all.  Stated against the table
    built from the same frame without that month's rows ([df']): in the
    first case the table has the month total inserted and is otherwise the
    same, in the second case the two tables agree on every row above the
    TOTAL row, so the month's data is in no daily or month row. *)
Theorem prior_month_rollup (st st' : list DataFrame) r r' df df' y m :
  st !! r = Some df ->
  st' !! r' = Some df' ->
  metric_columns df' = metric_columns df ->
  days_of to_datetime df' = outside_month y m (days_of to_datetime df) ->
  (y, m) ∈ map year_month (days_of to_datetime df) ->
  current_month (days_of to_datetime df) <> Some (y, m) ->
  let month_data := in_month y m (newest_first (days_of to_datetime df)) in
  let unique_days := Numeric.nunique (map (fun x => day (stamp x)) month_data) in
  exists cols body body' total total',
    fst <$> create_table_data to_datetime r st = Some (Some (body ++ [total], cols)) /\
    fst <$> create_table_data to_datetime r' st' = Some (Some (body' ++ [total'], cols)) /\
    row_label total = Some "TOTAL" /\
    row_label total' = Some "TOTAL" /\
    if decide (days_in_month y m <= Z.of_nat unique_days)%Z
    then exists pre post,
           body' = pre ++ post /\
           body = pre ++ [month_total_row month_data cols y m] ++ post
    else body = body'.
Proof.
  intros Hr Hr' Hm Hdays Hin Hcur month_data unique_days.
  set (dated := days_of to_datetime df) in *.
  assert (Hne : dated <> []) by (intros E; rewrite E in Hin; by apply elem_of_nil in Hin).
  destruct (newest_first_nonempty _ Hne) as (newest & rest & Hs).
  assert (Hnew : year_month newest <> (y, m)).
  { intros E. apply Hcur. unfold current_month. by rewrite Hs, <- E. }
  assert (Hs' : newest_first (days_of to_datetime df') =
                outside_month y m (newest_first dated)).
  { rewrite Hdays. unfold newest_first, outside_month.
    by rewrite sort_values_desc_filter. }
  assert (Hs'' : newest_first (days_of to_datetime df') =
                 newest :: outside_month y m rest).
  { rewrite Hs', Hs. unfold outside_month. rewrite filter_cons.
    by destruct (decide (year_month newest <> (y, m))). }
  subst dated.
  rewrite (create_table_data_table _ _ _ _ _ _ Hr Hs).
  rewrite (create_table_data_table _ _ _ _ _ _ Hr' Hs'').
  rewrite (shown_columns_metric _ _ Hm), Hs'.
  unfold outside_month at 1. rewrite groupby_without.
  assert (Hin' : (y, m) ∈ map year_month (newest_first (days_of to_datetime df))).
  { unfold newest_first.
    by rewrite (Permutation_map _ (sort_values_desc_perm _ (days_of to_datetime df))). }
  destruct (groupby_split year_month (y, m) _ Hin') as (pre & post & Hg & Hg').
  rewrite Hg', Hg. fold (in_month y m (newest_first (days_of to_datetime df))).
  fold month_data.
  eexists _, _, _, _, _. split; [reflexivity|]. split; [reflexivity|].
  split; [done|]. split; [done|].
  rewrite !map_app, !concat_app, map_cons, concat_cons.
  rewrite (month_step_prior _ _ _ _ _ (not_eq_sym Hnew)).
  unfold is_month_complete. fold unique_days.
  destruct (decide (days_in_month y m <= Z.of_nat unique_days)%Z) as [Hc|Hc].
  - rewrite bool_decide_eq_true_2 by done. eauto.
  - by rewrite bool_decide_eq_false_2 by done.
Qed.

(** C2.  When at least one row of the frame has a date, the table ends
    with the TOTAL row and no other row is labelled TOTAL.  The labels
    returned with the table are the display columns that the frame has:
    Date, then every display metric that is a column of the frame, and
    no other.  The TOTAL row has one cell for each of these metrics, and
    the cell shows the column reduced over all the dated rows of the
    frame, whatever month they are in: the maximum for DAU and Activate
    KOL, the sum for every other column. *)
Theorem total_row_over_all_rows (st : list DataFrame) r df :
  st !! r = Some df ->
  (exists row, row ∈ rows df /\ is_Some (to_datetime (Date row))) ->
  let cols := shown_columns df in
  head cols = Some "Date" /\
  (forall col, col ∈ tail cols <->
               col ∈ tail display_columns /\ col ∈ metric_columns df) /\
  exists body,
    fst <$> create_table_data to_datetime r st =
    Some (Some
      (body ++
       ["TOTAL" ::
        map (fun col =>
               format_number
                 (if bool_decide (col ∈ ["DAU"; "Activate KOL"])
                  then Numeric.max (column col (days_of to_datetime df))
                  else Numeric.sum (column col (days_of to_datetime df))))
            (tail cols)],
       cols)) /\
    Forall (fun row => row_label row <> Some "TOTAL") body.
Proof.
  intros Hr (row & Hrow & d & Hd) cols.
  split; [by destruct (shown_columns_Date df) as (rest & E); unfold cols; rewrite E|].
  split.
  { intros col. unfold cols, shown_columns, display_columns.
    rewrite filter_cons_True by (unfold columns; simpl; right; left).
    cbn [tail]. rewrite list_elem_of_filter. split.
    - intros [Hc Hin]. split; [done|].
      unfold columns in Hc. rewrite !elem_of_app in Hc.
      destruct Hc as [Hc|[Hc|Hc]]; [|done|].
      + exfalso. revert Hin. apply elem_of_cons in Hc as [->|Hc];
          [|apply list_elem_of_singleton in Hc as ->];
          apply (bool_decide_unpack _); by vm_compute.
      + exfalso. destruct (Date_dt df); [|by apply elem_of_nil in Hc].
        apply list_elem_of_singleton in Hc as ->. revert Hin.
        apply (bool_decide_unpack _); by vm_compute.
    - intros [Hin Hc]. split; [|done].
      unfold columns. rewrite !elem_of_app. right. by left. }
  set (dated := days_of to_datetime df).
  assert (Hne : dated <> []).
  { intros E.
    assert (Hx : mkDay d (Date row) (values row) ∈ dated).
    { apply list_elem_of_omap. exists row. by rewrite Hd. }
    rewrite E in Hx. by apply elem_of_nil in Hx. }
  destruct (newest_first_nonempty _ Hne) as (newest & rest & Hs).
  rewrite (create_table_data_table _ _ _ _ _ _ Hr Hs).
  eexists. split.
  - assert (Ht : forall cs,
              total_row (newest_first dated) cs =
              "TOTAL" :: map (fun col => format_number (reduce col dated)) (tail cs)).
    { intros cs. unfold total_row. f_equal. apply map_ext. intros col.
      apply NumericFacts.format_number_comp, reduce_perm, sort_values_desc_perm. }
    rewrite Ht. reflexivity.
  - destruct (shown_columns_Date df) as (others & ->).
    apply Forall_concat, Forall_forall. intros t Ht.
    apply list_elem_of_fmap in Ht as (g & -> & _).
    apply month_step_labels.
Qed.

(** C9.  In a month group of the builder all rows are of one month, so the
    number of distinct days among them is at most the number of days of
    that calendar month, and the completeness test holds exactly when every
    day of the month occurs in some row of the group. *)
Theorem complete_iff_every_day df y m month_data :
  (forall s d, to_datetime s = Some d -> valid_date d = true) ->
  ((y, m), month_data) ∈
    Frame.groupby year_month (newest_first (days_of to_datetime df)) ->
  let unique_days :=
    Z.of_nat (Numeric.nunique (map (fun x => day (stamp x)) month_data)) in
  (unique_days <= days_in_month y m)%Z /\
  (is_month_complete month_data y m = true <->
   forall d, (1 <= d <= days_in_month y m)%Z ->
             exists x, x ∈ month_data /\ day (stamp x) = d).
Proof.
  intros Hvalid Hg unique_days.
  apply elem_of_groupby in Hg as [_ ->].
  set (month_data := filter _ _) in *.
  set (days := remove_dups (map (fun x => day (stamp x)) month_data)).
  assert (Hrange : forall d, d ∈ days -> d ∈ seqZ 1 (days_in_month y m)).
  { intros d Hd. apply elem_of_remove_dups, list_elem_of_fmap in Hd as (x & -> & Hx).
    apply list_elem_of_filter in Hx as [Hym Hx].
    unfold newest_first in Hx. rewrite sort_values_desc_perm in Hx.
    apply list_elem_of_omap in Hx as (row & _ & Hrow).
    destruct (to_datetime (Date row)) as [dt|] eqn:E; [|done].
    injection Hrow as <-. unfold year_month in Hym. cbn [stamp] in *.
    injection Hym as <- <-. apply Hvalid, valid_day_range in E.
    apply elem_of_seqZ. lia. }
  assert (Hsub : days ⊆+ seqZ 1 (days_in_month y m))
    by (apply NoDup_submseteq; [apply NoDup_remove_dups|done]).
  assert (Hlen : (unique_days <= days_in_month y m)%Z).
  { apply submseteq_length in Hsub. rewrite length_seqZ in Hsub.
    pose proof (days_in_month_nonneg y m).
    unfold unique_days, Numeric.nunique. fold days. lia. }
  split; [done|].
  unfold is_month_complete. rewrite bool_decide_eq_true.
  fold month_data. fold unique_days. split.
  - intros Hc d Hd.
    assert (Hp : days ≡ₚ seqZ 1 (days_in_month y m)).
    { apply submseteq_length_Permutation; [done|].
      rewrite length_seqZ. unfold unique_days, Numeric.nunique in Hc.
      fold days in Hc. pose proof (days_in_month_nonneg y m). lia. }
    assert (Hdd : d ∈ days) by (rewrite Hp; apply elem_of_seqZ; lia).
    apply elem_of_remove_dups, list_elem_of_fmap in Hdd as (x & -> & Hx). eauto.
  - intros Hall.
    assert (Hsup : seqZ 1 (days_in_month y m) ⊆+ days).
    { apply NoDup_submseteq; [apply NoDup_seqZ|].
      intros d Hd. apply elem_of_seqZ in Hd.
      destruct (Hall d) as (x & Hx & <-); [lia|].
      apply elem_of_remove_dups, list_elem_of_fmap. eauto. }
    apply submseteq_length in Hsup. rewrite length_seqZ in Hsup.
    pose proof (days_in_month_nonneg y m).
    unfold unique_days, Numeric.nunique. fold days. lia.
Qed.

End RollupClaims.

(** ** The team report: [create_supervisor_report] *)

Module TeamFacts.
Import Calendar Generator Notions FrameFacts RollupFacts.

Lemma week_groups_append_keys wg k i :
  map fst (week_groups_append wg k i) =
  if decide (k ∈ map fst wg) then map fst wg else map fst wg ++ [k].
Proof.
  induction wg as [|[k' idx] wg IH]; simpl.
  - destruct (decide (k ∈ [])) as [H|_]; [by apply elem_of_nil in H|done].
  - destruct (decide (k' = k)) as [->|Hne].
    + rewrite bool_decide_eq_true_2 by done. simpl.
      destruct (decide (k ∈ k :: map fst wg)) as [|Hn]; [done|].
      exfalso. apply Hn. left.
    + rewrite bool_decide_eq_false_2 by done. simpl. rewrite IH.
      destruct (decide (k ∈ map fst wg)) as [Hin|Hnin];
        destruct (decide (k ∈ k' :: map fst wg)) as [Hin'|Hnin']; try done.
      * exfalso. apply Hnin'. by right.
      * apply elem_of_cons in Hin' as [->|]; done.
Qed.

(** The daily loop appends one row per day and records each week once, in
    the order in which the weeks are first met. *)
Lemma foldl_day_step cols data t wg :
  (foldl (day_step cols) (t, wg) data).1 = t ++ map (formatted_row cols) data /\
  map fst (foldl (day_step cols) (t, wg) data).2 =
  map fst wg ++ filter (fun k => k ∉ map fst wg) (Frame.unique (map YearWeek data)).
Proof.
  revert t wg. induction data as [|x data IH]; intros t wg; simpl.
  - by rewrite !app_nil_r.
  - unfold day_step at 2 4. simpl.
    destruct (IH (t ++ [formatted_row cols x])
                 (week_groups_append wg (YearWeek x)
                    (length (t ++ [formatted_row cols x]) - 1))) as [-> ->].
    split; [by rewrite <- app_assoc|].
    rewrite week_groups_append_keys, filter_cons, list_filter_filter.
    destruct (decide (YearWeek x ∈ map fst wg)) as [Hin|Hnin].
    + rewrite decide_False by tauto. f_equal. apply list_filter_iff.
      intros k. split; [|tauto]. intros Hk. split; [done|]. by intros ->.
    + rewrite decide_True by done. rewrite <- app_assoc. simpl. do 2 f_equal.
      apply list_filter_iff. intros k. rewrite elem_of_app, list_elem_of_singleton.
      tauto.
Qed.

Lemma foldl_week_step cols full wg t :
  foldl (week_step cols full) t wg = t ++ map (week_total_row cols full) (map fst wg).
Proof.
  revert t. induction wg as [|e wg IH]; intros t; simpl.
  - by rewrite app_nil_r.
  - rewrite IH. unfold week_step. by rewrite <- app_assoc.
Qed.

(** The rows one month group adds to the table. *)
Lemma team_month_step_latest cols full t y m month_data :
  team_month_step cols (y, m) full t ((y, m), month_data) =
  t ++ map (formatted_row cols) month_data
    ++ map (week_total_row cols full) (Frame.unique (map YearWeek month_data))
    ++ [month_total_row month_data cols y m].
Proof.
  unfold team_month_step. rewrite bool_decide_eq_true_2 by done.
  destruct (foldl_day_step cols month_data t []) as [H1 H2].
  destruct (foldl (day_step cols) (t, []) month_data) as [t' wg]. simpl in *.
  rewrite foldl_week_step, H1, H2.
  rewrite (filter_all (fun k => k ∉ [])).
  - by rewrite <- !app_assoc.
  - apply Forall_forall. intros k _. apply not_elem_of_nil.
Qed.

Lemma team_month_step_app cols latest full t g :
  team_month_step cols latest full t g = t ++ team_month_step cols latest full [] g.
Proof.
  destruct g as [[y m] month_data].
  destruct (decide ((y, m) = latest)) as [<-|Hne].
  - by rewrite !team_month_step_latest.
  - unfold team_month_step. rewrite bool_decide_eq_false_2 by done.
    destruct (is_month_complete _ _ _); simpl; by rewrite ?app_nil_r.
Qed.

Lemma foldl_team_month_step cols latest full gs t :
  foldl (team_month_step cols latest full) t gs =
  t ++ concat (map (team_month_step cols latest full []) gs).
Proof.
  revert t. induction gs as [|g gs IH]; intros t; simpl.
  - by rewrite app_nil_r.
  - by rewrite IH, (team_month_step_app _ _ _ t), app_assoc.
Qed.

Lemma earliest_is_Some l : l <> [] -> is_Some (earliest l).
Proof.
  destruct l as [|d l]; [done|]. intros _. unfold earliest. simpl.
  match goal with |- context [foldr ?f None l] => destruct (foldr f None l) as [e|] end;
    [|eauto].
  destruct (ordinal d <? ordinal e)%Z; eauto.
Qed.

Lemma most_recent_is_Some l : l <> [] -> is_Some (most_recent l).
Proof.
  destruct l as [|d l]; [done|]. intros _. unfold most_recent. simpl.
  match goal with |- context [foldr ?f None l] => destruct (foldr f None l) as [e|] end;
    [|eauto].
  destruct (ordinal e <? ordinal d)%Z; eauto.
Qed.

Lemma team_prior_months_rows cols latest full (gs : list ((Z * Z) * list Day)) :
  Forall (fun g => g.1 <> latest) gs ->
  Forall (month_total cols) (concat (map (team_month_step cols latest full []) gs)).
Proof.
  intros H. apply Forall_concat, Forall_forall. intros t Ht.
  apply list_elem_of_fmap in Ht as ([[y m] month_data] & -> & Hg).
  rewrite Forall_forall in H. specialize (H _ Hg). simpl in H.
  unfold team_month_step. rewrite bool_decide_eq_false_2 by done.
  destruct (is_month_complete _ _ _); repeat constructor. by exists y, m, month_data.
Qed.

Lemma available_columns_all :
  filter (fun col => col ∈ daily_totals_columns) report_columns = report_columns.
Proof. reflexivity. Qed.

Lemma insert_asc_nonempty {K} (cmp : K -> K -> comparison) k l :
  Frame.insert_asc cmp k l <> [].
Proof. destruct l as [|k' l]; simpl; [done|]. by destruct (cmp k k'). Qed.

Lemma daily_totals_nonempty l : l <> [] -> daily_totals l <> [].
Proof.
  intros Hl Hd. unfold daily_totals in Hd.
  apply sort_values_desc_nil, map_eq_nil in Hd.
  unfold Frame.groupby_sorted in Hd. apply map_eq_nil in Hd.
  destruct l as [|x l]; [done|]. simpl in Hd.
  by apply insert_asc_nonempty in Hd.
Qed.

(** The shape of the team table: the days of the current month, then its
    weeks, then its total, then the totals of earlier months, then TOTAL. *)
Lemma team_table_of_spec dated :
  dated <> [] ->
  exists newest others earlier,
    daily_totals (newest_first dated) = newest :: others /\
    Forall (month_total report_columns) earlier /\
    let totals := newest :: others in
    let y := year (stamp newest) in
    let m := month (stamp newest) in
    let month_data := in_month y m totals in
    team_table_of dated =
    Some (map (formatted_row report_columns) month_data
          ++ map (week_total_row report_columns totals)
                 (Frame.unique (map YearWeek month_data))
          ++ [month_total_row month_data report_columns y m]
          ++ earlier
          ++ [total_row totals report_columns]).
Proof.
  intros Hne.
  destruct (newest_first_nonempty _ Hne) as (n0 & r0 & Hs).
  assert (Hs' : newest_first dated <> []) by by rewrite Hs.
  destruct (daily_totals (newest_first dated)) as [|newest others] eqn:Hd;
    [by apply daily_totals_nonempty in Hd|].
  destruct (groupby_head year_month newest others) as (gs & Hg & Hgs).
  exists newest, others,
    (concat (map (team_month_step report_columns (year_month newest)
                    (newest :: others) []) gs)).
  split; [done|]. split; [by apply team_prior_months_rows|].
  intros totals y m month_data.
  unfold team_table_of. destruct dated as [|x dated]; [done|].
  fold (newest_first (x :: dated)). rewrite Hd.
  rewrite available_columns_all, foldl_team_month_step, Hg, map_cons, concat_cons.
  change (year_month newest) with (year (stamp newest), month (stamp newest)).
  rewrite team_month_step_latest. simpl app.
  by rewrite <- !app_assoc.
Qed.

Section Builder.
Variable to_datetime : string -> option date.

Lemma create_supervisor_report_run (st : list DataFrame) r df :
  st !! r = Some df ->
  days_of to_datetime df <> [] ->
  Forall (fun col => col ∈ columns df) team_columns ->
  fst <$> create_supervisor_report to_datetime r st =
  Some (team_table_of (days_of to_datetime df)).
Proof.
  intros Hr Hne Hcols.
  unfold create_supervisor_report, Store.bind, Store.update, Store.read.
  rewrite Hr. rewrite list_lookup_insert_eq by by eapply lookup_lt_Some.
  rewrite dated_rows_set.
  destruct (days_of to_datetime df) as [|x l] eqn:E; [done|].
  rewrite bool_decide_eq_true_2; [done|].
  eapply Forall_impl; [exact Hcols|]. intros col. unfold columns. simpl.
  destruct (Date_dt df);
    repeat (rewrite elem_of_cons || rewrite elem_of_app || rewrite elem_of_nil);
    intuition done.
Qed.

End Builder.

End TeamFacts.

(** ** Claims about the team report *)

Section TeamClaims.
Import Calendar Generator Notions FrameFacts RollupFacts TeamFacts.

Variable to_datetime : string -> option date.

Lemma dated_row_days_of df :
  (exists row, row ∈ rows df /\ is_Some (to_datetime (Date row))) ->
  days_of to_datetime df <> [].
Proof.
  intros (row & Hrow & d & Hd) E.
  assert (Hx : mkDay d (Date row) (values row) ∈ days_of to_datetime df).
  { apply list_elem_of_omap. exists row. by rewrite Hd. }
  rewrite E in Hx. by apply elem_of_nil in Hx.
Qed.


End TeamClaims.

(** ** The claims on sample data *)

Section Witnesses.
Import Calendar Generator Notions.

Lemma sample_to_datetime_valid s d :
  Sample.to_datetime s = Some d -> valid_date d = true.
Proof.
  unfold Sample.to_datetime. destruct (bool_decide _); [|done].
  destruct (Sample.digits _ _) as [y|]; [|done].
  destruct (Sample.digits _ _) as [m|]; [|done].
  destruct (Sample.digits _ _) as [d'|]; [|done].
  destruct (valid_date _) eqn:E; [|done]. by intros [= <-].
Qed.

(** The single day of June is dropped from the table of [bd_frame]: above
    the TOTAL row it is the table of the frame without that day. *)
Lemma prior_month_rollup_witness :
  let month_data :=
    in_month 2024 6 (newest_first (days_of Sample.to_datetime Sample.bd_frame)) in
  let unique_days := Numeric.nunique (map (fun x => day (stamp x)) month_data) in
  exists cols body body' total total',
    fst <$> create_table_data Sample.to_datetime 0%nat [Sample.bd_frame]
      = Some (Some (body ++ [total], cols)) /\
    fst <$> create_table_data Sample.to_datetime 0%nat [Sample.bd_frame_july]
      = Some (Some (body' ++ [total'], cols)) /\
    row_label total = Some "TOTAL" /\
    row_label total' = Some "TOTAL" /\
    if decide (days_in_month 2024 6 <= Z.of_nat unique_days)%Z
    then exists pre post,
           body' = pre ++ post /\
           body = pre ++ [month_total_row month_data cols 2024 6] ++ post
    else body = body'.
Proof.
  apply (prior_month_rollup Sample.to_datetime [Sample.bd_frame] [Sample.bd_frame_july]
           0%nat 0%nat Sample.bd_frame Sample.bd_frame_july 2024 6).
  - reflexivity.
  - reflexivity.
  - reflexivity.
  - vm_compute. reflexivity.
  - vm_compute. left.
  - vm_compute. discriminate.
Defined.

Lemma total_row_over_all_rows_witness :
  let cols := shown_columns Sample.bd_frame in
  head cols = Some "Date" /\
  (forall col, col ∈ tail cols <->
               col ∈ tail display_columns /\ col ∈ metric_columns Sample.bd_frame) /\
  exists body,
    fst <$> create_table_data Sample.to_datetime 0%nat [Sample.bd_frame] =
    Some (Some
      (body ++
       ["TOTAL" ::
        map (fun col =>
               format_number
                 (if bool_decide (col ∈ ["DAU"; "Activate KOL"])
                  then Numeric.max (column col (days_of Sample.to_datetime Sample.bd_frame))
                  else Numeric.sum (column col (days_of Sample.to_datetime Sample.bd_frame))))
            (tail cols)],
       cols)) /\
    Forall (fun row => row_label row <> Some "TOTAL") body.
Proof.
  apply (total_row_over_all_rows Sample.to_datetime [Sample.bd_frame] 0%nat Sample.bd_frame).
  - reflexivity.
  - exists Sample.june_row. split; [left|]. vm_compute. eauto.
Defined.

Lemma complete_iff_every_day_witness :
  let month_data :=
    in_month 2024 7 (newest_first (days_of Sample.to_datetime Sample.bd_frame)) in
  let unique_days :=
    Z.of_nat (Numeric.nunique (map (fun x => day (stamp x)) month_data)) in
  (unique_days <= days_in_month 2024 7)%Z /\
  (is_month_complete month_data 2024 7 = true <->
   forall d, (1 <= d <= days_in_month 2024 7)%Z ->
             exists x, x ∈ month_data /\ day (stamp x) = d).
Proof.
  apply (complete_iff_every_day Sample.to_datetime Sample.bd_frame 2024 7).
  - apply sample_to_datetime_valid.
  - apply FrameFacts.elem_of_groupby. split; [|reflexivity].
    vm_compute. left.
Defined.




End Witnesses.

(** ** Claims about the comparator *)

Module ComparatorFacts.
Import Generator Notions Numeric.
Local Open Scope Q_scope.

Lemma positive_spec q : positive q = true <-> 0 < q.
Proof.
  unfold positive. rewrite negb_true_iff. split.
  - intros H. apply Qnot_le_lt. intros Hle. apply Qle_bool_iff in Hle. congruence.
  - intros H. destruct (Qle_bool q 0) eqn:E; [|done].
    apply Qle_bool_iff in E. exfalso. by apply (Qlt_not_le _ _ H).
Qed.

Lemma negative_spec q : negative q = true <-> q < 0.
Proof.
  unfold negative. rewrite negb_true_iff. split.
  - intros H. apply Qnot_le_lt. intros Hle. apply Qle_bool_iff in Hle. congruence.
  - intros H. destruct (Qle_bool 0 q) eqn:E; [|done].
    apply Qle_bool_iff in E. exfalso. by apply (Qlt_not_le _ _ H).
Qed.

Lemma Qabs'_pos p : ~ p == 0 -> 0 < Qabs' p.
Proof.
  intros Hp. unfold Qabs'. destruct (negative p) eqn:E.
  - apply negative_spec in E. by apply (Qopp_lt_compat p 0).
  - destruct (Qlt_le_dec 0 p) as [|Hle]; [done|].
    destruct (Qle_lt_or_eq _ _ Hle) as [Hlt|Heq]; [|done].
    apply negative_spec in Hlt. congruence.
Qed.

(** The rate has the sign of the difference. *)
Lemma rate_sign c p :
  ~ p == 0 ->
  let rate := (c - p) / Qabs' p * inject_Z 100 in
  (0 < rate <-> p < c) /\ (rate < 0 <-> c < p).
Proof.
  intros Hp rate. pose proof (Qabs'_pos p Hp) as Ha.
  assert (Hk : 0 < inject_Z 100 / Qabs' p).
  { apply Qlt_shift_div_l; [done|]. by rewrite Qmult_0_l. }
  assert (Hr : rate == (c - p) * (inject_Z 100 / Qabs' p)).
  { unfold rate. field. intros E. rewrite E in Ha. by apply Qlt_irrefl in Ha. }
  rewrite Hr. clear Hr. revert Hk. generalize (inject_Z 100 / Qabs' p).
  intros k Hk. split; split; intros H; nra.
Qed.

Lemma safe_value_Num index r metric :
  safe_value index r metric = Num (reading index r metric).
Proof.
  unfold reading, safe_value. destruct (bool_decide _); [|done].
  by destruct (amount r metric).
Qed.


End ComparatorFacts.

Section ComparatorClaims.
Import Calendar Generator Notions Numeric ComparatorFacts.

(** C6, as amended.  Without a previous row the change is shown as "-".
    With a previous row, a metric that the row lacks or that is [NaN] in it
    reads as 0; a previous reading of 0 gives "+100%" when the current
    reading is positive and "0%" otherwise; a previous reading other than 0
    gives "0%" when the current reading equals it, and otherwise
    (current - previous) / |previous| * 100 with one decimal, preceded by
    "+" when the current reading is the greater.  The four sample pairs
    give "+100%", "0%", "-50.0%" and "+50.0%". *)
Theorem change_rate_cases :
  (forall index latest prev_row metric,
     let c := reading index latest metric in
     change_rate index latest prev_row metric =
     match prev_row with
     | None => "-"
     | Some prev =>
         let p := reading index prev metric in
         if Qeq_bool p 0 then (if positive c then "+100%" else "0%")
         else if Qeq_bool c p then "0%"
         else ((if positive (c - p) then "+" else "") ++
               fixed1 ((c - p) / Qabs' p * inject_Z 100) ++ "%")%string
     end) /\
  (forall index r metric,
     reading index r metric =
     if bool_decide (metric ∈ index)
     then match amount r metric with Num q => q | NaN => 0%Q end
     else 0%Q) /\
  format_change_rate (Num 100) (Num 0) = "+100%" /\
  format_change_rate (Num 0) (Num 0) = "0%" /\
  format_change_rate (Num 50) (Num 100) = "-50.0%" /\
  format_change_rate (Num 150) (Num 100) = "+50.0%".
Proof.
  split; [|split; [|by vm_compute]].
  - intros index latest [prev|] metric c; [|done].
    unfold change_rate. rewrite !safe_value_Num. fold c.
    set (p := reading index prev metric). unfold format_change_rate.
    destruct (Qeq_bool p 0) eqn:Hp; [done|].
    apply Qeq_bool_neq in Hp.
    destruct (rate_sign c p Hp) as [Hpos Hneg].
    set (rate := ((c - p) / Qabs' p * inject_Z 100)%Q) in *.
    destruct (Qeq_bool c p) eqn:Hcp.
    + apply Qeq_bool_eq in Hcp.
      assert (H1 : positive rate = false).
      { apply not_true_is_false. rewrite positive_spec, Hpos, Hcp. apply Qlt_irrefl. }
      assert (H2 : negative rate = false).
      { apply not_true_is_false. rewrite negative_spec, Hneg, Hcp. apply Qlt_irrefl. }
      by rewrite H1, H2.
    + apply Qeq_bool_neq in Hcp.
      destruct (Q_dec c p) as [[Hlt|Hgt]|Heq]; [| |done].
      * assert (H1 : positive rate = false).
        { apply not_true_is_false. rewrite positive_spec, Hpos.
          by apply Qle_not_lt, Qlt_le_weak. }
        assert (H2 : negative rate = true) by by rewrite negative_spec, Hneg.
        assert (H3 : positive (c - p) = false).
        { apply not_true_is_false. rewrite positive_spec. lra. }
        by rewrite H1, H2, H3.
      * assert (H1 : positive rate = true) by by rewrite positive_spec, Hpos.
        assert (H3 : positive (c - p) = true) by (rewrite positive_spec; lra).
        by rewrite H1, H3.
  - intros index r metric. unfold reading, safe_value.
    destruct (bool_decide _); [|done]. by destruct (amount r metric).
Qed.

(** C6, as stated, fails: with no previous row and a positive current
    value the change is shown as "-", not as "+100%". *)
Lemma absent_previous_shows_dash :
  ~ (forall index latest prev_row metric,
       previous_missing index prev_row metric ->
       change_rate index latest prev_row metric =
       if positive (reading index latest metric) then "+100%" else "0%").
Proof.
  intros H.
  specialize (H ["FTD"] (Sample.record "Ann" "2024-07-02" [("FTD", 100%Q)]) None "FTD" I).
  vm_compute in H. discriminate.
Qed.

Variable to_datetime : string -> option date.


End ComparatorClaims.

Section ComparatorSamples.
Import Calendar Generator Notions.



End ComparatorSamples.

(** ** The dimension key builder: [process_raw_data], lines 100-106 *)

Module KeyFacts.
Import Text Generator Notions.

Lemma chars_text l : chars (text l) = l.
Proof. apply String.list_ascii_of_string_of_list_ascii. Qed.

Lemma lstrip_head l c : head (lstrip l) = Some c -> is_space c = false.
Proof.
  induction l as [|a l IH]; simpl; [done|].
  destruct (is_space a) eqn:E; [done|]. simpl. by intros [= <-].
Qed.

Lemma lstrip_snoc l c : is_space c = false -> lstrip (l ++ [c]) = lstrip l ++ [c].
Proof.
  intros Hc. induction l as [|a l IH]; simpl; [by rewrite Hc|].
  by destruct (is_space a).
Qed.

Lemma head_rev {A} (l : list A) : head (rev l) = last l.
Proof.
  induction l as [|a l IH]; simpl; [done|].
  destruct l as [|b l]; [done|]. simpl in *.
  destruct (rev l ++ [b]) eqn:E; [by destruct (rev l)|]. by simpl in *.
Qed.

Lemma last_rev {A} (l : list A) : last (rev l) = head l.
Proof. by rewrite <- head_rev, rev_involutive. Qed.

(** What [strip] returns has no white space at either end. *)
Lemma strip_trimmed l : trimmed (rev (lstrip (rev (lstrip l)))).
Proof.
  split; intros c.
  - rewrite head_rev. destruct (lstrip l) as [|a l0] eqn:E; [done|].
    assert (Ha : is_space a = false) by (apply (lstrip_head l); by rewrite E).
    simpl. rewrite lstrip_snoc by done. rewrite last_snoc. by intros [= <-].
  - rewrite last_rev. apply lstrip_head.
Qed.

Lemma starts_with_nil p : starts_with p [] = true -> p = [].
Proof. by destruct p. Qed.

Lemma starts_with_cons a p b l :
  starts_with (a :: p) (b :: l) = true -> a = b /\ starts_with p l = true.
Proof.
  simpl. destruct (Ascii.eqb a b) eqn:E; [|done].
  apply Ascii.eqb_eq in E. by intros.
Qed.

(** Replacing a literal that begins and ends with a space. *)
Section Replace.
Variables (o : ascii) (old' new : list ascii) (z : ascii).
Hypothesis old_first : is_space o = true.
Hypothesis old_last : last (o :: old') = Some z.
Hypothesis old_last_space : is_space z = true.

Abbreviation old := (o :: old').

Lemma replace_chars_head l c :
  head l = Some c -> is_space c = false ->
  head (replace_chars old new l 0) = Some c.
Proof.
  destruct l as [|a l]; [done|]. intros [= ->] Hc. simpl.
  destruct (Ascii.eqb o c) eqn:E; [|done].
  apply Ascii.eqb_eq in E. congruence.
Qed.

(** While characters of an occurrence just replaced are still to be
    dropped, they are an end [p] of [old], and the text goes on with
    them. *)
Lemma replace_chars_last l p c :
  last l = Some c -> is_space c = false ->
  p `suffix_of` old -> starts_with p l = true ->
  last (replace_chars old new l (length p)) = Some c.
Proof.
  intros Hl Hc. revert p Hl.
  induction l as [|a l IH]; intros p Hl Hp Hs; [done|].
  assert (Hrest : l = [] -> a = c) by (intros ->; simpl in Hl; congruence).
  assert (Hl' : l <> [] -> last l = Some c).
  { intros Hne. destruct l as [|b l]; [done|]. by rewrite last_cons_cons in Hl. }
  destruct p as [|x p].
  - cbn [length replace_chars]. destruct (starts_with old (a :: l)) eqn:E.
    + apply starts_with_cons in E as [-> E].
      destruct (decide (l = [])) as [->|Hne].
      { apply starts_with_nil in E. subst old'. simpl in *. congruence. }
      rewrite last_app. simpl length. simpl Nat.pred.
      rewrite (IH old'); [done|by apply Hl'| |done].
      by exists [a].
    + destruct (decide (l = [])) as [->|Hne]; [simpl in *; congruence|].
      rewrite last_cons.
      pose proof (IH [] (Hl' Hne) (suffix_nil _) eq_refl) as H.
      cbn [length] in H. by rewrite H.
  - cbn [length replace_chars].
    apply starts_with_cons in Hs as [-> Hs].
    destruct Hp as [q Hq].
    destruct (decide (l = [])) as [->|Hne].
    { apply starts_with_nil in Hs as ->.
      rewrite Hq, last_snoc in old_last. specialize (Hrest eq_refl). congruence. }
    apply IH; [by apply Hl'| |done].
    exists (q ++ [a]). by rewrite <- app_assoc.
Qed.

Lemma replace_chars_trimmed l :
  trimmed l -> trimmed (replace_chars old new l 0).
Proof.
  intros [Hh Hl]. destruct (last l) as [c|] eqn:Hc;
    [|by apply last_None in Hc as ->].
  destruct (head l) as [a|] eqn:Ha; [|by apply head_None in Ha as ->].
  split; intros c'.
  - rewrite (replace_chars_head l a); [|done|by apply Hh].
    intros [= <-]. by apply Hh.
  - pose proof (replace_chars_last l [] c Hc (Hl c eq_refl) (suffix_nil _) eq_refl) as H.
    cbn [length] in H. rewrite H. intros [= <-]. by apply Hl.
Qed.

End Replace.

(** A pattern that begins with a space matches neither end of a trimmed
    text. *)
Lemma trimmed_no_prefix l o p :
  trimmed l -> is_space o = true -> starts_with (o :: p) l = false.
Proof.
  intros [Hh _] Ho. destruct l as [|a l]; [done|]. simpl.
  destruct (Ascii.eqb o a) eqn:E; [|done].
  apply Ascii.eqb_eq in E as ->. rewrite (Hh a) in Ho; done.
Qed.

Lemma trimmed_no_suffix l o p :
  trimmed l -> is_space o = true -> starts_with (o :: p) (rev l) = false.
Proof.
  intros [_ Hl] Ho. destruct (rev l) as [|a r] eqn:Er; [done|]. simpl.
  destruct (Ascii.eqb o a) eqn:E; [|done].
  apply Ascii.eqb_eq in E as ->.
  rewrite (Hl a) in Ho; [done|]. by rewrite <- head_rev, Er.
Qed.

(** The text that lines 103-104 make of two levels is trimmed. *)
Lemma joined_trimmed s :
  trimmed (chars (replace " -  - " " - " (strip s))).
Proof.
  unfold replace, strip. cbn [chars String.list_ascii_of_string].
  fold (chars s). rewrite !chars_text.
  apply (replace_chars_trimmed _ _ _ " "%char); [done..|].
  apply strip_trimmed.
Qed.

End KeyFacts.

Section KeyClaims.
Import Text Generator Notions KeyFacts.

(** C5.  What the key builder yields.  Line 104 strips the white space
    before lines 105-106 try the patterns ['^ - '] and [' - $'], which begin
    and end with a space: for all levels the two patterns match nothing, and
    the key is the text that lines 103-104 made.  So the levels
    ("Alice", "") give the key "Alice -" and the levels ("", "Bob"), as
    ("0", "Bob"), give "- Bob", each with a dangling separator;
    ("Alice", "Bob") give "Alice - Bob". *)
Theorem dimension_key_dangling (str_of_number : Q -> string) :
  (forall director bd_name,
     dimension_key director bd_name =
     replace " -  - " " - " (strip (director ++ " - " ++ bd_name))) /\
  dimension_key (level str_of_number (Text "Alice")) (level str_of_number (Text ""))
    = "Alice -" /\
  dimension_key (level str_of_number (Text "")) (level str_of_number (Text "Bob"))
    = "- Bob" /\
  dimension_key (level str_of_number (Text "Alice")) (level str_of_number (Text "Bob"))
    = "Alice - Bob" /\
  dimension_key (level str_of_number (Text "0")) (level str_of_number (Text "Bob"))
    = "- Bob".
Proof.
  split; [|by vm_compute].
  intros director bd_name. unfold dimension_key.
  set (s := (director ++ " - " ++ bd_name)%string).
  pose proof (joined_trimmed s) as Ht.
  set (t := replace " -  - " " - " (strip s)) in *.
  assert (E1 : remove_prefix " - " t = t).
  { unfold remove_prefix. cbn [chars String.list_ascii_of_string].
    fold (chars t). by rewrite trimmed_no_prefix. }
  rewrite E1. unfold remove_suffix. cbn [chars String.list_ascii_of_string app rev].
  fold (chars t). by rewrite !trimmed_no_suffix.
Qed.

(** The keys in the frame that [process_raw_data] returns for the sample
    rows: the row of the departed member is dropped. *)
Example dimension_key_sample :
  returned_column "dimension"
    (process_raw_data Sample.to_numeric Sample.str_of_number 0%nat [Sample.key_frame])
  = Some [Text "Alice -"; Text "- Bob"; Text "Alice - Bob"].
Proof. by vm_compute. Qed.

End KeyClaims.

(** ** Ascending keys: [groupby] with its default [sort=True] *)

Module OrderFacts.
Import Frame.

Section Keys.
Context {K : Type} (cmp : K -> K -> comparison).
Hypothesis cmp_eq : forall a b, cmp a b = Eq <-> a = b.
Hypothesis cmp_antisym : forall a b, cmp a b = CompOpp (cmp b a).
Hypothesis cmp_trans : forall a b c, cmp a b = Lt -> cmp b c = Lt -> cmp a c = Lt.

Abbreviation before := (fun a b => cmp a b = Lt).

Lemma before_irrefl a : ~ before a a.
Proof. intros H. assert (E : cmp a a = Eq) by by apply cmp_eq. congruence. Qed.

Lemma elem_of_insert_asc x k l : x ∈ insert_asc cmp k l <-> x = k \/ x ∈ l.
Proof.
  induction l as [|k' l IH]; simpl.
  - rewrite list_elem_of_singleton, elem_of_nil. tauto.
  - destruct (cmp k k') eqn:E.
    + apply cmp_eq in E as ->. rewrite elem_of_cons. tauto.
    + rewrite !elem_of_cons. tauto.
    + rewrite !elem_of_cons, IH. tauto.
Qed.

Lemma insert_asc_sorted k l :
  StronglySorted before l -> StronglySorted before (insert_asc cmp k l).
Proof.
  induction 1 as [|k' l Hs IH Hk']; simpl.
  - repeat constructor.
  - destruct (cmp k k') eqn:E.
    + by constructor.
    + constructor; [by constructor|]. constructor; [done|].
      eapply Forall_impl; [exact Hk'|]. simpl. eauto.
    + constructor; [done|]. apply Forall_forall. intros x Hx.
      apply elem_of_insert_asc in Hx as [->|Hx].
      * rewrite cmp_antisym, E. done.
      * rewrite Forall_forall in Hk'. by apply Hk'.
Qed.

Lemma sorted_keys_sorted l : StronglySorted before (sorted_keys cmp l).
Proof. induction l; simpl; [constructor|]. by apply insert_asc_sorted. Qed.

Lemma elem_of_sorted_keys x l : x ∈ sorted_keys cmp l <-> x ∈ l.
Proof.
  induction l as [|k l IH]; simpl; [done|].
  by rewrite elem_of_insert_asc, elem_of_cons, IH.
Qed.

Lemma sorted_NoDup l : StronglySorted before l -> NoDup l.
Proof.
  induction 1 as [|k l Hs IH Hk]; constructor; [|done].
  intros Hin. rewrite Forall_forall in Hk. by apply (before_irrefl k), Hk.
Qed.

(** The ascending list of keys depends on the set of keys only. *)
Lemma sorted_keys_perm l l' : l ≡ₚ l' -> sorted_keys cmp l = sorted_keys cmp l'.
Proof.
  intros Hp.
  assert (Ha : AntiSymm eq (fun a b => cmp a b = Lt)).
  { intros a b Hab Hba. exfalso. apply (before_irrefl a). eauto. }
  apply (StronglySorted_unique (fun a b => cmp a b = Lt)).
  - apply sorted_keys_sorted.
  - apply sorted_keys_sorted.
  - apply NoDup_Permutation; [apply sorted_NoDup, sorted_keys_sorted..|].
    intros x. by rewrite !elem_of_sorted_keys, Hp.
Qed.

End Keys.

Section Lex.
Context {A B : Type} (ca : A -> A -> comparison) (cb : B -> B -> comparison).
Hypothesis ca_eq : forall a b, ca a b = Eq <-> a = b.
Hypothesis ca_antisym : forall a b, ca a b = CompOpp (ca b a).
Hypothesis ca_trans : forall a b c, ca a b = Lt -> ca b c = Lt -> ca a c = Lt.
Hypothesis cb_eq : forall a b, cb a b = Eq <-> a = b.
Hypothesis cb_antisym : forall a b, cb a b = CompOpp (cb b a).
Hypothesis cb_trans : forall a b c, cb a b = Lt -> cb b c = Lt -> cb a c = Lt.

Lemma lex_eq x y : lex ca cb x y = Eq <-> x = y.
Proof.
  destruct x as [a b], y as [a' b']. unfold lex. simpl.
  destruct (ca a a') eqn:E.
  - apply ca_eq in E as ->. rewrite cb_eq. split; [by intros ->|by intros [=]].
  - split; [done|]. intros [= -> ->].
    assert (ca a' a' = Eq) by by apply ca_eq. congruence.
  - split; [done|]. intros [= -> ->].
    assert (ca a' a' = Eq) by by apply ca_eq. congruence.
Qed.

Lemma lex_antisym x y : lex ca cb x y = CompOpp (lex ca cb y x).
Proof.
  destruct x as [a b], y as [a' b']. unfold lex. simpl.
  rewrite (ca_antisym a a'). destruct (ca a' a); simpl; [apply cb_antisym|done..].
Qed.

Lemma lex_trans x y z :
  lex ca cb x y = Lt -> lex ca cb y z = Lt -> lex ca cb x z = Lt.
Proof.
  destruct x as [a b], y as [a' b'], z as [a'' b'']. unfold lex. simpl.
  destruct (ca a a') eqn:E1; [|intros _|done];
    (destruct (ca a' a'') eqn:E2; [|intros _|done]).
  - apply ca_eq in E1 as ->. apply ca_eq in E2 as ->.
    assert (E : ca a'' a'' = Eq) by by apply ca_eq. rewrite E. apply cb_trans.
  - apply ca_eq in E1 as ->. by rewrite E2.
  - apply ca_eq in E2 as ->. by rewrite E1.
  - by rewrite (ca_trans _ _ _ E1 E2).
Qed.

End Lex.

(** Text compared byte by byte is a total order. *)
Lemma ascii_compare_trans a b c :
  Ascii.compare a b = Lt -> Ascii.compare b c = Lt -> Ascii.compare a c = Lt.
Proof.
  unfold Ascii.compare. rewrite !N.compare_lt_iff. lia.
Qed.

Lemma string_compare_refl s : String.compare s s = Eq.
Proof.
  pose proof (String.compare_antisym s s) as H.
  destruct (String.compare s s); simpl in H; congruence.
Qed.

Lemma string_compare_eq a b : String.compare a b = Eq <-> a = b.
Proof.
  split; [apply String.compare_eq_iff|intros ->; apply string_compare_refl].
Qed.

Lemma string_compare_trans a b c :
  String.compare a b = Lt -> String.compare b c = Lt -> String.compare a c = Lt.
Proof.
  revert b c. induction a as [|x a IH]; intros [|y b] [|z c]; simpl; try done.
  destruct (Ascii.compare x y) eqn:E1; [|intros _|done];
    (destruct (Ascii.compare y z) eqn:E2; [|intros _|done]).
  - apply Ascii.compare_eq_iff in E1 as ->. apply Ascii.compare_eq_iff in E2 as ->.
    assert (E : Ascii.compare z z = Eq).
    { pose proof (Ascii.compare_antisym z z) as H.
      destruct (Ascii.compare z z); simpl in H; congruence. }
    rewrite E. apply IH.
  - apply Ascii.compare_eq_iff in E1 as ->. by rewrite E2.
  - apply Ascii.compare_eq_iff in E2 as ->. by rewrite E1.
  - by rewrite (ascii_compare_trans _ _ _ E1 E2).
Qed.

Abbreviation key_compare := (lex String.compare String.compare).

Lemma key_compare_eq x y : key_compare x y = Eq <-> x = y.
Proof. apply lex_eq; apply string_compare_eq. Qed.

Lemma key_compare_antisym x y : key_compare x y = CompOpp (key_compare y x).
Proof. apply lex_antisym; apply String.compare_antisym. Qed.

Lemma key_compare_trans x y z :
  key_compare x y = Lt -> key_compare y z = Lt -> key_compare x z = Lt.
Proof.
  apply lex_trans;
    first [apply string_compare_eq | apply string_compare_trans].
Qed.

End OrderFacts.

(** ** The aggregator: [aggregate_data] *)

Module AggregatorFacts.
Import Generator Notions Numeric NumericFacts OrderFacts.
Local Open Scope Q_scope.

Lemma group_sum_perm col g g' : g ≡ₚ g' -> group_sum col g == group_sum col g'.
Proof.
  intros H. unfold group_sum. by apply total_perm, present_perm, Permutation_map.
Qed.

Lemma nunique_perm `{EqDecision A} (l l' : list A) : l ≡ₚ l' -> nunique l = nunique l'.
Proof.
  intros H. unfold nunique. apply Permutation_length.
  apply NoDup_Permutation; [apply NoDup_remove_dups..|].
  intros x. by rewrite !elem_of_remove_dups, H.
Qed.

Lemma convert_comp col q q' : q == q' -> convert col q = convert col q'.
Proof.
  intros H. unfold convert, astype_int, round2.
  destruct (bool_decide _).
  - by rewrite (trunc_comp _ _ H).
  - rewrite (round_half_even_comp (q * inject_Z 100) (q' * inject_Z 100)); [done|].
    by rewrite H.
Qed.

(** A result row depends on the records of its group, not on their
    order. *)
Lemma aggregated_row_perm key g g' :
  g ≡ₚ g' -> aggregated_row key g = aggregated_row key g'.
Proof.
  intros H. unfold aggregated_row. do 2 f_equal.
  rewrite !map_app, !map_map. f_equal.
  - apply map_ext. intros col. simpl. f_equal.
    by apply convert_comp, group_sum_perm.
  - simpl. f_equal; [|f_equal]; f_equal.
    + apply convert_comp. by rewrite !(group_sum_perm _ _ _ H).
    + by rewrite (nunique_perm _ _ (Permutation_map agent H)).
Qed.

Lemma aggregate_keys df :
  map (fun row => (Dimension row, Date row)) (rows (aggregate df)) =
  Frame.sorted_keys (Frame.lex String.compare String.compare)
    (map (fun r => (dimension r, stat_date r)) (records df)).
Proof.
  unfold aggregate, Frame.groupby_sorted. simpl. rewrite !map_map. simpl.
  rewrite <- (map_id (Frame.sorted_keys _ _)) at 2.
  apply map_ext. by intros [].
Qed.

Lemma aggregate_perm df df' :
  records df ≡ₚ records df' -> aggregate df = aggregate df'.
Proof.
  intros H. unfold aggregate, Frame.groupby_sorted. f_equal.
  rewrite !map_map. simpl.
  rewrite (sorted_keys_perm _ key_compare_eq key_compare_antisym key_compare_trans
             _ _ (Permutation_map (fun r => (dimension r, stat_date r)) H)).
  apply map_ext. intros key. apply aggregated_row_perm. by rewrite H.
Qed.

Lemma aggregate_data_run (st : list ProcessedFrame) r df :
  st !! r = Some df ->
  Forall (fun col => col ∈ processed_columns df) agg_columns ->
  aggregate_data r st = Some (aggregate df, st).
Proof.
  intros Hr Hc. unfold aggregate_data, Store.bind, Store.read. rewrite Hr.
  by rewrite bool_decide_eq_true_2.
Qed.

End AggregatorFacts.

Section AggregatorClaims.
Import Generator Notions OrderFacts AggregatorFacts.

(** C10.  The rows that [aggregate_data] returns are in ascending order of
    (dimension, date), each compared as text, with no key twice; and
    two frames that hold the same records in different orders give the
    same rows in the same order. *)
Theorem aggregate_sorted_whatever_the_order (st st' : list ProcessedFrame) r r' df df' :
  st !! r = Some df ->
  st' !! r' = Some df' ->
  Forall (fun col => col ∈ processed_columns df) agg_columns ->
  Forall (fun col => col ∈ processed_columns df') agg_columns ->
  records df ≡ₚ records df' ->
  exists out,
    fst <$> aggregate_data r st = Some out /\
    fst <$> aggregate_data r' st' = Some out /\
    StronglySorted key_before (map (fun row => (Dimension row, Date row)) (rows out)).
Proof.
  intros Hr Hr' Hc Hc' Hp. exists (aggregate df).
  rewrite (aggregate_data_run _ _ _ Hr Hc), (aggregate_data_run _ _ _ Hr' Hc').
  rewrite <- (aggregate_perm _ _ Hp). split; [done|]. split; [done|].
  rewrite aggregate_keys.
  apply (sorted_keys_sorted _ key_compare_eq key_compare_antisym key_compare_trans).
Qed.

End AggregatorClaims.

Section AggregatorSamples.
Import Generator Notions.

Lemma aggregate_sorted_whatever_the_order_witness :
  exists out,
    fst <$> aggregate_data 0%nat [Sample.processed] = Some out /\
    fst <$> aggregate_data 0%nat [Sample.processed_shuffled] = Some out /\
    StronglySorted key_before (map (fun row => (Dimension row, Date row)) (rows out)).
Proof.
  apply (aggregate_sorted_whatever_the_order [Sample.processed] [Sample.processed_shuffled]
           0%nat 0%nat Sample.processed Sample.processed_shuffled).
  - reflexivity.
  - reflexivity.
  - apply (bool_decide_unpack _). by vm_compute.
  - apply (bool_decide_unpack _). by vm_compute.
  - simpl. symmetry. exact (Permutation_cons_append [_; _] _).
Defined.

(** The rows of the sample: the key "Ann - Al" comes first; the two
    records of "Ann - Bob" are summed, with two distinct 总代理. *)
Example aggregate_sample :
  (fun out => map (fun row => (Dimension row, Date row,
                               values row !! "FTD", values row !! "Total Vol ($)",
                               values row !! "Activate KOL")) (rows out))
    <$> (fst <$> aggregate_data 0%nat [Sample.processed]) =
  Some [("Ann - Al", "2024-07-02", Some (Num 2), Some (Num (67 # 100)), Some (Num 1));
        ("Ann - Bob", "2024-07-02", Some (Num 5), Some (Num (133 # 100)), Some (Num 2))].
Proof. by vm_compute. Qed.

End AggregatorSamples.

(** ** What the stages do to the frame they are given *)

Module StoreFacts.
Import Store Generator.

Lemma bind_run {F A B} (m : State F A) (k : A -> State F B) st a st' :
  m st = Some (a, st') -> bind m k st = k a st'.
Proof. intros H. unfold bind. by rewrite H. Qed.

Lemma update_run {F} (st : list F) r f g :
  st !! r = Some f -> update r g st = Some (tt, <[r := g f]> st).
Proof. intros H. unfold update. by rewrite H. Qed.

Lemma read_run {F} (st : list F) r f : st !! r = Some f -> read r st = Some (f, st).
Proof. intros H. unfold read. by rewrite H. Qed.

Lemma lookup_last {F} (st : list F) f : (st ++ [f]) !! length st = Some f.
Proof. by apply list_lookup_middle. Qed.

Lemma insert_last {F} (st : list F) f g : <[length st := g]> (st ++ [f]) = st ++ [g].
Proof.
  rewrite insert_app_r_alt by lia. by rewrite Nat.sub_diag.
Qed.

(** Overwriting columns one after the other: the columns that are not
    overwritten keep their cells, and no row is added or dropped. *)
Lemma setitem_columns col f df :
  col ∈ raw_columns df -> raw_columns (setitem col f df) = raw_columns df.
Proof. intros H. unfold setitem. simpl. by rewrite bool_decide_eq_true_2. Qed.

Section Cleaning.
Variable to_numeric : string -> option Q.
Variable str_of_number : Q -> string.

Abbreviation clean := (clean_numeric_columns to_numeric str_of_number).

Lemma clean_fold cols df :
  let step := fun (df : RawFrame) col =>
    if bool_decide (col ∈ raw_columns df)
    then setitem col (fun r => clean_cell to_numeric str_of_number (raw_cell r col)) df
    else df in
  raw_columns (foldl step df cols) = raw_columns df /\
  exists h : gmap string raw -> gmap string raw,
    raw_rows (foldl step df cols) = map h (raw_rows df) /\
    forall row col, col ∉ cols -> h row !! col = row !! col.
Proof.
  intros step. revert df. induction cols as [|c cols IH]; intros df; simpl.
  - split; [done|]. exists id. split; [by rewrite map_id|done].
  - destruct (IH (step df c)) as (Hc & h & Hh & Hother).
    assert (Hs : raw_columns (step df c) = raw_columns df /\
                 exists h1 : gmap string raw -> gmap string raw,
                   raw_rows (step df c) = map h1 (raw_rows df) /\
                   forall row col, col <> c -> h1 row !! col = row !! col).
    { unfold step. destruct (bool_decide (c ∈ raw_columns df)) eqn:E.
      - apply bool_decide_eq_true in E. split; [by apply setitem_columns|].
        eexists. split; [reflexivity|]. intros row col Hne. simpl.
        by rewrite lookup_insert_ne.
      - split; [done|]. exists id. split; [by rewrite map_id|done]. }
    destruct Hs as (Hc1 & h1 & Hh1 & Hother1).
    split; [by rewrite Hc|].
    exists (fun row => h (h1 row)). split.
    + by rewrite Hh, Hh1, map_map.
    + intros row col Hcol. apply not_elem_of_cons in Hcol as [Hne Hcol].
      by rewrite Hother, Hother1.
Qed.

Lemma clean_columns df : raw_columns (clean df) = raw_columns df.
Proof. apply (clean_fold numeric_columns df). Qed.

Lemma clean_rows df :
  exists h : gmap string raw -> gmap string raw,
    raw_rows (clean df) = map h (raw_rows df) /\
    forall row col, col ∉ numeric_columns -> h row !! col = row !! col.
Proof. apply (clean_fold numeric_columns df). Qed.

Lemma fillna_columns df :
  raw_columns (fillna_empty df) = raw_columns df.
Proof.
  unfold fillna_empty.
  assert (H : forall cols d,
             Forall (fun c => c ∈ raw_columns d) cols ->
             raw_columns
               (foldl (fun d col =>
                         setitem col (fun r => match raw_cell r col with
                                               | Blank => Text ""
                                               | c => c
                                               end) d) d cols) = raw_columns d).
  { induction cols as [|c cols IH]; intros d Hd; simpl; [done|].
    apply Forall_cons in Hd as [Hc Hd].
    rewrite IH; [by apply setitem_columns|].
    by rewrite setitem_columns. }
  apply H, Forall_forall. auto.
Qed.

(** What a call of [process_raw_data] returns and leaves in the store. *)
Lemma process_raw_data_run (st : list RawFrame) r df :
  st !! r = Some df ->
  "商务总监" ∈ raw_columns df ->
  "商务BD" ∈ raw_columns df ->
  exists f1 f2 f3 f4,
    process_raw_data to_numeric str_of_number r st =
    Some (S (S (S (length st))),
          <[r := clean df]> st ++ [f1] ++ [f2] ++ [f3] ++ [f4]).
Proof.
  intros Hr H1 H2. unfold process_raw_data.
  erewrite bind_run by (by apply update_run).
  assert (Hr' : <[r := clean df]> st !! r = Some (clean df))
    by (apply list_lookup_insert_eq; by eapply lookup_lt_Some).
  erewrite bind_run by (by apply read_run).
  erewrite bind_run by reflexivity.
  set (st1 := <[r := clean df]> st).
  erewrite bind_run by (apply read_run, lookup_last).
  rewrite bool_decide_eq_true_2
    by (by rewrite fillna_columns, clean_columns).
  erewrite bind_run by (apply update_run, lookup_last). rewrite insert_last.
  erewrite bind_run by (apply update_run, lookup_last). rewrite insert_last.
  erewrite bind_run by (apply update_run, lookup_last). rewrite insert_last.
  erewrite bind_run by (apply read_run, lookup_last).
  erewrite bind_run by reflexivity.
  erewrite bind_run by (apply read_run, lookup_last).
  erewrite bind_run by reflexivity.
  erewrite bind_run by (apply read_run, lookup_last).
  erewrite bind_run by reflexivity.
  unfold ret. eexists _, _, _, _. f_equal. f_equal.
  - rewrite !length_app. simpl. unfold st1. rewrite length_insert. lia.
  - by rewrite <- !app_assoc.
Qed.

End Cleaning.

End StoreFacts.

Section StageClaims.
Import Calendar Generator Notions StoreFacts.

Variable to_numeric : string -> option Q.
Variable str_of_number : Q -> string.
Variable to_datetime : string -> option date.

(** C8, as amended.  [process_raw_data] overwrites, in the frame it is
    given, the numeric columns with their cleaned values: the frame keeps
    its columns and its rows, and the cells of all other columns; every
    other frame of the store is left as it was, and the frame returned is a
    new one.  [aggregate_data] leaves the store as it was.
    [create_table_data] adds the column [Date_dt] to the frame it is given
    and changes nothing else in it. *)
Theorem stages_and_their_input
    (st1 : list RawFrame) r1 df1 (st2 : list ProcessedFrame) r2 df2
    (st3 : list DataFrame) r3 df3 :
  st1 !! r1 = Some df1 ->
  "商务总监" ∈ raw_columns df1 ->
  "商务BD" ∈ raw_columns df1 ->
  st2 !! r2 = Some df2 ->
  Forall (fun col => col ∈ processed_columns df2) agg_columns ->
  st3 !! r3 = Some df3 ->
  (exists out st1' df1',
     process_raw_data to_numeric str_of_number r1 st1 = Some (out, st1') /\
     (length st1 <= out)%nat /\
     is_Some (st1' !! out) /\
     (forall r, r <> r1 -> (r < length st1)%nat -> st1' !! r = st1 !! r) /\
     st1' !! r1 = Some df1' /\
     df1' = clean_numeric_columns to_numeric str_of_number df1 /\
     raw_columns df1' = raw_columns df1 /\
     length (raw_rows df1') = length (raw_rows df1) /\
     (forall i row', raw_rows df1' !! i = Some row' ->
        exists row, raw_rows df1 !! i = Some row /\
                    forall col, col ∉ numeric_columns -> row' !! col = row !! col)) /\
  (exists out, aggregate_data r2 st2 = Some (out, st2)) /\
  (exists out df3',
     create_table_data to_datetime r3 st3 = Some (out, <[r3 := df3']> st3) /\
     rows df3' = rows df3 /\
     metric_columns df3' = metric_columns df3 /\
     Date_dt df3' = Some (map (fun row => to_datetime (Date row)) (rows df3))).
Proof.
  intros Hr1 Hsup Hbd Hr2 Hc2 Hr3. split; [|split].
  - destruct (process_raw_data_run to_numeric str_of_number _ _ _ Hr1 Hsup Hbd)
      as (f1 & f2 & f3 & f4 & Hrun).
    pose proof (lookup_lt_Some _ _ _ Hr1) as Hlt.
    destruct (clean_rows to_numeric str_of_number df1) as (h & Hh & Hother).
    eexists _, _, _. split; [exact Hrun|].
    split; [lia|]. split.
    { apply lookup_lt_is_Some. rewrite !length_app, length_insert. simpl. lia. }
    split.
    { intros r Hne Hr. rewrite lookup_app_l by (rewrite length_insert; lia).
      by rewrite list_lookup_insert_ne. }
    split.
    { rewrite lookup_app_l by (rewrite length_insert; lia).
      by apply list_lookup_insert_eq. }
    split; [done|]. split; [apply clean_columns|].
    split; [by rewrite Hh, length_map|].
    intros i row' Hi. rewrite Hh in Hi.
    apply list_lookup_fmap_Some in Hi as (row & -> & Hrow).
    exists row. split; [done|]. intros col Hcol. by apply Hother.
  - exists (aggregate df2). by apply AggregatorFacts.aggregate_data_run.
  - eexists _, (set_Date_dt to_datetime df3).
    split; [by apply RollupFacts.create_table_data_run|done].
Qed.

End StageClaims.

Section StageSamples.
Import Calendar Generator Notions StoreFacts.

(** C8, as stated, fails: after [process_raw_data] the frame that was
    passed holds the number 1000 where it held the text "1,000", and after
    [create_table_data] the frame that was passed has the column
    [Date_dt]. *)
Lemma stages_change_their_input :
  (exists out st',
     process_raw_data Sample.to_numeric Sample.str_of_number 0%nat [Sample.raw_frame]
       = Some (out, st') /\
     st' !! 0%nat <> Some Sample.raw_frame) /\
  (exists out st',
     create_table_data Sample.to_datetime 0%nat [Sample.bd_frame] = Some (out, st') /\
     st' !! 0%nat <> Some Sample.bd_frame).
Proof.
  split.
  - destruct (process_raw_data_run Sample.to_numeric Sample.str_of_number
                [Sample.raw_frame] 0%nat Sample.raw_frame)
      as (f1 & f2 & f3 & f4 & Hrun);
      [done|apply (bool_decide_unpack _); by vm_compute..|].
    eexists _, _. split; [exact Hrun|].
    rewrite lookup_app_l by (rewrite length_insert; cbn [length]; lia).
    rewrite list_lookup_insert_eq by (cbn [length]; lia).
    intros E.
    apply (f_equal (fmap (M := option)
             (fun f => map (fun row => raw_cell row "FTD") (raw_rows f)))) in E.
    vm_compute in E. discriminate.
  - eexists _, _. split; [by apply RollupFacts.create_table_data_run|].
    rewrite list_lookup_insert_eq by (cbn [length]; lia).
    intros E. apply (f_equal (fmap (M := option) Date_dt)) in E.
    cbn [fmap option_fmap option_map set_Date_dt Date_dt Sample.bd_frame Sample.frame] in E.
    discriminate.
Qed.

Lemma stages_and_their_input_witness :
  (exists out st1' df1',
     process_raw_data Sample.to_numeric Sample.str_of_number 0%nat [Sample.raw_frame]
       = Some (out, st1') /\
     (length [Sample.raw_frame] <= out)%nat /\
     is_Some (st1' !! out) /\
     (forall r, r <> 0%nat -> (r < length [Sample.raw_frame])%nat ->
                st1' !! r = [Sample.raw_frame] !! r) /\
     st1' !! 0%nat = Some df1' /\
     df1' = clean_numeric_columns Sample.to_numeric Sample.str_of_number Sample.raw_frame /\
     raw_columns df1' = raw_columns Sample.raw_frame /\
     length (raw_rows df1') = length (raw_rows Sample.raw_frame) /\
     (forall i row', raw_rows df1' !! i = Some row' ->
        exists row, raw_rows Sample.raw_frame !! i = Some row /\
                    forall col, col ∉ numeric_columns -> row' !! col = row !! col)) /\
  (exists out, aggregate_data 0%nat [Sample.processed] = Some (out, [Sample.processed])) /\
  (exists out df3',
     create_table_data Sample.to_datetime 0%nat [Sample.bd_frame]
       = Some (out, <[0%nat := df3']> [Sample.bd_frame]) /\
     rows df3' = rows Sample.bd_frame /\
     metric_columns df3' = metric_columns Sample.bd_frame /\
     Date_dt df3' =
     Some (map (fun row => Sample.to_datetime (Date row)) (rows Sample.bd_frame))).
Proof.
  apply (stages_and_their_input Sample.to_numeric Sample.str_of_number Sample.to_datetime
           [Sample.raw_frame] 0%nat Sample.raw_frame
           [Sample.processed] 0%nat Sample.processed
           [Sample.bd_frame] 0%nat Sample.bd_frame).
  - reflexivity.
  - apply (bool_decide_unpack _). by vm_compute.
  - apply (bool_decide_unpack _). by vm_compute.
  - reflexivity.
  - apply (bool_decide_unpack _). by vm_compute.
  - reflexivity.
Defined.

End StageSamples.

(* ================================================================== *)
(** * Further properties of the code                                    *)
(* ================================================================== *)

(** ** The shape of the tables *)

Module ShapeFacts.
Import Calendar Generator Notions FrameFacts RollupFacts TeamFacts.

Lemma formatted_row_length cols x : length (formatted_row cols x) = length cols.
Proof. unfold formatted_row. by rewrite length_map. Qed.

Lemma month_total_row_length c cols data y m :
  length (month_total_row data (c :: cols) y m) = length (c :: cols).
Proof. unfold month_total_row. simpl. by rewrite length_map. Qed.

Lemma total_row_length c cols data :
  length (total_row data (c :: cols)) = length (c :: cols).
Proof. unfold total_row. simpl. by rewrite length_map. Qed.

Lemma week_total_row_length c cols full k :
  length (week_total_row (c :: cols) full k) = length (c :: cols).
Proof. unfold week_total_row. simpl. by rewrite length_map. Qed.

Lemma month_total_length c cols row :
  month_total (c :: cols) row -> length row = length (c :: cols).
Proof. intros (y & m & data & ->). apply month_total_row_length. Qed.

Lemma days_of_nil to_datetime df :
  days_of to_datetime df = [] <->
  Forall (fun row => to_datetime (Date row) = None) (rows df).
Proof.
  unfold days_of. induction (rows df) as [|row l IH]; simpl.
  - split; [constructor|done].
  - rewrite Forall_cons. destruct (to_datetime (Date row)) eqn:E; simpl.
    + split; [done|]. by intros [? _].
    + rewrite IH. tauto.
Qed.

Lemma lookup_map {A B} (f : A -> B) (l : list A) (i : nat) :
  map f l !! i = f <$> l !! i.
Proof. apply list_lookup_fmap. Qed.

(** The table of a team report that was drawn. *)
Lemma create_supervisor_report_table to_datetime (st : list DataFrame) r df tbl :
  st !! r = Some df ->
  fst <$> create_supervisor_report to_datetime r st = Some (Some tbl) ->
  days_of to_datetime df <> [] /\ team_table_of (days_of to_datetime df) = Some tbl.
Proof.
  intros Hr Hrun.
  unfold create_supervisor_report, Store.bind, Store.update, Store.read in Hrun.
  rewrite Hr in Hrun. rewrite list_lookup_insert_eq in Hrun by by eapply lookup_lt_Some.
  rewrite dated_rows_set in Hrun.
  destruct (days_of to_datetime df) as [|x l]; [done|].
  split; [done|]. destruct (bool_decide _); [|done]. by injection Hrun.
Qed.

End ShapeFacts.

Section ShapeProperties.
Import Calendar Generator Notions FrameFacts RollupFacts TeamFacts ShapeFacts.

Variable to_datetime : string -> option date.

(** X1.  The table that [create_table_data] returns fits its column
    labels: the labels are the display columns that the frame has, in
    their order, beginning with Date; the table is not empty, and every
    row has one cell per label. *)
Theorem table_rows_fit_columns (st : list DataFrame) r df tbl cols :
  st !! r = Some df ->
  fst <$> create_table_data to_datetime r st = Some (Some (tbl, cols)) ->
  (exists rest, cols = "Date" :: rest) /\
  (forall col, col ∈ cols <-> col ∈ display_columns /\ col ∈ columns df) /\
  cols `sublist_of` display_columns /\
  tbl <> [] /\
  Forall (fun row => length row = length cols) tbl.
Proof.
  intros Hr Hrun.
  destruct (decide (days_of to_datetime df = [])) as [E|Hne].
  { rewrite (create_table_data_run _ _ _ _ Hr), E in Hrun. done. }
  destruct (create_table_data_shape to_datetime _ _ _ Hr Hne)
    as (newest & others & earlier & _ & He & Ht).
  simpl in Ht. rewrite Ht in Hrun. injection Hrun as <- <-.
  destruct (shown_columns_Date df) as (rest & Hc).
  split; [eauto|]. split.
  { intros col. unfold shown_columns. rewrite list_elem_of_filter. tauto. }
  split; [apply sublist_filter|].
  split.
  { intros E. apply (f_equal length) in E. rewrite !length_app in E. simpl in E. lia. }
  rewrite Hc in *. rewrite Forall_app, Forall_cons, Forall_app. split; [|split; [|split]].
  - apply Forall_forall. intros row Hrow.
    apply list_elem_of_fmap in Hrow as (x & -> & _). apply formatted_row_length.
  - apply month_total_row_length.
  - eapply Forall_impl; [exact He|]. intros row. apply month_total_length.
  - repeat constructor. apply total_row_length.
Qed.

(** X2.  The table of a team report is not empty and every row of it has
    twenty cells, one per column label of the report. *)
Theorem team_rows_fit_columns (st : list DataFrame) r df tbl :
  st !! r = Some df ->
  fst <$> create_supervisor_report to_datetime r st = Some (Some tbl) ->
  tbl <> [] /\ Forall (fun row => length row = 20%nat) tbl.
Proof.
  intros Hr Hrun.
  destruct (create_supervisor_report_table _ _ _ _ _ Hr Hrun) as [Hne Htbl].
  destruct (team_table_of_spec _ Hne) as (newest & others & earlier & _ & He & Ht).
  simpl in Ht. rewrite Ht in Htbl. injection Htbl as <-.
  split.
  { intros E. apply (f_equal length) in E. rewrite !length_app in E. simpl in E. lia. }
  change 20%nat with (length report_columns).
  rewrite !Forall_app. split; [|split]; [| |rewrite Forall_cons, Forall_app; split; [|split]].
  - apply Forall_forall. intros row Hrow.
    apply list_elem_of_fmap in Hrow as (x & -> & _). apply formatted_row_length.
  - apply Forall_forall. intros row Hrow.
    apply list_elem_of_fmap in Hrow as (x & -> & _). apply week_total_row_length.
  - apply month_total_row_length.
  - eapply Forall_impl; [exact He|]. intros row. apply month_total_length.
  - constructor; [apply total_row_length|constructor].
Qed.

(** X3.  [create_table_data] returns no table exactly when no row of the
    frame has a date that parses, and so does [create_supervisor_report],
    which then returns before it looks for the columns it sums. *)
Theorem no_table_iff_no_date (st : list DataFrame) r df :
  st !! r = Some df ->
  let undated := Forall (fun row => to_datetime (Date row) = None) (rows df) in
  (fst <$> create_table_data to_datetime r st = Some None <-> undated) /\
  (fst <$> create_supervisor_report to_datetime r st = Some None <-> undated).
Proof.
  intros Hr undated. unfold undated. rewrite <- days_of_nil. split.
  - rewrite (create_table_data_run _ _ _ _ Hr). simpl. split.
    + intros H. destruct (decide (days_of to_datetime df = [])) as [|Hne]; [done|].
      destruct (newest_first_nonempty _ Hne) as (n & o & Hs).
      by rewrite (table_data_of_spec _ _ _ _ Hs) in H.
    + by intros ->.
  - unfold create_supervisor_report, Store.bind, Store.update, Store.read.
    rewrite Hr. rewrite list_lookup_insert_eq by by eapply lookup_lt_Some.
    rewrite dated_rows_set. split.
    + destruct (days_of to_datetime df) as [|x l] eqn:E; [done|].
      destruct (bool_decide _); [|done]. simpl. intros H. exfalso.
      assert (Hne : x :: l <> []) by done.
      destruct (team_table_of_spec _ Hne) as (newest & others & earlier & _ & _ & Ht).
      simpl in Ht. rewrite Ht in H. done.
    + by intros ->.
Qed.

End ShapeProperties.

Section ShapeSamples.
Import Calendar Generator Notions.

Lemma table_rows_fit_columns_witness :
  (exists rest, ["Date"; "Reg"; "DAU"] = "Date" :: rest) /\
  (forall col, col ∈ ["Date"; "Reg"; "DAU"] <->
               col ∈ display_columns /\ col ∈ columns Sample.bd_frame) /\
  ["Date"; "Reg"; "DAU"] `sublist_of` display_columns /\
  Sample.bd_table <> [] /\
  Forall (fun row => length row = length ["Date"; "Reg"; "DAU"]) Sample.bd_table.
Proof.
  apply (table_rows_fit_columns Sample.to_datetime [Sample.bd_frame] 0%nat Sample.bd_frame).
  - reflexivity.
  - vm_compute. reflexivity.
Defined.

Lemma team_rows_fit_columns_witness :
  Sample.team_table <> [] /\ Forall (fun row => length row = 20%nat) Sample.team_table.
Proof.
  apply (team_rows_fit_columns Sample.to_datetime [Sample.team_frame] 0%nat
           Sample.team_frame).
  - reflexivity.
  - vm_compute. reflexivity.
Defined.

Lemma no_table_iff_no_date_witness :
  let undated :=
    Forall (fun row => Sample.to_datetime (Date row) = None) (rows Sample.bd_frame) in
  (fst <$> create_table_data Sample.to_datetime 0%nat [Sample.bd_frame] = Some None
   <-> undated) /\
  (fst <$> create_supervisor_report Sample.to_datetime 0%nat [Sample.bd_frame] = Some None
   <-> undated).
Proof.
  apply (no_table_iff_no_date Sample.to_datetime [Sample.bd_frame] 0%nat Sample.bd_frame).
  reflexivity.
Defined.

End ShapeSamples.

(** ** Sums: group by group, and rounded *)

Module SumFacts.
Import Numeric Notions NumericFacts.
Local Open Scope Q_scope.

Lemma total_present l : total (present l) == total (map or_zero l).
Proof.
  induction l as [|v l IH]; simpl; [reflexivity|].
  destruct v as [|q]; simpl.
  - fold (present l). rewrite IH. ring.
  - fold (present l). by rewrite IH.
Qed.

Lemma total_plus {A} (a b : A -> Q) l :
  total (map (fun x => a x + b x) l) == total (map a l) + total (map b l).
Proof. induction l as [|x l IH]; simpl; [ring|]. rewrite IH. ring. Qed.

Lemma total_zero {A} (l : list A) : total (map (fun _ => 0) l) == 0.
Proof. induction l as [|x l IH]; simpl; [reflexivity|]. rewrite IH. ring. Qed.

Lemma total_ext {A} (a b : A -> Q) l :
  (forall x, x ∈ l -> a x == b x) -> total (map a l) == total (map b l).
Proof.
  induction l as [|x l IH]; intros H; simpl; [reflexivity|].
  rewrite (H x) by left. rewrite IH; [reflexivity|]. intros y Hy. apply H. by right.
Qed.

Section ByKey.
Context `{EqDecision K} {A : Type} (key : A -> K) (f : A -> Q).

Lemma total_pick (k0 : K) (q : Q) (ks : list K) :
  NoDup ks -> k0 ∈ ks ->
  total (map (fun k => if decide (k0 = k) then q else 0) ks) == q.
Proof.
  induction 1 as [|k ks Hk _ IH]; intros Hin; [by apply elem_of_nil in Hin|].
  simpl. destruct (decide (k0 = k)) as [->|Hne].
  - rewrite (total_ext _ (fun _ => 0)).
    + rewrite total_zero. ring.
    + intros k' Hk'. destruct (decide (k = k')) as [->|]; [done|reflexivity].
  - apply elem_of_cons in Hin as [?|Hin]; [done|]. rewrite IH by done. ring.
Qed.

(** Summing group by group gives the sum over all rows. *)
Lemma total_by_key (ks : list K) (l : list A) :
  NoDup ks -> (forall x, x ∈ l -> key x ∈ ks) ->
  total (map (fun k => total (map f (filter (fun x => key x = k) l))) ks)
  == total (map f l).
Proof.
  intros Hnd. induction l as [|x l IH]; intros Hin; simpl.
  - apply total_zero.
  - rewrite (total_ext _ (fun k => (if decide (key x = k) then f x else 0)
                                   + total (map f (filter (fun x => key x = k) l)))).
    + rewrite total_plus, IH, total_pick; [reflexivity|done| |].
      * apply Hin. left.
      * intros y Hy. apply Hin. by right.
    + intros k _. rewrite filter_cons.
      destruct (decide (key x = k)); simpl; [reflexivity|ring].
Qed.

End ByKey.

Lemma same_number_trans a b c : same_number a b -> same_number b c -> same_number a c.
Proof.
  destruct a, b, c; simpl; try done. intros H1 H2. by rewrite H1.
Qed.

Lemma trunc_inject n : trunc (inject_Z n) = n.
Proof.
  unfold trunc. rewrite Qfloor_Z, Qceiling_Z. by destruct (Qle_bool _ _).
Qed.

Lemma whole_total l : Forall (fun q => exists n, q == inject_Z n) l ->
  exists n, total l == inject_Z n.
Proof.
  induction 1 as [|q l [n Hn] _ [m Hm]]; simpl.
  - by exists 0%Z.
  - exists (n + m)%Z. rewrite Hn, Hm, inject_Z_plus. reflexivity.
Qed.

(** Rounding to the nearest whole number moves a number by at most a
    half. *)
Lemma round_half_even_near q :
  inject_Z (round_half_even q) - q <= 1 # 2 /\ q - inject_Z (round_half_even q) <= 1 # 2.
Proof.
  unfold round_half_even.
  pose proof (Qfloor_le q) as Hlo. pose proof (Qlt_floor q) as Hhi.
  rewrite inject_Z_plus in Hhi. change (inject_Z 1) with 1 in Hhi.
  destruct (Qcompare_spec (q - inject_Z (Qfloor q)) (1 # 2)) as [He|Hl|Hg].
  - destruct (Z.even (Qfloor q)); rewrite ?inject_Z_plus;
      change (inject_Z 1) with 1; split; lra.
  - split; lra.
  - rewrite inject_Z_plus. change (inject_Z 1) with 1. split; lra.
Qed.

End SumFacts.

(** Days compared field by field are in a total order. *)
Module DateOrder.
Import Calendar OrderFacts.

Lemma date_compare_eq a b : date_compare a b = Eq <-> a = b.
Proof.
  destruct a as [y m d], b as [y' m' d']. unfold date_compare. simpl.
  destruct (Z.compare_spec y y') as [->| |]; [|split; [done|intros [=]; lia]..].
  destruct (Z.compare_spec m m') as [->| |]; [|split; [done|intros [=]; lia]..].
  destruct (Z.compare_spec d d') as [->| |]; [done|split; [done|intros [=]; lia]..].
Qed.

Lemma date_compare_antisym a b : date_compare a b = CompOpp (date_compare b a).
Proof.
  destruct a as [y m d], b as [y' m' d']. unfold date_compare. simpl.
  rewrite (Z.compare_antisym y' y), (Z.compare_antisym m' m), (Z.compare_antisym d' d).
  destruct (y' ?= y)%Z; simpl; [|done..].
  destruct (m' ?= m)%Z; simpl; done.
Qed.

Lemma date_compare_trans a b c :
  date_compare a b = Lt -> date_compare b c = Lt -> date_compare a c = Lt.
Proof.
  destruct a as [y m d], b as [y' m' d'], c as [y'' m'' d'']. unfold date_compare. simpl.
  destruct (Z.compare_spec y y'), (Z.compare_spec y' y''), (Z.compare_spec y y'');
    try lia; try done;
    destruct (Z.compare_spec m m'), (Z.compare_spec m' m''), (Z.compare_spec m m'');
    try lia; try done;
    destruct (Z.compare_spec d d'), (Z.compare_spec d' d''), (Z.compare_spec d d'');
    try lia; done.
Qed.

Abbreviation day_key_compare := (Frame.lex String.compare date_compare).

Lemma day_key_compare_eq x y : day_key_compare x y = Eq <-> x = y.
Proof. apply lex_eq; [apply string_compare_eq|apply date_compare_eq]. Qed.

Lemma day_key_compare_antisym x y : day_key_compare x y = CompOpp (day_key_compare y x).
Proof. apply lex_antisym; [apply String.compare_antisym|apply date_compare_antisym]. Qed.

Lemma day_key_compare_trans x y z :
  day_key_compare x y = Lt -> day_key_compare y z = Lt -> day_key_compare x z = Lt.
Proof.
  apply lex_trans;
    first [apply string_compare_eq | apply string_compare_trans
          | apply date_compare_eq | apply date_compare_trans].
Qed.

End DateOrder.

(** ** The daily totals of a team *)

Module TeamSums.
Import Calendar Generator Notions Numeric NumericFacts OrderFacts FrameFacts
  RollupFacts TeamFacts SumFacts DateOrder.
Local Open Scope Q_scope.

Lemma team_columns_NoDup : NoDup team_columns.
Proof. apply (bool_decide_unpack _). by vm_compute. Qed.

(** A cell of a day's total is the sum of the column over the day's rows. *)
Lemma day_total_cell (key : string * date) (g : list Day) col :
  col ∈ team_columns ->
  cell (mkDay key.2 key.1
          (list_to_map (map (fun col => (col, Numeric.sum (column col g))) team_columns)))
       col
  = Numeric.sum (column col g).
Proof.
  intros Hc. unfold cell. cbn [figures].
  erewrite elem_of_list_to_map_1; [done| |].
  - rewrite <- list_fmap_compose.
    replace (_ <$> _) with team_columns; [apply team_columns_NoDup|].
    symmetry. apply list_fmap_id.
  - apply list_elem_of_fmap. by exists col.
Qed.

(** Summing the daily totals gives the sum over all rows. *)
Lemma daily_totals_sum col (l : list Day) :
  col ∈ team_columns ->
  same_number (Numeric.sum (column col (daily_totals l))) (Numeric.sum (column col l)).
Proof.
  intros Hc. unfold daily_totals.
  eapply same_number_trans.
  { apply sum_perm, Permutation_map, sort_values_desc_perm. }
  unfold Frame.groupby_sorted. unfold column. rewrite !map_map. cbn [fst snd].
  set (ks := Frame.sorted_keys _ _).
  rewrite (map_ext _ (fun k => Numeric.sum
             (column col (filter (fun x => (label x, stamp x) = k) l)))).
  2:{ intros k. apply (day_total_cell k _ col Hc). }
  unfold Numeric.sum at 1. simpl.
  replace (present (map _ ks)) with
    (map (fun k => total (present (column col (filter (fun x => (label x, stamp x) = k) l)))) ks).
  2:{ unfold present. induction ks as [|k ks IH]; [done|]. simpl. by rewrite IH. }
  rewrite (total_ext _ (fun k => total (map (fun x => or_zero (cell x col))
                                   (filter (fun x => (label x, stamp x) = k) l)))).
  2:{ intros k _. unfold column. by rewrite total_present, map_map. }
  rewrite (total_by_key (fun x : Day => (label x, stamp x))).
  - fold (column col l). unfold column. by rewrite total_present, map_map.
  - apply (sorted_NoDup day_key_compare day_key_compare_eq),
      (sorted_keys_sorted _ day_key_compare_eq day_key_compare_antisym day_key_compare_trans).
  - intros x Hx. unfold ks. rewrite (elem_of_sorted_keys _ day_key_compare_eq).
    apply list_elem_of_fmap. by exists x.
Qed.

End TeamSums.

(** ** The rows of the aggregator *)

Module AggregateRows.
Import Generator Notions Numeric NumericFacts OrderFacts AggregatorFacts SumFacts.
Local Open Scope Q_scope.

Lemma aggregated_columns_NoDup : NoDup aggregated_columns.
Proof. apply (bool_decide_unpack _). by vm_compute. Qed.

(** The cells of a result row, column by column. *)
Lemma aggregated_row_cell key g col q :
  (col, q) ∈ map (fun col => (col, group_sum col g)) agg_columns ++
             [("总交易额", group_sum "现货交易金额" g + group_sum "合约交易金额" g);
              ("Activate KOL", inject_Z (Z.of_nat (nunique (map agent g))))] ->
  values (aggregated_row key g) !! rename col = Some (convert (rename col) q).
Proof.
  intros Hin. unfold aggregated_row. cbn [values].
  apply elem_of_list_to_map_1.
  - rewrite <- list_fmap_compose.
    replace (_ <$> _) with aggregated_columns; [apply aggregated_columns_NoDup|].
    unfold aggregated_columns. rewrite fmap_app, fmap_app.
    rewrite <- !list_fmap_compose. reflexivity.
  - apply list_elem_of_fmap. by exists (col, q).
Qed.

Lemma aggregated_row_sum key g col :
  col ∈ agg_columns ->
  figure (aggregated_row key g) (rename col) = convert (rename col) (group_sum col g).
Proof.
  intros Hc. unfold figure. rewrite (aggregated_row_cell _ _ col (group_sum col g)); [done|].
  apply elem_of_app. left. apply list_elem_of_fmap. by exists col.
Qed.

Lemma aggregated_row_total_vol key g :
  figure (aggregated_row key g) "Total Vol ($)" =
  Num (round2 (group_sum "现货交易金额" g + group_sum "合约交易金额" g)).
Proof.
  unfold figure.
  rewrite (aggregated_row_cell _ _ "总交易额"
             (group_sum "现货交易金额" g + group_sum "合约交易金额" g)); [done|].
  apply elem_of_app. right. left.
Qed.

Lemma aggregated_row_kol key g :
  figure (aggregated_row key g) "Activate KOL" =
  Num (inject_Z (Z.of_nat (nunique (map agent g)))).
Proof.
  unfold figure.
  rewrite (aggregated_row_cell _ _ "Activate KOL"
             (inject_Z (Z.of_nat (nunique (map agent g))))).
  - simpl. unfold convert. rewrite bool_decide_eq_true_2.
    + unfold astype_int. by rewrite trunc_inject.
    + apply (bool_decide_unpack _). by vm_compute.
  - apply elem_of_app. right. right. left.
Qed.

(** The rows of the result, one per key, each made of the records of its
    key. *)
Lemma elem_of_aggregate row df :
  row ∈ rows (aggregate df) <->
  exists d t, (d, t) ∈ map (fun r => (dimension r, stat_date r)) (records df) /\
    row = aggregated_row (d, t) (records_of_key df d t).
Proof.
  assert (Hg : forall d t,
             filter (fun r => (dimension r, stat_date r) = (d, t)) (records df) =
             records_of_key df d t).
  { intros d t. apply list_filter_iff. intros r.
    split; [by intros [= -> ->]|by intros [-> ->]]. }
  unfold aggregate, Frame.groupby_sorted. cbn [rows].
  rewrite list_elem_of_fmap. split.
  - intros ([key g] & -> & Hk). apply list_elem_of_fmap in Hk as ([d t] & [= -> ->] & Hk).
    exists d, t. rewrite <- Hg. split; [|done].
    by rewrite (elem_of_sorted_keys _ key_compare_eq) in Hk.
  - intros (d & t & Hk & ->). eexists ((d, t), _). rewrite <- Hg. split; [done|].
    apply list_elem_of_fmap. exists (d, t). split; [done|].
    by rewrite (elem_of_sorted_keys _ key_compare_eq).
Qed.

Lemma nunique_bounds `{EqDecision A} (l : list A) :
  l <> [] -> (1 <= nunique l <= length l)%nat.
Proof.
  intros Hne. unfold nunique. split.
  - destruct l as [|x l]; [done|].
    assert (H : x ∈ remove_dups (x :: l)) by (apply elem_of_remove_dups; left).
    destruct (remove_dups (x :: l)); [by apply elem_of_nil in H|simpl; lia].
  - apply submseteq_length, NoDup_submseteq; [apply NoDup_remove_dups|].
    intros x. by rewrite elem_of_remove_dups.
Qed.

End AggregateRows.

Section SumProperties.
Import Calendar Generator Notions Numeric NumericFacts OrderFacts FrameFacts
  RollupFacts TeamFacts AggregatorFacts ShapeFacts SumFacts DateOrder TeamSums AggregateRows.
Local Open Scope Q_scope.

Variable to_datetime : string -> option date.

(** X4.  In a team report the TOTAL row shows, for every column but DAU
    and Activate KOL, the sum of the column over all the dated rows of the
    frame: summing the daily totals of the team loses nothing. *)
Theorem team_total_sums_all_rows (st : list DataFrame) r df tbl (i : nat) col :
  st !! r = Some df ->
  fst <$> create_supervisor_report to_datetime r st = Some (Some tbl) ->
  report_columns !! i = Some col ->
  col ∉ ["Date"; "DAU"; "Activate KOL"] ->
  exists total_row,
    last tbl = Some total_row /\
    total_row !! i =
    Some (format_number (Numeric.sum (column col (days_of to_datetime df)))).
Proof.
  intros Hr Hrun Hi Hcol.
  destruct (create_supervisor_report_table _ _ _ _ _ Hr Hrun) as [Hne Ht].
  destruct (team_table_of_spec _ Hne) as (newest & others & earlier & Hd & _ & Hs).
  simpl in Hs. rewrite Hs in Ht. injection Ht as <-.
  eexists. split.
  { by rewrite !last_app, last_cons, last_app. }
  destruct i as [|i].
  { injection Hi as <-. exfalso. apply Hcol. left. }
  unfold total_row. rewrite lookup_cons.
  change (tail report_columns) with team_columns.
  change (report_columns !! S i) with (team_columns !! i) in Hi.
  rewrite lookup_map, Hi. cbn [fmap option_fmap option_map]. f_equal.
  apply format_number_comp. unfold reduce.
  rewrite bool_decide_eq_false_2.
  2:{ intros H. apply Hcol. by right. }
  rewrite <- Hd.
  eapply same_number_trans.
  { apply daily_totals_sum. by eapply list_elem_of_lookup_2. }
  apply sum_perm, Permutation_map, sort_values_desc_perm.
Qed.

(** X6.  In every row of the aggregator's result the three volumes are
    amounts in hundredths; Total Vol is rounded from the sum of the two
    unrounded volumes, not added up from the two rounded ones, and so it
    is their sum to within one hundredth. *)
Theorem total_vol_within_a_cent df :
  Forall (fun row =>
    let g := records_of_key df (Dimension row) (Date row) in
    exists spot futures total : Z,
      figure row "Spot Vol ($)" = Num (spot # 100) /\
      figure row "Futures Vol ($)" = Num (futures # 100) /\
      figure row "Total Vol ($)" = Num (total # 100) /\
      total = round_half_even
                ((group_sum "现货交易金额" g + group_sum "合约交易金额" g) * inject_Z 100) /\
      (-1 <= total - (spot + futures) <= 1)%Z)
    (rows (aggregate df)).
Proof.
  apply Forall_forall. intros row Hrow g.
  apply elem_of_aggregate in Hrow as (d & t & Hk & ->).
  cbn [Dimension Date aggregated_row] in g. fold g.
  set (s := group_sum "现货交易金额" g). set (f := group_sum "合约交易金额" g).
  exists (round_half_even (s * inject_Z 100)), (round_half_even (f * inject_Z 100)),
         (round_half_even ((s + f) * inject_Z 100)).
  split; [|split; [|split; [|split]]].
  - change "Spot Vol ($)" with (rename "现货交易金额").
    rewrite aggregated_row_sum; [done|]. apply (bool_decide_unpack _). by vm_compute.
  - change "Futures Vol ($)" with (rename "合约交易金额").
    rewrite aggregated_row_sum; [done|]. apply (bool_decide_unpack _). by vm_compute.
  - apply aggregated_row_total_vol.
  - done.
  - destruct (round_half_even_near (s * inject_Z 100)) as [H1 H2].
    destruct (round_half_even_near (f * inject_Z 100)) as [H3 H4].
    destruct (round_half_even_near ((s + f) * inject_Z 100)) as [H5 H6].
    set (S := round_half_even (s * inject_Z 100)) in *.
    set (F := round_half_even (f * inject_Z 100)) in *.
    set (T := round_half_even ((s + f) * inject_Z 100)) in *.
    change (inject_Z 100) with 100 in *.
    assert (Hu : inject_Z (T - (S + F)) < inject_Z 2).
    { unfold Z.sub. rewrite inject_Z_plus, inject_Z_opp, inject_Z_plus.
      change (inject_Z 2) with 2. lra. }
    assert (Hl : inject_Z (-2) < inject_Z (T - (S + F))).
    { unfold Z.sub. rewrite inject_Z_plus, inject_Z_opp, inject_Z_plus.
      change (inject_Z (-2)) with (-2). lra. }
    rewrite <- Zlt_Qlt in Hu, Hl. lia.
Qed.

(** X7.  In every row of the aggregator's result Activate KOL is the
    number of distinct 总代理 among the records of the row's key: a whole
    number, at least 1 and at most the number of those records.  The
    [fillna(0)] of line 153 never finds a cell to fill. *)
Theorem activate_kol_counts_agents df :
  Forall (fun row =>
    let g := records_of_key df (Dimension row) (Date row) in
    exists n : nat,
      figure row "Activate KOL" = Num (inject_Z (Z.of_nat n)) /\
      n = nunique (map agent g) /\
      (1 <= n <= length g)%nat)
    (rows (aggregate df)).
Proof.
  apply Forall_forall. intros row Hrow g.
  apply elem_of_aggregate in Hrow as (d & t & Hk & ->).
  cbn [Dimension Date aggregated_row] in g. fold g.
  exists (nunique (map agent g)).
  split; [apply aggregated_row_kol|]. split; [done|].
  rewrite <- (length_map agent g). apply nunique_bounds.
  apply list_elem_of_fmap in Hk as (r & Hr & Hin).
  assert (Hrg : r ∈ g).
  { apply list_elem_of_filter. by injection Hr as <- <-. }
  intros E. apply map_eq_nil in E. rewrite E in Hrg. by apply elem_of_nil in Hrg.
Qed.

(** X8.  The aggregator's result has exactly one row for each pair of
    dimension and date that occurs among the records, and no other row. *)
Theorem aggregate_one_row_per_key df :
  NoDup (map (fun row => (Dimension row, Date row)) (rows (aggregate df))) /\
  forall d t,
    (d, t) ∈ map (fun row => (Dimension row, Date row)) (rows (aggregate df)) <->
    exists r, r ∈ records df /\ dimension r = d /\ stat_date r = t.
Proof.
  rewrite aggregate_keys. split.
  - apply (sorted_NoDup key_compare key_compare_eq),
      (sorted_keys_sorted _ key_compare_eq key_compare_antisym key_compare_trans).
  - intros d t. rewrite (elem_of_sorted_keys _ key_compare_eq), list_elem_of_fmap.
    split.
    + intros (r & [= -> ->] & Hr). eauto.
    + intros (r & Hr & <- & <-). eauto.
Qed.

End SumProperties.

Section SumSamples.
Import Calendar Generator Notions Numeric.
Local Open Scope Q_scope.

Lemma team_total_sums_all_rows_witness :
  exists total_row,
    last Sample.team_table = Some total_row /\
    total_row !! 1%nat =
    Some (format_number
            (Numeric.sum (column "Reg" (days_of Sample.to_datetime Sample.team_frame)))).
Proof.
  apply (team_total_sums_all_rows Sample.to_datetime [Sample.team_frame] 0%nat
           Sample.team_frame Sample.team_table 1%nat "Reg").
  - reflexivity.
  - vm_compute. reflexivity.
  - reflexivity.
  - apply (bool_decide_unpack _). by vm_compute.
Defined.

End SumSamples.

(** ** Numbers as they are shown *)

Module FormatFacts.
Import Text Numeric Generator LabelFacts KeyFacts SumFacts.

Abbreviation comma := (","%char).
Abbreviation not_comma := (fun c : ascii => c <> comma).

Lemma text_chars s : text (chars s) = s.
Proof. apply String.string_of_list_ascii_of_string. Qed.

(** Replacing every comma by nothing drops the commas. *)
Lemma replace_comma l : replace_chars [comma] [] l 0 = filter not_comma l.
Proof.
  induction l as [|c l IH]; [done|].
  cbn [replace_chars starts_with]. rewrite filter_cons.
  destruct (Ascii.eqb_spec comma c) as [<-|Hne].
  - rewrite decide_False by (intros H; by apply H). simpl. exact IH.
  - rewrite decide_True by (intros ->; by apply Hne). by rewrite IH.
Qed.

Lemma replace_comma_text s : replace "," "" s = text (filter not_comma (chars s)).
Proof. unfold replace. cbn [chars String.list_ascii_of_string]. by rewrite replace_comma. Qed.

Lemma filter_rev {A} (P : A -> Prop) `{!forall x, Decision (P x)} (l : list A) :
  filter P (rev l) = rev (filter P l).
Proof.
  induction l as [|x l IH]; [done|]. simpl.
  rewrite filter_app, IH, filter_cons. destruct (decide (P x)); simpl.
  - by rewrite filter_cons, decide_True, filter_nil by done.
  - by rewrite filter_cons, decide_False, filter_nil, app_nil_r by done.
Qed.

(** The separators are all that grouping adds. *)
Lemma filter_group3 r k : Forall not_comma r -> filter not_comma (group3 r k) = r.
Proof.
  intros H. revert k. induction H as [|c r Hc _ IH]; intros k; [done|].
  cbn [group3].
  destruct k as [|[|[|[|k]]]];
    rewrite ?(filter_cons _ comma), ?decide_False by (intros E; by apply E);
    by rewrite filter_cons, decide_True, IH by done.
Qed.

(** The digits of a number hold no comma. *)
Lemma digits_no_comma d : Forall not_comma (chars (NilEmpty.string_of_uint d)).
Proof.
  unfold chars. induction d; simpl; constructor; try discriminate; assumption.
Qed.

Lemma uint_no_comma d : Forall not_comma (chars (NilZero.string_of_uint d)).
Proof.
  destruct d; try apply (digits_no_comma (_ d)).
  repeat constructor. discriminate.
Qed.

Lemma str_of_Z_no_comma n : Forall not_comma (chars (str_of_Z n)).
Proof.
  unfold str_of_Z. destruct n as [|p|p]; cbn [Z.to_int NilZero.string_of_int].
  - repeat constructor; discriminate.
  - apply uint_no_comma.
  - constructor; [discriminate|apply uint_no_comma].
Qed.

Lemma str_of_Z_neg p : str_of_Z (Z.neg p) = ("-" ++ str_of_Z (Z.pos p))%string.
Proof. reflexivity. Qed.

Lemma thousands_digits n : filter not_comma (chars (thousands n)) = chars (str_of_Z (Z.abs n)).
Proof.
  unfold thousands. rewrite chars_text, filter_rev, filter_group3, rev_involutive; [done|].
  apply Forall_rev, str_of_Z_no_comma.
Qed.

Lemma round_half_even_inject n : round_half_even (inject_Z n) = n.
Proof.
  unfold round_half_even. rewrite Qfloor_Z.
  replace (Qcompare _ _) with Lt; [done|]. symmetry.
  apply Qlt_alt.
  assert (E : (inject_Z n - inject_Z n == 0)%Q) by ring.
  rewrite E. reflexivity.
Qed.

Lemma Qle_bool_inject a b : Qle_bool (inject_Z a) (inject_Z b) = (a <=? b)%Z.
Proof. unfold Qle_bool. simpl. by rewrite !Z.mul_1_r. Qed.

Lemma Qeq_bool_inject a b : Qeq_bool (inject_Z a) (inject_Z b) = bool_decide (a = b).
Proof.
  destruct (decide (a = b)) as [->|Hne].
  - rewrite bool_decide_eq_true_2 by done. apply Qeq_bool_iff. reflexivity.
  - rewrite bool_decide_eq_false_2 by done. apply not_true_is_false.
    rewrite Qeq_bool_iff, inject_Z_injective. done.
Qed.

Lemma negative_inject n : negative (inject_Z n) = (n <? 0)%Z.
Proof.
  unfold negative. change 0%Q with (inject_Z 0). rewrite Qle_bool_inject.
  destruct (Z.leb_spec 0 n), (Z.ltb_spec n 0); (done || lia).
Qed.

Lemma Qabs'_inject n : Qabs' (inject_Z n) = inject_Z (Z.abs n).
Proof.
  unfold Qabs'. rewrite negative_inject.
  destruct (Z.ltb_spec n 0).
  - rewrite Z.abs_neq by lia. reflexivity.
  - by rewrite Z.abs_eq by lia.
Qed.

(** What is shown for a whole number. *)
Lemma format_number_inject n :
  format_number (Num (inject_Z n)) =
  if bool_decide (n = 0%Z) then "0"
  else if (1000 <=? Z.abs n)%Z
       then ((if (n <? 0)%Z then "-" else "") ++ thousands n)%string
       else str_of_Z n.
Proof.
  unfold format_number. change 0%Q with (inject_Z 0).
  rewrite Qeq_bool_inject, Qabs'_inject, !Qle_bool_inject.
  destruct (bool_decide (n = 0%Z)); [done|].
  unfold fixed0. rewrite negative_inject, round_half_even_inject, trunc_inject.
  rewrite Qeq_bool_inject, bool_decide_eq_true_2 by done.
  destruct (Z.leb_spec 1000000 (Z.abs n)), (Z.leb_spec 1000 (Z.abs n)); (done || lia).
Qed.

End FormatFacts.

Section FormatProperties.
Import Text Numeric Generator LabelFacts KeyFacts SumFacts FormatFacts.

(** X9.  What [format_number] shows for a whole number reads back: for a
    whole number of at most 2^53 in size (the whole numbers that a cell,
    a float64, holds one by one), taking the thousands separators out of
    what is shown, as the cleaning of line 94 does, gives the number's
    decimal digits, with its sign. *)
Theorem shown_whole_number_reads_back (n : Z) :
  (Z.abs n <= 2 ^ 53)%Z ->
  replace "," "" (format_number (Num (inject_Z n))) = str_of_Z n.
Proof.
  intros _.
  rewrite format_number_inject, replace_comma_text.
  destruct (bool_decide (n = 0%Z)) eqn:E0.
  { apply bool_decide_eq_true in E0 as ->. reflexivity. }
  destruct (1000 <=? Z.abs n)%Z.
  - rewrite chars_app, filter_app, thousands_digits.
    assert (Hsign : forall sign : bool,
              filter not_comma (chars (if sign then "-" else "")) =
              chars (if sign then "-" else "")) by by intros [].
    rewrite Hsign, <- chars_app, text_chars.
    by destruct n as [|p|p].
  - rewrite (FrameFacts.filter_all _ _ (str_of_Z_no_comma n)). apply text_chars.
Qed.

Lemma shown_whole_number_reads_back_witness :
  replace "," "" (format_number (Num (inject_Z (-1234567)))) = str_of_Z (-1234567).
Proof.
  apply (shown_whole_number_reads_back (-1234567)). by vm_compute.
Defined.

End FormatProperties.

(** ** Counts within the range of the cells *)

Module SizeFacts.
Import Numeric Generator Notions NumericFacts ComparatorFacts SumFacts.
Local Open Scope Q_scope.

Lemma Qabs'_nonneg x : 0 <= Qabs' x.
Proof.
  unfold Qabs'. destruct (negative x) eqn:E.
  - apply negative_spec in E. lra.
  - apply not_true_iff_false in E. rewrite negative_spec in E. lra.
Qed.

Lemma Qabs'_triangle x y : Qabs' (x + y) <= Qabs' x + Qabs' y.
Proof.
  unfold Qabs'.
  destruct (negative (x + y)) eqn:E, (negative x) eqn:Ex, (negative y) eqn:Ey;
    try apply negative_spec in E; try apply negative_spec in Ex;
    try apply negative_spec in Ey;
    try (apply not_true_iff_false in E; rewrite negative_spec in E);
    try (apply not_true_iff_false in Ex; rewrite negative_spec in Ex);
    try (apply not_true_iff_false in Ey; rewrite negative_spec in Ey);
    lra.
Qed.

Lemma Qabs'_total {A} (f : A -> Q) l :
  Qabs' (total (map f l)) <= total (map (fun x => Qabs' (f x)) l).
Proof.
  induction l as [|x l IH]; simpl.
  - unfold Qabs'. by destruct (negative 0).
  - eapply Qle_trans; [apply Qabs'_triangle|]. lra.
Qed.

Lemma total_filter_le {A} (h : A -> Q) (P : A -> Prop) `{!forall x, Decision (P x)} l :
  (forall x, 0 <= h x) -> total (map h (filter P l)) <= total (map h l).
Proof.
  intros Hh. induction l as [|x l IH]; simpl; [lra|].
  rewrite filter_cons. destruct (decide (P x)); simpl.
  - lra.
  - specialize (Hh x). lra.
Qed.

(** The sum of a group is no larger than the size of the column. *)
Lemma group_sum_size col (P : Processed -> Prop) `{!forall x, Decision (P x)} l :
  Qabs' (group_sum col (filter P l)) <= size col l.
Proof.
  unfold group_sum, size.
  rewrite (Qabs'_comp _ _ (total_present _)), map_map.
  eapply Qle_trans; [apply Qabs'_total|].
  apply (total_filter_le (fun r => Qabs' (or_zero (amount r col)))).
  intros r. apply Qabs'_nonneg.
Qed.

End SizeFacts.

Section SizeProperties.
Import Numeric Generator Notions NumericFacts OrderFacts FrameFacts SumFacts
       AggregateRows FormatFacts SizeFacts.
Local Open Scope Q_scope.

(** X5.  The aggregator keeps the totals of the counts.  Take a summed
    column that is turned into whole numbers (注册用户, FTD, FTT, 交易人数,
    EFTTC), that holds whole numbers, and whose size (the sum of the
    absolute values of its amounts) is at most 2^53, so that every sum
    of its amounts is held exactly by a float64 and lies within int64.
    Then every cell of the column of the result is a whole number of at
    most 2^53 in size, and the column of the result adds up to what the
    column of the input adds up to. *)
Theorem aggregate_conserves_counts df col :
  col ∈ agg_columns ->
  rename col ∈ int_columns ->
  Forall (fun r => whole (amount r col)) (records df) ->
  size col (records df) <= inject_Z (2 ^ 53) ->
  Forall (fun row => exists n : Z,
            figure row (rename col) = Num (inject_Z n) /\ (Z.abs n <= 2 ^ 53)%Z)
         (rows (aggregate df)) /\
  total (present (map (fun row => figure row (rename col)) (rows (aggregate df))))
  == total (present (map (fun r => amount r col) (records df))).
Proof.
  intros Hc Hint Hwhole Hsize.
  assert (Hgroup : forall (P : Processed -> Prop) `{!forall x, Decision (P x)},
            exists n, group_sum col (filter P (records df)) == inject_Z n).
  { intros P HP. apply whole_total. apply Forall_forall. intros q Hq.
    apply list_elem_of_omap in Hq as (v & Hv & Hq).
    apply list_elem_of_fmap in Hv as (r & -> & Hr).
    apply list_elem_of_filter in Hr as [_ Hr].
    rewrite Forall_forall in Hwhole. specialize (Hwhole r Hr).
    destruct (amount r col); [done|]. by injection Hq as <-. }
  split.
  - apply Forall_forall. intros row Hrow.
    apply elem_of_aggregate in Hrow as (d & t & _ & ->).
    rewrite aggregated_row_sum by done. unfold convert.
    rewrite bool_decide_eq_true_2 by done. unfold astype_int, records_of_key.
    destruct (Hgroup (fun r => dimension r = d /\ stat_date r = t) _) as [n Hn].
    exists (trunc (group_sum col (filter (fun r => dimension r = d /\ stat_date r = t)
                                        (records df)))).
    split; [done|]. rewrite (trunc_comp _ _ Hn), trunc_inject.
    pose proof (group_sum_size col (fun r => dimension r = d /\ stat_date r = t)
                  (records df)) as Hle.
    rewrite (Qabs'_comp _ _ Hn), Qabs'_inject in Hle.
    rewrite Zle_Qle. by eapply Qle_trans.
  - unfold aggregate, Frame.groupby_sorted. cbn [rows]. rewrite !map_map. cbn [fst snd].
    set (ks := Frame.sorted_keys _ _).
    set (l := records df) in *.
    rewrite (map_ext _ (fun k => Num (astype_int
               (group_sum col (filter (fun r => (dimension r, stat_date r) = k) l))))).
    2:{ intros k. rewrite aggregated_row_sum by done. unfold convert.
        by rewrite bool_decide_eq_true_2. }
    replace (present (map _ ks)) with
      (map (fun k => astype_int
              (group_sum col (filter (fun r => (dimension r, stat_date r) = k) l))) ks).
    2:{ unfold present. induction ks as [|k ks IH]; [done|]. simpl. by rewrite IH. }
    rewrite (total_ext _ (fun k => total (map (fun r => or_zero (amount r col))
                                     (filter (fun r => (dimension r, stat_date r) = k) l)))).
    2:{ intros k _.
        destruct (Hgroup (fun r => (dimension r, stat_date r) = k) _) as [n Hn].
        unfold astype_int. rewrite (trunc_comp _ _ Hn), trunc_inject, <- Hn.
        unfold group_sum. by rewrite total_present, map_map. }
    rewrite (total_by_key (fun r : Processed => (dimension r, stat_date r))).
    + by rewrite total_present, map_map.
    + apply (sorted_NoDup key_compare key_compare_eq),
        (sorted_keys_sorted _ key_compare_eq key_compare_antisym key_compare_trans).
    + intros x Hx. unfold ks. rewrite (elem_of_sorted_keys _ key_compare_eq).
      apply list_elem_of_fmap. by exists x.
Qed.

End SizeProperties.

Section SizeSamples.
Import Numeric Generator Notions.
Local Open Scope Q_scope.

Lemma aggregate_conserves_counts_witness :
  Forall (fun row => exists n : Z,
            figure row (rename "FTD") = Num (inject_Z n) /\ (Z.abs n <= 2 ^ 53)%Z)
         (rows (aggregate Sample.processed)) /\
  total (present (map (fun row => figure row (rename "FTD"))
                      (rows (aggregate Sample.processed))))
  == total (present (map (fun r => amount r "FTD") (records Sample.processed))).
Proof.
  apply (aggregate_conserves_counts Sample.processed "FTD").
  - apply (bool_decide_unpack _). by vm_compute.
  - apply (bool_decide_unpack _). by vm_compute.
  - repeat constructor.
    + change (whole (Num 1)). by exists 1%Z.
    + change (whole (Num 2)). by exists 2%Z.
    + change (whole (Num 4)). by exists 4%Z.
  - by vm_compute.
Defined.

End SizeSamples.

Module ComparisonFacts.
Import Calendar Generator Notions FrameFacts.

Lemma insert_ranked_perm {A} (key : A -> number) x l : insert_ranked key x l ≡ₚ x :: l.
Proof.
  induction l as [|y l IH]; simpl; [done|].
  destruct (number_ltb _ _); [|done]. rewrite IH. apply Permutation_swap.
Qed.

Lemma ranked_perm {A} (key : A -> number) l : ranked key l ≡ₚ l.
Proof.
  induction l as [|x l IH]; simpl; [done|]. by rewrite insert_ranked_perm, IH.
Qed.

Lemma dated_records_set to_datetime df :
  dated_records (set_stat_date_dt to_datetime df) = dated_of to_datetime df.
Proof.
  unfold dated_records, dated_of. simpl.
  induction (records df) as [|r rs IH]; [done|].
  simpl. destruct (to_datetime (stat_date r)); simpl; [f_equal|]; exact IH.
Qed.

Lemma elem_of_dated_of to_datetime df d r :
  (d, r) ∈ dated_of to_datetime df <-> r ∈ records df /\ to_datetime (stat_date r) = Some d.
Proof.
  unfold dated_of. rewrite list_elem_of_omap. split.
  - intros (r' & Hr & H). destruct (to_datetime (stat_date r')) eqn:E; [|done].
    injection H as <- <-. done.
  - intros [Hr E]. exists r. by rewrite E.
Qed.

Lemma create_supervisors_daily_report_run to_datetime (st : list ProcessedFrame) r df days :
  st !! r = Some df ->
  create_supervisors_daily_report to_datetime r days st =
  Some (comparison_of (processed_columns (set_stat_date_dt to_datetime df)) days
                      (dated_of to_datetime df),
        <[r := set_stat_date_dt to_datetime df]> st).
Proof.
  intros Hr. unfold create_supervisors_daily_report, Store.bind, Store.update, Store.read,
    Store.ret.
  rewrite Hr. rewrite list_lookup_insert_eq by by eapply lookup_lt_Some.
  by rewrite dated_records_set.
Qed.

(** The first row of rows in descending order has the greatest key. *)
Lemma descending_head {A} (key : A -> Z) x l :
  descending key (x :: l) -> Forall (fun y => (key y <= key x)%Z) (x :: l).
Proof.
  intros H. apply StronglySorted_inv in H as [_ H]. constructor; [lia|done].
Qed.

End ComparisonFacts.

Section ComparisonProperties.
Import Calendar Generator Notions FrameFacts ComparisonFacts.
Variable to_datetime : string -> option date.

(** X10.  The comparison of supervisors ([create_supervisors_daily_report])
    has one row for each supervisor: when it returns a table, some record
    of the frame has the newest date that parses; every row has twelve
    cells (the supervisor and the eleven metrics); no supervisor is shown
    twice; and the supervisors shown are exactly those with a record dated
    within [days] days of the newest date. *)
Theorem comparison_one_row_per_supervisor (st : list ProcessedFrame) r df days tbl :
  st !! r = Some df ->
  fst <$> create_supervisors_daily_report to_datetime r days st = Some (Some tbl) ->
  exists latest : Z,
    (exists rec d, rec ∈ records df /\ to_datetime (stat_date rec) = Some d /\
                   ordinal d = latest) /\
    (forall rec d, rec ∈ records df -> to_datetime (stat_date rec) = Some d ->
                   (ordinal d <= latest)%Z) /\
    Forall (fun row => length row = 12%nat) tbl /\
    NoDup (map row_label tbl) /\
    forall s, Some s ∈ map row_label tbl <->
      exists rec d, rec ∈ records df /\ to_datetime (stat_date rec) = Some d /\
                    supervisor rec = s /\ (latest - days <= ordinal d)%Z.
Proof.
  intros Hr Hrun. rewrite (create_supervisors_daily_report_run _ _ _ _ _ Hr) in Hrun.
  cbn [fmap option_fmap option_map fst] in Hrun. injection Hrun as Hrun.
  unfold comparison_of in Hrun.
  set (key := fun x : date * Processed => ordinal x.1) in *.
  pose proof (sort_values_desc_sorted key (dated_of to_datetime df)) as Hsorted.
  pose proof (sort_values_desc_perm key (dated_of to_datetime df)) as Hperm.
  destruct (Frame.sort_values_desc key (dated_of to_datetime df)) as [|newest rest] eqn:Hdata;
    [done|].
  injection Hrun as <-.
  apply descending_head in Hsorted. rewrite Forall_forall in Hsorted.
  set (recent := filter _ (newest :: rest)).
  set (supervisors := Frame.unique _).
  set (items := map _ supervisors).
  set (index := processed_columns _).
  set (sorted := ranked _ items).
  assert (Hitems : Forall (fun item : string * list (date * Processed) =>
                             item.2 <> []) items).
  { apply Forall_forall. intros item Hitem.
    apply list_elem_of_fmap in Hitem as (s & -> & Hs). simpl.
    apply elem_of_unique, list_elem_of_fmap in Hs as (x & -> & Hx).
    intros E. apply sort_values_desc_nil in E.
    assert (Hin : x ∈ filter (fun y : date * Processed => supervisor y.2 = supervisor x.2) recent)
      by by apply list_elem_of_filter.
    rewrite E in Hin. by apply elem_of_nil in Hin. }
  assert (Hsorted_items : Forall (fun item : string * list (date * Processed) =>
                             item.2 <> []) sorted).
  { apply Forall_forall. intros item Hitem. rewrite Forall_forall in Hitems.
    apply Hitems. unfold sorted in Hitem. by rewrite ranked_perm in Hitem. }
  assert (Hrows : omap (data_row index) sorted =
                  map (fun item => item.1 :: map (combined_text index (default newest (head item.2)).2
                                      (snd <$> head (tail item.2))) key_metrics) sorted).
  { clear -Hsorted_items. induction Hsorted_items as [|[s rows] l Hne _ IH]; [done|].
    simpl in *. destruct rows as [|latest more]; [done|]. unfold data_row at 1. simpl.
    f_equal. exact IH. }
  rewrite Hrows. clear Hrows.
  assert (Hlabels : map row_label
            (map (fun item : string * list (date * Processed) =>
                    item.1 :: map (combined_text index (default newest (head item.2)).2
                                     (snd <$> head (tail item.2))) key_metrics) sorted)
          = map Some (map fst sorted)).
  { rewrite !map_map. done. }
  assert (Hkeys : map fst sorted ≡ₚ supervisors).
  { unfold sorted. rewrite ranked_perm. unfold items. rewrite map_map. simpl.
    by rewrite map_id. }
  exists (ordinal newest.1). split; [|split; [|split; [|split]]].
  - destruct newest as [d rec]. exists rec, d.
    assert (Hin : (d, rec) ∈ dated_of to_datetime df).
    { rewrite <- Hperm. left. }
    apply elem_of_dated_of in Hin as [? ?]. done.
  - intros rec d Hrec Hd.
    assert (Hin : (d, rec) ∈ newest :: rest).
    { rewrite Hperm. by apply elem_of_dated_of. }
    apply (Hsorted _ Hin).
  - apply Forall_forall. intros row Hrow.
    apply list_elem_of_fmap in Hrow as (item & -> & _). reflexivity.
  - rewrite Hlabels. apply NoDup_fmap; [by intros ?? [=]|].
    rewrite Hkeys. apply unique_NoDup.
  - intros s. rewrite Hlabels.
    rewrite list_elem_of_fmap. split.
    + intros (s' & [= <-] & Hs). rewrite Hkeys in Hs.
      apply elem_of_unique, list_elem_of_fmap in Hs as ([d rec] & -> & Hx).
      apply list_elem_of_filter in Hx as [Hcut Hx]. simpl in Hcut.
      rewrite Hperm in Hx. apply elem_of_dated_of in Hx as [? ?].
      exists rec, d. done.
    + intros (rec & d & Hrec & Hd & <- & Hcut).
      exists (supervisor rec). split; [done|]. rewrite Hkeys.
      apply elem_of_unique, list_elem_of_fmap. exists (d, rec). split; [done|].
      apply list_elem_of_filter. split; [done|].
      rewrite Hperm. by apply elem_of_dated_of.
Qed.

End ComparisonProperties.

Section ComparisonSamples.
Import Calendar Generator Notions.

Lemma comparison_one_row_per_supervisor_witness :
  exists latest : Z,
    (exists rec d, rec ∈ records Sample.ledger /\
                   Sample.to_datetime (stat_date rec) = Some d /\ ordinal d = latest) /\
    (forall rec d, rec ∈ records Sample.ledger ->
                   Sample.to_datetime (stat_date rec) = Some d -> (ordinal d <= latest)%Z) /\
    Forall (fun row => length row = 12%nat) Sample.comparison_table /\
    NoDup (map row_label Sample.comparison_table) /\
    forall s, Some s ∈ map row_label Sample.comparison_table <->
      exists rec d, rec ∈ records Sample.ledger /\
                    Sample.to_datetime (stat_date rec) = Some d /\
                    supervisor rec = s /\ (latest - 1 <= ordinal d)%Z.
Proof.
  apply (comparison_one_row_per_supervisor Sample.to_datetime [Sample.ledger] 0%nat
           Sample.ledger 1 Sample.comparison_table).
  - reflexivity.
  - by vm_compute.
Defined.

End ComparisonSamples.

Module GroupFacts.
Import Generator Reports Notions FrameFacts.

Section Dict.
Context {V : Type}.
Implicit Types (groups : list (string * list V)) (key : string) (v : V).

Lemma setdefault_append_keys groups key v :
  map fst (setdefault_append groups key v) =
  if decide (key ∈ map fst groups) then map fst groups else map fst groups ++ [key].
Proof.
  induction groups as [|[k vs] groups IH]; simpl.
  - destruct (decide (key ∈ [])) as [H|_]; [by apply elem_of_nil in H|done].
  - destruct (decide (k = key)) as [->|Hne].
    + rewrite bool_decide_eq_true_2 by done. simpl.
      rewrite decide_True; [done|left].
    + rewrite bool_decide_eq_false_2 by done. simpl. rewrite IH.
      destruct (decide (key ∈ map fst groups)) as [Hin|Hnin].
      * rewrite decide_True; [done|by right].
      * rewrite decide_False; [done|].
        intros [->|H]%elem_of_cons; done.
Qed.

Lemma setdefault_append_NoDup groups key v :
  NoDup (map fst groups) -> NoDup (map fst (setdefault_append groups key v)).
Proof.
  intros H. rewrite setdefault_append_keys.
  destruct (decide (key ∈ map fst groups)); [done|].
  apply NoDup_app. split; [done|]. split; [|apply NoDup_singleton].
  intros x Hx ->%list_elem_of_singleton. done.
Qed.

Lemma setdefault_append_values groups key v :
  concat (map snd (setdefault_append groups key v)) ≡ₚ v :: concat (map snd groups).
Proof.
  induction groups as [|[k vs] groups IH]; simpl; [done|].
  destruct (bool_decide (k = key)); simpl.
  - rewrite <- app_assoc. simpl. by rewrite <- Permutation_middle.
  - rewrite IH. by rewrite <- Permutation_middle.
Qed.

Lemma setdefault_append_Forall (P : string -> V -> Prop) groups key v :
  P key v ->
  Forall (fun g => g.2 <> [] /\ Forall (P g.1) g.2) groups ->
  Forall (fun g => g.2 <> [] /\ Forall (P g.1) g.2) (setdefault_append groups key v).
Proof.
  intros Hv. induction 1 as [|[k vs] groups [Hne Hk] Hrest IH]; simpl.
  - constructor; [|constructor]. simpl. split; [done|]. by repeat constructor.
  - destruct (decide (k = key)) as [->|Hkey].
    + rewrite bool_decide_eq_true_2 by done. constructor; [|done]. simpl in *. split.
      * by destruct vs.
      * apply Forall_app. split; [done|by repeat constructor].
    + rewrite bool_decide_eq_false_2 by done. by constructor.
Qed.

End Dict.

End GroupFacts.

Section GroupProperties.
Import Generator Reports Notions FrameFacts GroupFacts.

(** X11.  [group_by_supervisor] files every dimension of the frame under
    exactly one supervisor: no supervisor has two groups; the groups
    together hold each distinct dimension once and nothing else; no group
    is empty; and each dimension is in the group of the supervisor that
    its text names before the first separator (or in Other). *)
Theorem supervisor_groups_partition (result_df : DataFrame) :
  let supervisor_groups := group_by_supervisor result_df in
  NoDup (map fst supervisor_groups) /\
  concat (map snd supervisor_groups) ≡ₚ Frame.unique (map Dimension (rows result_df)) /\
  Forall (fun g => g.2 <> [] /\ Forall (fun dimension => supervisor_of dimension = g.1) g.2)
         supervisor_groups.
Proof.
  unfold group_by_supervisor.
  set (dimensions := Frame.unique _).
  set (step := fun (groups : list (string * list string)) dimension =>
                 setdefault_append groups (supervisor_of dimension) dimension).
  assert (H : forall l groups,
             NoDup (map fst groups) ->
             Forall (fun g => g.2 <> [] /\
                       Forall (fun dimension => supervisor_of dimension = g.1) g.2) groups ->
             NoDup (map fst (foldl step groups l)) /\
             concat (map snd (foldl step groups l)) ≡ₚ concat (map snd groups) ++ l /\
             Forall (fun g => g.2 <> [] /\
                       Forall (fun dimension => supervisor_of dimension = g.1) g.2)
                    (foldl step groups l)).
  { induction l as [|d l IH]; intros groups Hnd Hall; simpl.
    - by rewrite app_nil_r.
    - destruct (IH (step groups d)) as (H1 & H2 & H3).
      + by apply setdefault_append_NoDup.
      + by apply (setdefault_append_Forall (fun s d => supervisor_of d = s)).
      + split; [done|]. split; [|done].
        rewrite H2. unfold step. rewrite setdefault_append_values.
        by rewrite <- Permutation_middle. }
  destruct (H dimensions []) as (H1 & H2 & H3); [constructor..|]. done.
Qed.

End GroupProperties.

Module NameFacts.
Import Text Generator Reports Notions LabelFacts KeyFacts.

Abbreviation hyphen := ("-"%char).
Abbreviation sep := (chars " - ").

Lemma text_of_chars s : text (chars s) = s.
Proof. apply String.string_of_list_ascii_of_string. Qed.

Lemma lstrip_id l : (forall c, head l = Some c -> is_space c = false) -> lstrip l = l.
Proof.
  destruct l as [|a l]; [done|]. intros H. simpl. by rewrite (H a).
Qed.

(** Stripping a trimmed text changes nothing. *)
Lemma strip_id s : trimmed (chars s) -> strip s = s.
Proof.
  intros [Hh Hl]. unfold strip. rewrite (lstrip_id _ Hh).
  rewrite lstrip_id; [by rewrite rev_involutive, text_of_chars|].
  intros c. rewrite head_rev. apply Hl.
Qed.

(** A match of a pattern fixes the second character. *)
Lemma starts_with_second p1 p2 p l :
  starts_with (p1 :: p2 :: p) l = true -> exists rest, l = p1 :: p2 :: rest.
Proof.
  destruct l as [|a [|b l]]; simpl.
  - done.
  - by destruct (Ascii.eqb p1 a).
  - destruct (Ascii.eqb_spec p1 a) as [->|]; [|done].
    destruct (Ascii.eqb_spec p2 b) as [->|]; [|done]. eauto.
Qed.

(** Where no hyphen follows, a pattern whose second character is a hyphen
    does not match. *)
Lemma no_match p1 p c l :
  hyphen ∉ l -> starts_with (p1 :: hyphen :: p) (c :: l) = false.
Proof.
  intros Hl. apply not_true_is_false. intros H.
  apply starts_with_second in H as (rest & [= -> ->]). apply Hl. left.
Qed.

Lemma no_match_joined p1 p c l l' :
  hyphen ∉ l -> starts_with (p1 :: hyphen :: p) (c :: l ++ " "%char :: l') = false.
Proof.
  intros Hl. apply not_true_is_false. intros H.
  apply starts_with_second in H as (rest & [= -> H]).
  destruct l as [|a l]; simpl in H; [done|]. injection H as -> _. apply Hl. left.
Qed.

Section Pattern.
Variables (p1 : ascii) (p new : list ascii).

Abbreviation old := (p1 :: hyphen :: p).

Lemma replace_chars_id l : hyphen ∉ l -> replace_chars old new l 0 = l.
Proof.
  induction l as [|c l IH]; [done|]. intros H.
  apply not_elem_of_cons in H as [_ H].
  cbn [replace_chars]. by rewrite no_match, IH.
Qed.

Lemma split_chars_id l : hyphen ∉ l -> split_chars old l 0 = [l].
Proof.
  induction l as [|c l IH]; [done|]. intros H.
  apply not_elem_of_cons in H as [_ H].
  cbn [split_chars]. by rewrite no_match, IH.
Qed.

End Pattern.

(** The text made of two levels without hyphens, joined by the
    separator. *)
Lemma replace_joined d b :
  hyphen ∉ d -> hyphen ∉ b ->
  replace_chars (chars " -  - ") (chars " - ") (d ++ sep ++ b) 0 = d ++ sep ++ b.
Proof.
  intros Hd Hb. induction d as [|c d IH].
  - change ([] ++ sep ++ b) with (" "%char :: hyphen :: " "%char :: b).
    cbn [replace_chars chars String.list_ascii_of_string].
    assert (E1 : starts_with (chars " -  - ") (" "%char :: hyphen :: " "%char :: b) = false).
    { apply not_true_is_false. intros H.
      cbn [chars String.list_ascii_of_string] in H.
      do 3 apply starts_with_cons in H as [_ H].
      destruct b as [|b1 [|b2 b]]; [done| |].
      - apply starts_with_cons in H as [_ H]. done.
      - apply starts_with_cons in H as [_ H].
        apply starts_with_cons in H as [<- _]. apply Hb. right. left. }
    cbn [chars String.list_ascii_of_string] in E1. rewrite E1. f_equal.
    assert (E2 : starts_with (" "%char :: hyphen :: chars "  - ")
                   (hyphen :: " "%char :: b) = false) by done.
    cbn [chars String.list_ascii_of_string] in E2. rewrite E2. f_equal.
    rewrite (no_match " "%char _ " "%char b Hb). f_equal.
    by apply (replace_chars_id " "%char).
  - apply not_elem_of_cons in Hd as [_ Hd].
    change ((c :: d) ++ sep ++ b) with (c :: d ++ " "%char :: hyphen :: " "%char :: b).
    cbn [replace_chars chars String.list_ascii_of_string].
    rewrite (no_match_joined " "%char _ c d _ Hd). f_equal. by apply IH.
Qed.

Lemma split_joined d b :
  hyphen ∉ d -> hyphen ∉ b -> split_chars sep (d ++ sep ++ b) 0 = [d; b].
Proof.
  intros Hd Hb. induction d as [|c d IH].
  - change ([] ++ sep ++ b) with (" "%char :: hyphen :: " "%char :: b).
    cbn [split_chars chars String.list_ascii_of_string starts_with].
    rewrite !Ascii.eqb_refl. cbn [length Nat.pred]. f_equal.
    by apply (split_chars_id " "%char [" "%char]).
  - apply not_elem_of_cons in Hd as [_ Hd].
    change ((c :: d) ++ sep ++ b) with (c :: d ++ " "%char :: hyphen :: " "%char :: b).
    cbn [split_chars chars String.list_ascii_of_string].
    rewrite (no_match_joined " "%char _ c d _ Hd).
    specialize (IH Hd).
    change (d ++ sep ++ b) with (d ++ " "%char :: hyphen :: " "%char :: b) in IH.
    cbn [chars String.list_ascii_of_string] in IH. by rewrite IH.
Qed.

Lemma contains_joined d b : contains_chars sep (d ++ sep ++ b) = true.
Proof.
  induction d as [|c d IH].
  - change ([] ++ sep ++ b) with (" "%char :: hyphen :: " "%char :: b).
    cbn [contains_chars chars String.list_ascii_of_string starts_with].
    by rewrite !Ascii.eqb_refl.
  - change ((c :: d) ++ sep ++ b) with (c :: d ++ sep ++ b).
    cbn [contains_chars]. rewrite IH. apply orb_true_r.
Qed.

Lemma trimmed_joined d b :
  d <> [] -> b <> [] -> trimmed d -> trimmed b -> trimmed (d ++ sep ++ b).
Proof.
  intros Hd Hb [Hdh _] [_ Hbl]. split; intros c.
  - destruct d as [|a d]; [done|]. simpl. apply Hdh.
  - rewrite !last_app. destruct (last b) as [z|] eqn:E.
    + apply Hbl.
    + by apply last_None in E.
Qed.

(** The key of two levels: lines 105-106 change nothing (the anchored
    patterns match no trimmed text). *)
Lemma dimension_key_stripped director bd_name :
  dimension_key director bd_name =
  replace " -  - " " - " (strip (director ++ " - " ++ bd_name)).
Proof.
  unfold dimension_key.
  set (s := (director ++ " - " ++ bd_name)%string).
  pose proof (joined_trimmed s) as Ht.
  set (t := replace " -  - " " - " (strip s)) in *.
  assert (E1 : remove_prefix " - " t = t).
  { unfold remove_prefix. cbn [chars String.list_ascii_of_string].
    fold (chars t). by rewrite trimmed_no_prefix. }
  rewrite E1. unfold remove_suffix. cbn [chars String.list_ascii_of_string app rev].
  fold (chars t). by rewrite !trimmed_no_suffix.
Qed.

Lemma replace_text old new s :
  chars old <> [] ->
  replace old new s = text (replace_chars (chars old) (chars new) (chars s) 0).
Proof. unfold replace. by destruct (chars old). Qed.

Lemma chars_nonempty s : s <> "" -> chars s <> [].
Proof. by destruct s. Qed.

End NameFacts.

Module SpaceFacts.
Import Text Generator Notions KeyFacts.

Lemma is_space_white c : is_space c = true -> [c] ∈ white_space.
Proof.
  destruct c as [[] [] [] [] [] [] [] []]; intros H; try discriminate H;
    apply (bool_decide_unpack _); by vm_compute.
Qed.

(** A text without white space at its ends has none of ASCII there. *)
Lemma stripped_trimmed l : stripped l -> trimmed l.
Proof.
  intros H. unfold stripped in H. rewrite Forall_forall in H. split.
  - intros c Hc. apply not_true_is_false. intros Hs.
    destruct (H _ (is_space_white _ Hs)) as [H1 _].
    destruct l as [|c' l]; [done|]. injection Hc as ->.
    simpl in H1. by rewrite Ascii.eqb_refl in H1.
  - intros c Hc. apply not_true_is_false. intros Hs.
    destruct (H _ (is_space_white _ Hs)) as [_ H2].
    apply last_Some in Hc as [l' ->]. rewrite rev_app_distr in H2.
    simpl in H2. by rewrite Ascii.eqb_refl in H2.
Qed.

End SpaceFacts.

Section NameProperties.
Import Text Generator Reports Notions LabelFacts KeyFacts NameFacts SpaceFacts.

(** X12.  The names read back from a key: for two levels that are not
    empty, have no white space (of ASCII or of the rest of Unicode, all
    of which [str.strip()] removes) at either end and no hyphen, the key
    that [process_raw_data] builds is the two levels joined by [" - "],
    and the report code reads the same two names back from it: the
    business name and the supervisor of lines 224-232, and the supervisor
    under which [group_by_supervisor] files the key. *)
Theorem names_read_back (director bd_name : string) :
  director <> "" -> bd_name <> "" ->
  stripped (chars director) -> stripped (chars bd_name) ->
  hyphen ∉ chars director -> hyphen ∉ chars bd_name ->
  dimension_key director bd_name = (director ++ " - " ++ bd_name)%string /\
  names_of (dimension_key director bd_name) = (bd_name, director) /\
  supervisor_of (dimension_key director bd_name) = director.
Proof.
  intros Hd Hb Htd Htb Hhd Hhb.
  apply stripped_trimmed in Htd, Htb.
  apply chars_nonempty in Hd, Hb.
  set (key := (director ++ " - " ++ bd_name)%string).
  assert (Hchars : chars key = chars director ++ sep ++ chars bd_name)
    by (unfold key; by rewrite !chars_app).
  assert (Hkey : dimension_key director bd_name = key).
  { rewrite dimension_key_stripped. fold key.
    rewrite strip_id by (rewrite Hchars; by apply trimmed_joined).
    rewrite replace_text by done.
    by rewrite Hchars, replace_joined, <- Hchars, text_of_chars. }
  rewrite Hkey.
  assert (Hc : contains " - " key = true).
  { unfold contains. rewrite Hchars. apply contains_joined. }
  assert (Hs : split " - " key = [director; bd_name]).
  { unfold split. rewrite Hchars, split_joined by done. simpl.
    by rewrite !text_of_chars. }
  split; [done|]. unfold names_of, supervisor_of. rewrite Hc, Hs.
  unfold first_part, last_part. simpl. by rewrite !strip_id.
Qed.

End NameProperties.

Module PathFacts.
Import Text Generator Reports Notions LabelFacts KeyFacts NameFacts.

(** A character that neither the text nor the replacement has is not in
    the result of a replacement. *)
Lemma replace_keeps_absent c old new l skip :
  c ∉ l -> c ∉ new -> c ∉ replace_chars old new l skip.
Proof.
  intros Hl Hnew. revert skip. induction l as [|a l IH]; intros skip; [done|].
  apply not_elem_of_cons in Hl as [Hne Hl]. cbn [replace_chars].
  destruct skip as [|k]; [|by apply IH].
  destruct (starts_with old (a :: l)).
  - rewrite elem_of_app. intros [?|?]; [done|]. by eapply IH.
  - rewrite elem_of_cons. intros [?|?]; [done|]. by eapply IH.
Qed.

(** Replacing a character removes it. *)
Lemma replace_removes o new l : o ∉ new -> o ∉ replace_chars [o] new l 0.
Proof.
  intros Hnew. induction l as [|a l IH]; [apply not_elem_of_nil|].
  cbn [replace_chars starts_with length Nat.pred].
  destruct (Ascii.eqb_spec o a) as [<-|Hne].
  - rewrite elem_of_app. tauto.
  - rewrite elem_of_cons. tauto.
Qed.

Lemma chars_replace_one o new s :
  chars (replace (String o "") new s) = replace_chars [o] (chars new) (chars s) 0.
Proof. unfold replace. cbn [chars String.list_ascii_of_string]. apply chars_text. Qed.

Lemma safe_folder_chars name :
  ("/"%char ∉ chars (safe_folder name)) /\ ("\"%char ∉ chars (safe_folder name)).
Proof.
  unfold safe_folder. rewrite !chars_replace_one. split.
  - apply replace_keeps_absent; [|by apply (bool_decide_unpack _)].
    apply replace_removes. by apply (bool_decide_unpack _).
  - apply replace_removes. by apply (bool_decide_unpack _).
Qed.

Lemma safe_name_chars name c :
  c ∈ ["/"%char; "\"%char; " "%char] -> c ∉ chars (safe_name name).
Proof.
  destruct (safe_folder_chars name) as [H1 H2].
  unfold safe_name. rewrite chars_replace_one.
  rewrite !elem_of_cons, elem_of_nil. intros [->|[->|[->|[]]]].
  - apply replace_keeps_absent; [done|by apply (bool_decide_unpack _)].
  - apply replace_keeps_absent; [done|by apply (bool_decide_unpack _)].
  - apply replace_removes. by apply (bool_decide_unpack _).
Qed.

(** Joining a path with a piece that is not absolute. *)
Lemma path_join_relative a b :
  starts_with (chars "/") (chars b) = false ->
  exists s, s ∈ [""; "/"] /\ path_join a b = (a ++ s ++ b)%string.
Proof.
  intros H. unfold path_join. rewrite H.
  destruct (_ || _).
  - exists "". split; [left|done].
  - exists "/". split; [right; left|done].
Qed.

Lemma not_absolute s : "/"%char ∉ chars s -> starts_with (chars "/") (chars s) = false.
Proof.
  intros H. destruct s as [|c s]; [done|]. apply not_true_is_false. intros E.
  cbn [chars String.list_ascii_of_string] in E.
  apply starts_with_cons in E as [<- _]. apply H. left.
Qed.

Lemma app_assoc_string (a b c : string) : ((a ++ b) ++ c = a ++ b ++ c)%string.
Proof.
  induction a as [|x a IH]; [done|].
  change (String x ((a ++ b) ++ c) = String x (a ++ b ++ c))%string. by f_equal.
Qed.

End PathFacts.

Section PathProperties.
Import Text Generator Reports Notions LabelFacts KeyFacts NameFacts PathFacts.

(** X13.  Where [save_report] writes: the path is [output_dir], then
    the folder of the supervisor when there is a supervisor, then the
    file, whose name is the cleaned business name followed by
    [_report.png]; the pieces are joined by at most one slash each.
    Neither the folder nor the file has a slash in it, so that a name
    adds no level of its own to the path (a supervisor named [..] is kept
    as it is); the cleaned business name has no backslash and no space
    either. *)
Theorem report_path_below_output_dir (business_name supervisor output_dir : string) :
  exists sep1 sep2 folder file : string,
    save_report business_name supervisor output_dir =
      (output_dir ++ sep1 ++ folder ++ sep2 ++ file)%string /\
    sep1 ∈ [""; "/"] /\ sep2 ∈ [""; "/"] /\
    folder = (if bool_decide (supervisor <> "") then safe_folder supervisor else "") /\
    file = (safe_name business_name ++ "_report.png")%string /\
    ("/"%char ∉ chars folder) /\
    ("/"%char ∉ chars file) /\
    (forall c, c ∈ ["/"%char; "\"%char; " "%char] -> c ∉ chars (safe_name business_name)).
Proof.
  set (file := (safe_name business_name ++ "_report.png")%string).
  assert (Hfile : "/"%char ∉ chars file).
  { unfold file. rewrite chars_app, elem_of_app. intros [H|H].
    - revert H. apply safe_name_chars. left.
    - revert H. by apply (bool_decide_unpack _). }
  destruct (safe_folder_chars supervisor) as [Hfolder _].
  unfold save_report. fold file.
  destruct (bool_decide (supervisor <> "")).
  - destruct (path_join_relative output_dir (safe_folder supervisor)) as (s1 & Hs1 & E1);
      [by apply not_absolute|].
    destruct (path_join_relative (path_join output_dir (safe_folder supervisor)) file)
      as (s2 & Hs2 & E2); [by apply not_absolute|].
    exists s1, s2, (safe_folder supervisor), file.
    split; [|repeat split; try done; apply safe_name_chars].
    rewrite E2, E1. by rewrite !app_assoc_string.
  - destruct (path_join_relative output_dir file) as (s1 & Hs1 & E1);
      [by apply not_absolute|].
    exists s1, "", "", file.
    split; [|repeat split; try done; [left|apply not_elem_of_nil|apply safe_name_chars]].
    by rewrite E1.
Qed.

End PathProperties.

Section NameSamples.
Import Text Generator Reports Notions.

Lemma names_read_back_witness :
  dimension_key "Alice" "Bob" = "Alice - Bob" /\
  names_of (dimension_key "Alice" "Bob") = ("Bob", "Alice") /\
  supervisor_of (dimension_key "Alice" "Bob") = "Alice".
Proof.
  apply (names_read_back "Alice" "Bob").
  - done.
  - done.
  - vm_compute. repeat constructor.
  - vm_compute. repeat constructor.
  - apply (bool_decide_unpack _). by vm_compute.
  - apply (bool_decide_unpack _). by vm_compute.
Defined.

End NameSamples.

Module StyleFacts.
Import Text Calendar Generator Reports Notions FrameFacts LabelFacts RollupFacts KeyFacts.

Abbreviation plain := (fun c : ascii => c ∈ chars "-0123456789").

(** ** The characters and the length of a label *)

Lemma digits_plain d : Forall plain (chars (NilEmpty.string_of_uint d)).
Proof.
  unfold chars. induction d; simpl; constructor; try assumption;
    by apply (bool_decide_unpack _).
Qed.

Lemma uint_plain d : Forall plain (chars (NilZero.string_of_uint d)).
Proof.
  destruct d; try apply (digits_plain (_ d)).
  repeat constructor; by apply (bool_decide_unpack _).
Qed.

Lemma str_of_Z_plain n : Forall plain (chars (str_of_Z n)).
Proof.
  unfold str_of_Z. destruct n as [|p|p]; cbn [Z.to_int NilZero.string_of_int].
  - repeat constructor; by apply (bool_decide_unpack _).
  - apply uint_plain.
  - constructor; [by apply (bool_decide_unpack _)|apply uint_plain].
Qed.

Lemma zfill2_plain n : Forall plain (chars (zfill2 n)).
Proof.
  unfold zfill2. destruct (_ && _); [|apply str_of_Z_plain].
  rewrite chars_app. apply Forall_app. split; [|apply str_of_Z_plain].
  repeat constructor; by apply (bool_decide_unpack _).
Qed.

Lemma strftime_ymd_chars d : Forall plain (chars (strftime_ymd d)).
Proof.
  unfold strftime_ymd. rewrite !chars_app, !Forall_app.
  repeat split; try apply str_of_Z_plain; try apply zfill2_plain;
    repeat constructor; by apply (bool_decide_unpack _).
Qed.

(** A text without the first character of a pattern has no occurrence of
    the pattern. *)
Lemma contains_absent c p l : c ∉ l -> contains_chars (c :: p) l = false.
Proof.
  induction l as [|a l IH]; [done|]. intros H.
  apply not_elem_of_cons in H as [Hne H]. cbn [contains_chars].
  rewrite (IH H), orb_false_r. apply not_true_is_false. intros E.
  by apply starts_with_cons in E as [-> _].
Qed.

Lemma starts_with_app p l : starts_with p (p ++ l) = true.
Proof. induction p as [|a p IH]; [done|]. simpl. by rewrite Ascii.eqb_refl. Qed.

Lemma contains_app p a b : contains_chars p (a ++ p ++ b) = true.
Proof.
  induction a as [|c a IH].
  - destruct (p ++ b) eqn:E; simpl; rewrite <- E, starts_with_app; done.
  - change ((c :: a) ++ p ++ b) with (c :: (a ++ p ++ b)).
    cbn [contains_chars]. rewrite IH. apply orb_true_r.
Qed.

Lemma plain_absent c l : Forall plain l -> c ∉ chars "-0123456789" -> c ∉ l.
Proof.
  intros Hl Hc Hin. rewrite Forall_forall in Hl. by apply Hc, Hl.
Qed.

Lemma length_append (a b : string) :
  String.length (a ++ b) = (String.length a + String.length b)%nat.
Proof.
  induction a as [|c a IH]; [done|].
  change (S (String.length (a ++ b)) = S (String.length a + String.length b)).
  by rewrite IH.
Qed.

(** A year of four digits is written with four characters, and a month
    with two. *)
Lemma year_length y : (1000 <= y <= 9999)%Z -> String.length (str_of_Z y) = 4%nat.
Proof.
  intros Hy.
  assert (H : forallb (fun k => String.length (str_of_Z (1000 + Z.of_nat k)) =? 4)%nat
                      (seq 0 (90 * 100)) = true) by by vm_compute.
  rewrite forallb_forall in H.
  specialize (H (Z.to_nat (y - 1000))). rewrite Z2Nat.id in H by lia.
  replace (1000 + (y - 1000))%Z with y in H by lia.
  apply Nat.eqb_eq, H, in_seq. lia.
Qed.

Lemma month_length m : (1 <= m <= 12)%Z -> String.length (zfill2 m) = 2%nat.
Proof.
  intros Hm.
  assert (H : forallb (fun k => String.length (zfill2 (1 + Z.of_nat k)) =? 2)%nat
                      (seq 0 12) = true) by by vm_compute.
  rewrite forallb_forall in H.
  specialize (H (Z.to_nat (m - 1))). rewrite Z2Nat.id in H by lia.
  replace (1 + (m - 1))%Z with m in H by lia.
  apply Nat.eqb_eq, H, in_seq. lia.
Qed.

(** ** How the labels are taken *)

Lemma day_label_style d rc :
  row_style (strftime_ymd d) rc = (_style_data_cell (Nat.even rc), S rc).
Proof.
  pose proof (strftime_ymd_chars d) as Hp.
  unfold row_style, is_month_label, contains.
  change (chars "TOTAL") with ("T"%char :: chars "OTAL").
  rewrite contains_absent
    by (apply plain_absent; [done|by apply (bool_decide_unpack _)]).
  change (chars "/") with ["/"%char].
  rewrite contains_absent
    by (apply plain_absent; [done|by apply (bool_decide_unpack _)]).
  by rewrite andb_false_r.
Qed.

Lemma month_label_style y m rc :
  (1000 <= y <= 9999)%Z -> (1 <= m <= 12)%Z ->
  row_style (month_label y m) rc = (_style_month_summary_cell, 0%nat).
Proof.
  intros Hy Hm. unfold row_style.
  assert (E1 : contains "TOTAL" (month_label y m) = false).
  { unfold contains. change (chars "TOTAL") with ("T"%char :: chars "OTAL").
    apply contains_absent. unfold month_label. rewrite !chars_app, !elem_of_app.
    intros [H|[H|H]]; revert H.
    - apply plain_absent; [apply str_of_Z_plain|by apply (bool_decide_unpack _)].
    - by apply (bool_decide_unpack _).
    - apply plain_absent; [apply zfill2_plain|by apply (bool_decide_unpack _)]. }
  assert (E2 : is_month_label (month_label y m) = true).
  { unfold is_month_label. rewrite !andb_true_iff. repeat split.
    - unfold month_label. rewrite !length_append, year_length, month_length by done.
      done.
    - unfold contains, month_label. rewrite !chars_app. apply contains_app.
    - apply negb_true_iff, String.eqb_neq, month_label_not_TOTAL. }
  by rewrite E1, E2.
Qed.

Lemma total_label_style rc : row_style "TOTAL" rc = (_style_total_cell, rc).
Proof. done. Qed.

(** ** The loops *)

Section Loops.
Variables (table_data : Table) (ncols : nat) (month_summary_rows : list nat).
Hypothesis some_column : (0 < ncols)%nat.
Hypothesis month_rows :
  forall i row_data label,
    table_data !! i = Some row_data -> head row_data = Some label ->
    (S i ∈ month_summary_rows <-> is_month_label label = true).

Lemma style_cell_spec i j rc row_data label :
  table_data !! i = Some row_data -> head row_data = Some label ->
  style_cell table_data ncols month_summary_rows (S i) j rc =
  Some ((row_style label rc).1,
        if (j =? ncols - 1)%nat then (row_style label rc).2
        else if Text.contains "TOTAL" label then rc
        else if is_month_label label then 0%nat else rc).
Proof.
  intros Hrow Hlabel. unfold style_cell, row_style.
  replace (S i - 1)%nat with i by lia. rewrite Hrow, Hlabel.
  pose proof (month_rows _ _ _ Hrow Hlabel) as Hm.
  destruct (is_month_label label).
  - rewrite bool_decide_eq_true_2 by by apply Hm.
    destruct (contains "TOTAL" label), (j =? ncols - 1)%nat; done.
  - rewrite bool_decide_eq_false_2 by (intros H; by apply Hm in H).
    destruct (contains "TOTAL" label), (j =? ncols - 1)%nat; done.
Qed.

(** The cells of a row are styled alike, and the counter moves once, at
    the last of them. *)
Lemma style_row_spec i rc row_data label :
  table_data !! i = Some row_data -> head row_data = Some label ->
  style_row table_data ncols month_summary_rows (S i) (seq 0 ncols) rc =
  Some (replicate ncols (row_style label rc).1, (row_style label rc).2).
Proof.
  intros Hrow Hlabel.
  assert (Hkeep : forall rc',
    row_style label (if Text.contains "TOTAL" label then rc'
                     else if is_month_label label then 0%nat else rc') =
    row_style label rc').
  { intros rc'. unfold row_style.
    by destruct (contains "TOTAL" label), (is_month_label label). }
  assert (Hgen : forall n j rc',
    (j + n = ncols)%nat -> (0 < n)%nat ->
    row_style label rc' = row_style label rc ->
    style_row table_data ncols month_summary_rows (S i) (seq j n) rc' =
    Some (replicate n (row_style label rc).1, (row_style label rc).2)).
  { induction n as [|n IH]; intros j rc' Hj Hn Hsame; [lia|].
    cbn [seq style_row]. rewrite (style_cell_spec _ _ _ _ _ Hrow Hlabel).
    destruct n as [|n].
    - rewrite (proj2 (Nat.eqb_eq j (ncols - 1))) by lia. simpl. by rewrite Hsame.
    - rewrite (proj2 (Nat.eqb_neq j (ncols - 1))) by lia.
      rewrite IH by (lia || by rewrite Hkeep). by rewrite Hsame. }
  apply Hgen; [lia|done|done].
Qed.

Lemma style_rows_spec k rc :
  Forall (fun row_data => row_data <> []) (drop k table_data) ->
  style_rows table_data ncols month_summary_rows
    (seq (S k) (length (drop k table_data))) rc =
  Some (styles_from ncols (map (fun row_data => default "" (head row_data))
                               (drop k table_data)) rc).
Proof.
  remember (drop k table_data) as suffix eqn:Hs.
  revert k rc Hs. induction suffix as [|row_data suffix IH]; intros k rc Hs Hne; [done|].
  apply Forall_cons in Hne as [Hrow Hne].
  assert (Hk : table_data !! k = Some row_data).
  { rewrite <- (Nat.add_0_r k), <- lookup_drop, <- Hs. done. }
  assert (Hd : suffix = drop (S k) table_data).
  { replace (S k) with (k + 1)%nat by lia. by rewrite <- drop_drop, <- Hs. }
  destruct row_data as [|label cells]; [done|].
  cbn [length seq style_rows map styles_from head default].
  rewrite (style_row_spec _ _ _ label Hk) by done.
  by rewrite (IH (S k) _ Hd Hne).
Qed.

End Loops.

(** The rows that line 317 takes for month totals. *)
Lemma month_summary_rows_spec (table_data : Table) :
  Forall (fun row_data => row_data <> []) table_data ->
  exists rows,
    month_summary_rows table_data = Some rows /\
    forall i row_data label,
      table_data !! i = Some row_data -> head row_data = Some label ->
      (S i ∈ rows <-> is_month_label label = true).
Proof.
  intros Hne. unfold month_summary_rows.
  assert (Hgen : forall rest k,
    Forall (fun row_data => row_data <> []) rest ->
    exists rows,
      month_summary_rows_from k rest = Some rows /\
      (forall i, i ∈ rows -> (k < i)%nat) /\
      forall i row_data label,
        rest !! i = Some row_data -> head row_data = Some label ->
        (S (k + i) ∈ rows <-> is_month_label label = true)).
  { intros rest; induction rest as [|row_data rest IH]; intros k Hs.
    - exists []. split; [done|]. split; [intros i Hi; by apply elem_of_nil in Hi|done].
    - apply Forall_cons in Hs as [Hrow Hs].
      destruct (IH (S k) Hs) as (later & E & Hlow & Hlater).
      destruct row_data as [|label cells]; [done|].
      cbn [month_summary_rows_from head]. rewrite E.
      eexists. split; [reflexivity|]. split.
      + intros i. destruct (is_month_label label).
        * rewrite elem_of_cons. intros [->|Hi]; [lia|]. apply Hlow in Hi. lia.
        * intros Hi. apply Hlow in Hi. lia.
      + intros [|i] row_data' label' Hi Hl.
        * injection Hi as <-. injection Hl as <-. rewrite Nat.add_0_r.
          destruct (is_month_label label) eqn:Em.
          -- split; [done|]. intros _. replace (S k) with (k + 1)%nat by lia. left.
          -- split; [|done]. intros Hin. apply Hlow in Hin. lia.
        * change ((_ :: rest) !! S i) with (rest !! i) in Hi.
          rewrite <- (Hlater i row_data' label' Hi Hl).
          replace (S k + i)%nat with (k + S i)%nat by lia.
          destruct (is_month_label label); [|done].
          rewrite elem_of_cons. split; [intros [?|?]; [lia|done]|by right]. }
  destruct (Hgen table_data 0%nat Hne) as (rows & E & _ & H).
  exists rows. split; [done|]. intros i. apply (H i).
Qed.

(** [create_visualization] on a table without an empty row. *)
Lemma create_visualization_styles (table_data : Table) (available_columns : list string) :
  available_columns <> [] ->
  Forall (fun row_data => row_data <> []) table_data ->
  create_visualization table_data available_columns =
  Some (replicate (length available_columns) _style_header ::
        styles_from (length available_columns)
          (map (fun row_data => default "" (head row_data)) table_data) 0).
Proof.
  intros Hcols Hne. unfold create_visualization, _apply_table_styles.
  destruct (month_summary_rows_spec _ Hne) as (rows & -> & Hrows).
  pose proof (style_rows_spec table_data (length available_columns) rows) as H.
  specialize (H ltac:(destruct available_columns; [done|simpl; lia]) Hrows 0%nat 0%nat).
  rewrite drop_0 in H. by rewrite H.
Qed.

(** ** The styles of the three kinds of rows *)

Lemma styles_from_app ncols l1 l2 rc :
  styles_from ncols (l1 ++ l2) rc =
  styles_from ncols l1 rc ++
  styles_from ncols l2 (foldl (fun c label => (row_style label c).2) rc l1).
Proof.
  revert rc. induction l1 as [|label l1 IH]; intros rc; [done|].
  simpl. by rewrite IH.
Qed.

Lemma styles_from_days ncols (dates : list date) rc :
  styles_from ncols (map strftime_ymd dates) rc =
  map (fun k => replicate ncols (_style_data_cell (Nat.even k))) (seq rc (length dates)).
Proof.
  revert rc. induction dates as [|d dates IH]; intros rc; [done|].
  cbn [map styles_from length seq]. by rewrite day_label_style, IH.
Qed.

Lemma styles_from_months ncols (months : list (Z * Z)) rc :
  Forall (fun ym => (1000 <= ym.1 <= 9999)%Z /\ (1 <= ym.2 <= 12)%Z) months ->
  styles_from ncols (map (fun ym => month_label ym.1 ym.2) months) rc =
  replicate (length months) (replicate ncols _style_month_summary_cell).
Proof.
  intros H. revert rc. induction H as [|[y m] months [Hy Hm] _ IH]; intros rc; [done|].
  cbn [map styles_from length replicate fst snd].
  by rewrite month_label_style, IH.
Qed.

End StyleFacts.

Module StripeFacts.
Import Text Calendar Generator Reports Notions FrameFacts LabelFacts RollupFacts
       StyleFacts.

Abbreviation label_of := (fun row_data : list string => default "" (head row_data)).
Abbreviation four_digits :=
  (fun ym : Z * Z => (1000 <= ym.1 <= 9999)%Z /\ (1 <= ym.2 <= 12)%Z).

Lemma valid_four_digits d :
  valid_date d = true -> (1000 <= year d)%Z -> four_digits (year d, month d).
Proof.
  unfold valid_date. rewrite !andb_true_iff, !Z.leb_le. simpl. lia.
Qed.

Lemma day_labels rest (month_data : list Day) :
  map label_of (map (formatted_row ("Date" :: rest)) month_data) =
  map strftime_ymd (map stamp month_data).
Proof. rewrite !map_map. by apply map_ext. Qed.

(** The rows that the months before the latest give, by their labels. *)
Lemma prior_labels cols latest (gs : list ((Z * Z) * list Day)) :
  Forall (fun g => g.1 <> latest /\ four_digits g.1) gs ->
  exists months,
    map label_of (concat (map (month_step cols latest []) gs)) =
    map (fun ym => month_label ym.1 ym.2) months /\
    Forall four_digits months.
Proof.
  induction 1 as [|[[y m] month_data] gs [Hne Hym] _ (months & E & Hmonths)].
  - by exists [].
  - cbn [map concat]. rewrite month_step_prior by done. rewrite map_app, E.
    destruct (is_month_complete month_data y m).
    + exists ((y, m) :: months). split; [done|by constructor].
    + by exists months.
Qed.

End StripeFacts.

Section StyleProperties.
Import Text Calendar Generator Reports Notions FrameFacts LabelFacts RollupFacts
       StyleFacts StripeFacts.
Variable to_datetime : string -> option date.

(** X14.  The stripes of a report of one dimension.  When
    [create_table_data] returns a table for a frame whose dates are days
    of the calendar with years of four digits (as the dates of pandas
    are), [create_visualization] styles every cell of it and never fails:
    the header first; then the days of the month of the newest date, one
    row for each dated row of that month, in stripes that begin with an
    even row; then the totals of the months, of which there is at least
    one; then the row TOTAL.  The cells of a row are styled alike. *)
Theorem bd_report_stripes (st : list DataFrame) r df tbl cols :
  st !! r = Some df ->
  Forall (fun x => valid_date (stamp x) = true /\ (1000 <= year (stamp x))%Z)
         (days_of to_datetime df) ->
  fst <$> create_table_data to_datetime r st = Some (Some (tbl, cols)) ->
  exists newest months,
    newest ∈ days_of to_datetime df /\
    (forall x, x ∈ days_of to_datetime df ->
               (ordinal (stamp x) <= ordinal (stamp newest))%Z) /\
    let days := length (filter (fun x => year_month x = year_month newest)
                               (days_of to_datetime df)) in
    (0 < days)%nat /\ (0 < months)%nat /\
    length tbl = (days + months + 1)%nat /\
    create_visualization tbl cols = Some (striped (length cols) days months).
Proof.
  intros Hr Hvalid Hrun.
  assert (Hne : days_of to_datetime df <> []).
  { intros E. rewrite (create_table_data_run _ _ _ _ Hr), E in Hrun. done. }
  destruct (newest_first_nonempty _ Hne) as (newest & others & Hs).
  rewrite (create_table_data_table _ _ _ _ _ _ Hr Hs) in Hrun.
  injection Hrun as <- <-.
  pose proof (sort_values_desc_perm (fun x => ordinal (stamp x)) (days_of to_datetime df))
    as Hperm.
  pose proof (sort_values_desc_sorted (fun x => ordinal (stamp x)) (days_of to_datetime df))
    as Hsorted.
  fold (newest_first (days_of to_datetime df)) in Hperm, Hsorted.
  rewrite Hs in *.
  apply ComparisonFacts.descending_head in Hsorted.
  destruct (groupby_head year_month newest others) as (gs & Hg & Hgs).
  rewrite Hg, map_cons, concat_cons.
  destruct (year_month newest) as [y m] eqn:Hym. rewrite month_step_latest.
  set (month_days := filter (fun z => year_month z = (y, m)) (newest :: others)).
  destruct (shown_columns_Date df) as (rest & Hcols). rewrite Hcols.
  assert (Hall : forall x, x ∈ newest :: others -> four_digits (year_month x)).
  { intros x Hx. rewrite Hperm in Hx. rewrite Forall_forall in Hvalid.
    destruct (Hvalid x Hx). by apply valid_four_digits. }
  assert (Hprior : Forall (fun g => g.1 <> (y, m) /\ four_digits g.1) gs).
  { rewrite Forall_forall in Hgs. apply Forall_forall. intros [k g] Hin.
    split; [by apply (Hgs _ Hin)|].
    assert (Hin' : (k, g) ∈ Frame.groupby year_month (newest :: others))
      by (rewrite Hg; by right).
    apply elem_of_groupby in Hin' as [Hk _].
    apply list_elem_of_fmap in Hk as (x & -> & Hx). by apply Hall. }
  destruct (prior_labels ("Date" :: rest) (y, m) gs Hprior) as (months & Elabels & Hmonths).
  set (earlier := concat (map (month_step ("Date" :: rest) (y, m) []) gs)) in *.
  assert (Hlen : length earlier = length months).
  { rewrite <- (length_map label_of earlier), Elabels. by rewrite length_map. }
  assert (Hdays : length month_days =
                  length (filter (fun x => year_month x = (y, m)) (days_of to_datetime df))).
  { unfold month_days. by rewrite Hperm. }
  exists newest, (S (length months)).
  split; [rewrite <- Hperm; left|].
  split.
  { intros x Hx. rewrite <- Hperm in Hx. rewrite Forall_forall in Hsorted.
    by apply Hsorted. }
  cbv zeta. rewrite Hym, <- Hdays.
  split.
  { unfold month_days. rewrite filter_cons_True by done. simpl. lia. }
  split; [lia|]. split.
  { rewrite !length_app, length_map, Hlen. simpl. lia. }
  rewrite create_visualization_styles; [|done|].
  - f_equal. unfold striped. f_equal.
    rewrite <- !app_assoc, !map_app, day_labels, Elabels.
    rewrite styles_from_app, styles_from_days, length_map. f_equal.
    rewrite app_assoc.
    change (map label_of [month_total_row month_days ("Date" :: rest) y m] ++
            map (fun ym => month_label ym.1 ym.2) months)
      with (map (fun ym => month_label ym.1 ym.2) ((y, m) :: months)).
    rewrite styles_from_app, styles_from_months.
    + done.
    + constructor; [|done]. rewrite <- Hym. apply Hall. left.
  - rewrite <- !app_assoc. rewrite !Forall_app. repeat split.
    + apply Forall_forall. intros row Hrow.
      apply list_elem_of_fmap in Hrow as (x & -> & _). done.
    + by repeat constructor.
    + eapply Forall_impl; [apply (prior_months_rows _ _ _ ltac:(eapply Forall_impl; [exact Hprior|by intros ? [? _]]))|].
      intros row (y' & m' & md & ->). done.
    + by repeat constructor.
Qed.

End StyleProperties.

Section StyleSamples.
Import Calendar Generator Reports Notions.

Lemma bd_report_stripes_witness :
  exists newest months,
    newest ∈ days_of Sample.to_datetime Sample.bd_frame /\
    (forall x, x ∈ days_of Sample.to_datetime Sample.bd_frame ->
               (ordinal (stamp x) <= ordinal (stamp newest))%Z) /\
    let days := length (filter (fun x => year_month x = year_month newest)
                               (days_of Sample.to_datetime Sample.bd_frame)) in
    (0 < days)%nat /\ (0 < months)%nat /\
    length Sample.bd_table = (days + months + 1)%nat /\
    create_visualization Sample.bd_table ["Date"; "Reg"; "DAU"] =
    Some (striped (length ["Date"; "Reg"; "DAU"]) days months).
Proof.
  apply (bd_report_stripes Sample.to_datetime [Sample.bd_frame] 0%nat Sample.bd_frame).
  - reflexivity.
  - apply (bool_decide_unpack _). by vm_compute.
  - by vm_compute.
Defined.

End StyleSamples.

Module ReportFacts.
Import Text Calendar Generator Store Reports Notions FrameFacts RollupFacts
       StoreFacts StyleFacts.

Section Drawing.
Variable to_datetime : string -> option date.

Lemma elem_of_days_of df x :
  x ∈ days_of to_datetime df <->
  exists row d, row ∈ rows df /\ to_datetime (Date row) = Some d /\
                x = mkDay d (Date row) (values row).
Proof.
  unfold days_of. rewrite list_elem_of_omap. split.
  - intros (row & Hrow & Hx). destruct (to_datetime (Date row)) as [d|] eqn:E; [|done].
    injection Hx as <-. by exists row, d.
  - intros (row & d & Hrow & E & ->). exists row. by rewrite E.
Qed.

(** The dimension that the report is named after is that of a row with
    the newest date. *)
Lemma newest_dimension_spec df :
  days_of to_datetime df <> [] ->
  exists row d,
    row ∈ rows df /\ to_datetime (Date row) = Some d /\
    (forall row' d', row' ∈ rows df -> to_datetime (Date row') = Some d' ->
                     (ordinal d' <= ordinal d)%Z) /\
    newest_dimension (set_Date_dt to_datetime df) = Some (Dimension row).
Proof.
  intros Hne. unfold newest_dimension, set_Date_dt. cbn [Date_dt rows].
  set (pick := fun x : option date * Row => (fun d => (d, Dimension x.2)) <$> x.1).
  set (key := fun x : date * string => ordinal x.1).
  assert (E : omap pick (zip (map (fun r => to_datetime (Date r)) (rows df)) (rows df)) =
              omap (fun row => (fun d => (d, Dimension row)) <$> to_datetime (Date row))
                   (rows df)).
  { induction (rows df) as [|row l IH]; [done|].
    cbn [map zip zip_with omap list_omap]. rewrite IH. done. }
  rewrite E. clear E. set (dated := omap _ (rows df)).
  assert (Hin : forall d dim, (d, dim) ∈ dated <->
            exists row, row ∈ rows df /\ to_datetime (Date row) = Some d /\
                        Dimension row = dim).
  { intros d dim. unfold dated. rewrite list_elem_of_omap. split.
    - intros (row & Hrow & Hx). destruct (to_datetime (Date row)) as [d'|] eqn:E; [|done].
      injection Hx as <- <-. by exists row.
    - intros (row & Hrow & E & <-). exists row. by rewrite E. }
  pose proof (sort_values_desc_perm key dated) as Hperm.
  pose proof (sort_values_desc_sorted key dated) as Hsorted.
  destruct (Frame.sort_values_desc key dated) as [|[d dim] rest] eqn:Hs.
  - apply Permutation_nil_l in Hperm. destruct (days_of to_datetime df) as [|x l] eqn:Ex; [done|].
    assert (Hx : x ∈ days_of to_datetime df) by (rewrite Ex; left).
    apply elem_of_days_of in Hx as (row & d & Hrow & Hd & _).
    assert (Hd' : (d, Dimension row) ∈ dated) by (apply Hin; by exists row).
    rewrite <- Hperm in Hd'. by apply elem_of_nil in Hd'.
  - apply ComparisonFacts.descending_head in Hsorted. rewrite Forall_forall in Hsorted.
    assert (Hd : (d, dim) ∈ dated) by (rewrite <- Hperm; left).
    apply Hin in Hd as (row & Hrow & Hd & <-).
    exists row, d. repeat split; try done.
    intros row' d' Hrow' Hd'.
    assert (H' : (d', Dimension row') ∈ (d, Dimension row) :: rest)
      by (rewrite Hperm; apply Hin; by exists row').
    apply (Hsorted _ H').
Qed.

(** The table of a frame that has a dated row, and its picture. *)
Lemma table_of_dated df :
  days_of to_datetime df <> [] ->
  exists table_data available_columns,
    table_data_of (columns (set_Date_dt to_datetime df)) (days_of to_datetime df) =
      Some (table_data, available_columns) /\
    is_Some (create_visualization table_data available_columns).
Proof.
  intros Hne.
  destruct (create_table_data_shape to_datetime [df] 0%nat df eq_refl Hne)
    as (newest & others & earlier & _ & Hearlier & Hrun).
  rewrite (create_table_data_run to_datetime [df] 0%nat df eq_refl) in Hrun.
  cbv zeta in Hrun. cbn [fmap option_fmap option_map fst] in Hrun.
  apply (inj Some) in Hrun. rewrite Hrun.
  destruct (shown_columns_Date df) as (rest & Hcols).
  eexists _, _. split; [reflexivity|].
  rewrite create_visualization_styles; [done|by rewrite Hcols|].
  rewrite Hcols, !Forall_app. repeat split.
  - apply Forall_forall. intros row Hrow.
    by apply list_elem_of_fmap in Hrow as (x & -> & _).
  - by repeat constructor.
  - rewrite Hcols in Hearlier. eapply Forall_impl; [exact Hearlier|].
    by intros row (y & m & md & ->).
  - by repeat constructor.
Qed.

(** A call of [create_bd_report], step by step. *)
Lemma create_bd_report_run (st : list DataFrame) r df output_dir :
  st !! r = Some df ->
  create_bd_report to_datetime r output_dir st =
  match table_data_of (columns (set_Date_dt to_datetime df)) (days_of to_datetime df),
        newest_dimension (set_Date_dt to_datetime df) with
  | Some (table_data, available_columns), Some dimension =>
      match create_visualization table_data available_columns with
      | Some _ => Some (report_path output_dir dimension,
                        <[r := set_Date_dt to_datetime df]> st)
      | None => None
      end
  | _, _ => None
  end.
Proof.
  intros Hr. unfold create_bd_report.
  rewrite (bind_run _ _ _ _ _ (create_table_data_run to_datetime st r df Hr)).
  assert (Hr' : <[r := set_Date_dt to_datetime df]> st !! r = Some (set_Date_dt to_datetime df))
    by (apply list_lookup_insert_eq; by eapply lookup_lt_Some).
  rewrite (bind_run _ _ _ _ _ (read_run _ _ _ Hr')).
  destruct (table_data_of _ _) as [[table_data available_columns]|]; [|done].
  destruct (newest_dimension _) as [dimension|]; [|done].
  destruct (create_visualization _ _); [|done].
  unfold report_path. by destruct (names_of dimension).
Qed.

End Drawing.

End ReportFacts.

Section ReportProperties.
Import Text Calendar Generator Store Reports Notions FrameFacts RollupFacts
       StoreFacts ReportFacts.
Variable to_datetime : string -> option date.

(** X15.  [create_bd_report] needs a date.  On a frame in which no date
    parses the call raises: [create_table_data] then returns a tuple of
    four [None]s, which the test [result is None] does not catch, and
    [create_visualization] fails on [len(None)].  On any other frame the
    call draws the picture, leaves the column [Date_dt] in the frame of
    the caller, and returns the path that [save_report] makes from the
    names in the dimension of a row with the newest date. *)
Theorem bd_report_needs_a_date (st : list DataFrame) r df output_dir :
  st !! r = Some df ->
  let undated := Forall (fun row => to_datetime (Date row) = None) (rows df) in
  (undated -> create_bd_report to_datetime r output_dir st = None) /\
  (~ undated ->
   exists row d,
     row ∈ rows df /\ to_datetime (Date row) = Some d /\
     (forall row' d', row' ∈ rows df -> to_datetime (Date row') = Some d' ->
                      (ordinal d' <= ordinal d)%Z) /\
     create_bd_report to_datetime r output_dir st =
       Some (report_path output_dir (Dimension row),
             <[r := set_Date_dt to_datetime df]> st)).
Proof.
  intros Hr undated. unfold undated. rewrite <- ShapeFacts.days_of_nil.
  rewrite (create_bd_report_run to_datetime st r df output_dir Hr). split.
  - intros ->. done.
  - intros Hne.
    destruct (newest_dimension_spec to_datetime df Hne) as (row & d & Hrow & Hd & Hmax & ->).
    destruct (table_of_dated to_datetime df Hne) as (tbl & cols & -> & [styles ->]).
    by exists row, d.
Qed.

End ReportProperties.

Section ReportSamples.
Import Calendar Generator Store Reports Notions.

Lemma bd_report_needs_a_date_witness :
  let undated :=
    Forall (fun row => Sample.to_datetime (Date row) = None) (rows Sample.bd_frame) in
  (undated ->
   create_bd_report Sample.to_datetime 0%nat "bd_reports" [Sample.bd_frame] = None) /\
  (~ undated ->
   exists row d,
     row ∈ rows Sample.bd_frame /\ Sample.to_datetime (Date row) = Some d /\
     (forall row' d', row' ∈ rows Sample.bd_frame ->
                      Sample.to_datetime (Date row') = Some d' ->
                      (ordinal d' <= ordinal d)%Z) /\
     create_bd_report Sample.to_datetime 0%nat "bd_reports" [Sample.bd_frame] =
       Some (report_path "bd_reports" (Dimension row),
             <[0%nat := set_Date_dt Sample.to_datetime Sample.bd_frame]> [Sample.bd_frame])).
Proof.
  apply (bd_report_needs_a_date Sample.to_datetime [Sample.bd_frame] 0%nat Sample.bd_frame
           "bd_reports").
  reflexivity.
Defined.

End ReportSamples.

Module BatchFacts.
Import Text Calendar Generator Store Reports Notions FrameFacts RollupFacts
       StoreFacts OrderFacts AggregateRows GroupFacts ReportFacts.

(** ** Loops in the store *)

Section Loop.
Context {F A B : Type}.
Implicit Types (body : A -> State F B) (st : list F).



End Loop.




(** ** The groups of the supervisors *)




(** ** The frame of one dimension *)

Section Drawing.
Variable to_datetime : string -> option date.





End Drawing.

End BatchFacts.

Section BatchProperties.
Import Text Calendar Generator Store Reports Notions FrameFacts RollupFacts
       StoreFacts OrderFacts AggregateRows GroupFacts ReportFacts BatchFacts.
Variable to_datetime : string -> option date.


End BatchProperties.

Section BatchSamples.
Import Calendar Generator Store Reports Notions.


End BatchSamples.

Module DanglingFacts.
Import Text Generator Reports Notions LabelFacts KeyFacts NameFacts.

Abbreviation hyphen := ("-"%char).
Abbreviation space := (" "%char).

Lemma starts_with_elem p l c : starts_with p l = true -> c ∈ p -> c ∈ l.
Proof.
  revert l. induction p as [|a p IH]; intros l H Hc.
  - by apply elem_of_nil in Hc.
  - destruct l as [|b l]; [done|]. apply starts_with_cons in H as [<- H].
    apply elem_of_cons in Hc as [->|Hc]; [left|right; by apply IH].
Qed.

(** A text with a single hyphen has no occurrence of a pattern with
    two. *)
Lemma replace_one_hyphen new a b :
  hyphen ∉ a -> hyphen ∉ b ->
  replace_chars (chars " -  - ") new (a ++ hyphen :: b) 0 = a ++ hyphen :: b.
Proof.
  intros Ha Hb. induction a as [|c a IH].
  - change ([] ++ hyphen :: b) with (hyphen :: b).
    cbn [replace_chars chars String.list_ascii_of_string].
    assert (E : starts_with (chars " -  - ") (hyphen :: b) = false) by done.
    cbn [chars String.list_ascii_of_string] in E. rewrite E. f_equal.
    by apply (replace_chars_id space).
  - apply not_elem_of_cons in Ha as [Hc Ha].
    change ((c :: a) ++ hyphen :: b) with (c :: a ++ hyphen :: b).
    cbn [replace_chars chars String.list_ascii_of_string].
    assert (E : starts_with (chars " -  - ") (c :: a ++ hyphen :: b) = false).
    { apply not_true_is_false. intros H.
      cbn [chars String.list_ascii_of_string] in H.
      apply starts_with_cons in H as [_ H].
      destruct a as [|x a].
      - cbn [app] in H. apply starts_with_cons in H as [_ H].
        apply Hb, (starts_with_elem _ _ _ H). by apply (bool_decide_unpack _).
      - cbn [app] in H. apply starts_with_cons in H as [<- _]. apply Ha. left. }
    cbn [chars String.list_ascii_of_string] in E. rewrite E. f_equal. by apply IH.
Qed.

(** A text without a hyphen has no occurrence of a pattern with one. *)
Lemma contains_hyphen p1 p l :
  hyphen ∉ l -> contains_chars (p1 :: hyphen :: p) l = false.
Proof.
  induction l as [|c l IH]; [done|]. intros H.
  apply not_elem_of_cons in H as [_ H]. cbn [contains_chars].
  by rewrite no_match, IH.
Qed.

(** The separator needs a character after its hyphen. *)
Lemma contains_trailing a :
  hyphen ∉ a -> contains_chars (chars " - ") (a ++ [space; hyphen]) = false.
Proof.
  intros Ha. induction a as [|c a IH]; [done|].
  apply not_elem_of_cons in Ha as [Hc Ha].
  change ((c :: a) ++ [space; hyphen]) with (c :: a ++ [space; hyphen]).
  cbn [contains_chars]. rewrite (IH Ha), orb_false_r.
  apply not_true_is_false. intros H.
  cbn [chars String.list_ascii_of_string] in H.
  apply starts_with_cons in H as [_ H].
  destruct a as [|x a].
  - cbn [app] in H. by apply starts_with_cons in H as [? _].
  - cbn [app] in H. apply starts_with_cons in H as [<- _]. apply Ha. left.
Qed.

Lemma contains_leading b :
  hyphen ∉ b -> contains_chars (chars " - ") (hyphen :: space :: b) = false.
Proof.
  intros Hb. change (chars " - ") with (space :: hyphen :: [space]).
  cbn [contains_chars].
  rewrite (contains_hyphen space [space] b Hb).
  by rewrite (no_match space [space] space b Hb).
Qed.

(** What line 104 leaves of a key with an empty side. *)
Lemma strip_right_empty d :
  d <> [] -> trimmed d ->
  rev (lstrip (rev (lstrip (d ++ chars " - ")))) = d ++ [space; hyphen].
Proof.
  intros Hne [Hh _]. rewrite (lstrip_id (d ++ chars " - ")).
  - rewrite rev_app_distr.
    change (lstrip (rev (chars " - ") ++ rev d)) with (hyphen :: space :: rev d).
    cbn [rev]. rewrite rev_involutive. by rewrite <- !app_assoc.
  - destruct d as [|c d]; [done|]. exact Hh.
Qed.

Lemma strip_left_empty b :
  b <> [] -> trimmed b ->
  rev (lstrip (rev (lstrip (chars " - " ++ b)))) = hyphen :: space :: b.
Proof.
  intros Hne [_ Hl].
  change (lstrip (chars " - " ++ b)) with (hyphen :: space :: b).
  rewrite (lstrip_id (rev (hyphen :: space :: b))); [by rewrite rev_involutive|].
  intros c. change (hyphen :: space :: b) with ([hyphen; space] ++ b).
  rewrite rev_app_distr. destruct (rev b) as [|z zs] eqn:E.
  - apply (f_equal (@rev ascii)) in E. rewrite rev_involutive in E. done.
  - intros [= <-]. apply Hl. rewrite <- (rev_involutive b), E. cbn [rev].
    by rewrite last_snoc.
Qed.

End DanglingFacts.

Section DanglingProperties.
Import Text Generator Reports Notions LabelFacts KeyFacts NameFacts SpaceFacts
       DanglingFacts.

(** X17.  A key with an empty side loses its supervisor.  When one of
    the two levels is empty and the other is a name without a hyphen and
    without white space (of ASCII or of the rest of Unicode) at its
    ends, the key keeps a dangling separator
    ([name -] or [- name]), in which the report code finds no
    [" - "]: the whole key is taken for the business name, the
    supervisor is empty, and [group_by_supervisor] files the key under
    Other, also when the name is that of the supervisor. *)
Theorem one_sided_key_loses_its_supervisor (name : string) :
  name <> "" -> stripped (chars name) -> hyphen ∉ chars name ->
  (dimension_key name "" = (name ++ " -")%string /\
   names_of (dimension_key name "") = ((name ++ " -")%string, "") /\
   supervisor_of (dimension_key name "") = "Other") /\
  (dimension_key "" name = ("- " ++ name)%string /\
   names_of (dimension_key "" name) = (("- " ++ name)%string, "") /\
   supervisor_of (dimension_key "" name) = "Other").
Proof.
  intros Hne Ht Hh. apply stripped_trimmed in Ht. apply chars_nonempty in Hne. split.
  - assert (Hkey : dimension_key name "" = (name ++ " -")%string).
    { rewrite dimension_key_stripped. unfold strip.
      rewrite !chars_app. change (chars "") with (@nil ascii). rewrite app_nil_r.
      rewrite strip_right_empty by done.
      rewrite replace_text, chars_text by done.
      change (chars name ++ [space; hyphen]) with (chars name ++ [space] ++ hyphen :: []).
      rewrite app_assoc, replace_one_hyphen.
      - rewrite <- app_assoc. change ([space] ++ [hyphen]) with (chars " -").
        by rewrite <- chars_app, text_of_chars.
      - rewrite elem_of_app. intros [?|H]; [done|]. revert H.
        by apply (bool_decide_unpack _).
      - apply not_elem_of_nil. }
    rewrite Hkey. split; [done|].
    assert (Hc : contains " - " (name ++ " -") = false).
    { unfold contains. rewrite chars_app. by apply contains_trailing. }
    unfold names_of, supervisor_of. by rewrite Hc.
  - assert (Hkey : dimension_key "" name = ("- " ++ name)%string).
    { rewrite dimension_key_stripped. unfold strip.
      change (chars ("" ++ " - " ++ name)) with (chars (" - " ++ name)).
      rewrite chars_app, strip_left_empty by done.
      rewrite replace_text, chars_text by done.
      rewrite (replace_one_hyphen _ [] (space :: chars name)).
      - change ([] ++ hyphen :: space :: chars name) with (chars "- " ++ chars name).
        by rewrite <- chars_app, text_of_chars.
      - apply not_elem_of_nil.
      - by apply not_elem_of_cons. }
    rewrite Hkey. split; [done|].
    assert (Hc : contains " - " ("- " ++ name) = false).
    { unfold contains. rewrite chars_app. by apply contains_leading. }
    unfold names_of, supervisor_of. by rewrite Hc.
Qed.

End DanglingProperties.

Section DanglingSamples.
Import Text Generator Reports Notions.

Lemma one_sided_key_loses_its_supervisor_witness :
  (dimension_key "Alice" "" = "Alice -" /\
   names_of (dimension_key "Alice" "") = ("Alice -", "") /\
   supervisor_of (dimension_key "Alice" "") = "Other") /\
  (dimension_key "" "Alice" = "- Alice" /\
   names_of (dimension_key "" "Alice") = ("- Alice", "") /\
   supervisor_of (dimension_key "" "Alice") = "Other").
Proof.
  apply (one_sided_key_loses_its_supervisor "Alice").
  - done.
  - vm_compute. repeat constructor.
  - apply (bool_decide_unpack _). by vm_compute.
Defined.

End DanglingSamples.

Module MarkFacts.
Import Text Generator Reports Notions LabelFacts KeyFacts NameFacts.

(** ** Where a pattern can occur

    [p] is a pattern none of whose characters is in [new]. *)
Section Pattern.
Variables (p new : list ascii).
Hypothesis apart : Forall (fun c => c ∉ new) p.
Hypothesis some_char : p <> [].

Lemma starts_with_prefix l post :
  starts_with p l = true -> starts_with p (l ++ post) = true.
Proof.
  clear apart some_char. revert l. induction p as [|a q IH]; intros l H; [done|].
  destruct l as [|b l]; [done|]. apply starts_with_cons in H as [<- H].
  cbn [app starts_with]. rewrite Ascii.eqb_refl. by apply IH.
Qed.

Lemma contains_prefix l post :
  contains_chars p l = true -> contains_chars p (l ++ post) = true.
Proof.
  induction l as [|c l IH].
  - cbn [contains_chars]. rewrite orb_false_r. intros H.
    apply starts_with_nil in H. done.
  - cbn [app contains_chars]. rewrite !orb_true_iff. intros [H|H].
    + left. by apply (starts_with_prefix (c :: l)).
    + right. by apply IH.
Qed.

Lemma contains_suffix pre l :
  contains_chars p l = true -> contains_chars p (pre ++ l) = true.
Proof.
  intros H. induction pre as [|c pre IH]; [done|].
  cbn [app contains_chars]. rewrite IH. apply orb_true_r.
Qed.

(** No occurrence begins in [new]. *)
Lemma starts_with_new l :
  new <> [] -> starts_with p (new ++ l) = false.
Proof.
  intros Hnew. destruct p as [|a q]; [done|]. destruct new as [|n new']; [done|].
  apply Forall_cons in apart as [Ha _]. apply not_true_is_false. intros H.
  apply starts_with_cons in H as [-> _]. apply Ha. left.
Qed.

Lemma contains_after_new l :
  contains_chars p (new ++ l) = true -> contains_chars p l = true.
Proof.
  destruct p as [|a q]; [done|]. apply Forall_cons in apart as [Ha _].
  clear some_char. induction new as [|n new' IH]; [done|].
  cbn [app contains_chars]. rewrite orb_true_iff. intros [H|H].
  - apply starts_with_cons in H as [-> _]. exfalso. apply Ha. left.
  - apply IH; [|done]. intros Hin. apply Ha. by right.
Qed.

(** An occurrence that begins before [new] ends before it. *)
Lemma starts_with_before l post :
  new <> [] -> starts_with p (l ++ new ++ post) = true -> starts_with p l = true.
Proof.
  intros Hnew. clear some_char. revert l.
  induction p as [|a q IH]; intros l H; [done|].
  apply Forall_cons in apart as [Ha Hq].
  destruct l as [|b l].
  - destruct new as [|n new']; [done|].
    apply starts_with_cons in H as [-> _]. exfalso. apply Ha. left.
  - cbn [app] in H. apply starts_with_cons in H as [<- H].
    cbn [starts_with]. rewrite Ascii.eqb_refl. by apply IH.
Qed.

Lemma contains_joined_sides l post :
  new <> [] ->
  contains_chars p (l ++ new ++ post) = true ->
  contains_chars p l = true \/ contains_chars p post = true.
Proof.
  intros Hnew. induction l as [|c l IH].
  - intros H. right. by apply contains_after_new.
  - cbn [app contains_chars]. rewrite !orb_true_iff. intros [H|H].
    + left. left. by apply (starts_with_before (c :: l) post).
    + destruct (IH H) as [?|?]; [left; by right|by right].
Qed.

(** Replacing by [new] makes no new occurrence. *)
Lemma starts_with_replaced old l :
  new <> [] ->
  starts_with p (replace_chars old new l 0) = true -> starts_with p l = true.
Proof.
  intros Hnew. clear some_char. revert l.
  induction p as [|a q IH]; intros l H; [done|].
  apply Forall_cons in apart as [Ha Hq].
  destruct l as [|b l]; [done|]. cbn [replace_chars] in H.
  destruct (starts_with old (b :: l)).
  - destruct new as [|n new']; [done|].
    apply starts_with_cons in H as [-> _]. exfalso. apply Ha. left.
  - apply starts_with_cons in H as [<- H].
    cbn [starts_with]. rewrite Ascii.eqb_refl. by apply IH.
Qed.

Lemma contains_replaced old l skip :
  new <> [] ->
  contains_chars p (replace_chars old new l skip) = true -> contains_chars p l = true.
Proof.
  intros Hnew. revert skip. induction l as [|b l IH]; intros skip; [done|].
  cbn [replace_chars]. destruct skip as [|k].
  - destruct (starts_with old (b :: l)) eqn:E.
    + intros H. apply contains_after_new, IH in H.
      cbn [contains_chars]. rewrite H. apply orb_true_r.
    + cbn [contains_chars]. rewrite !orb_true_iff. intros [H|H].
      * left. apply (starts_with_replaced old (b :: l) Hnew).
        cbn [replace_chars]. by rewrite E.
      * right. by apply (IH 0%nat).
  - intros H. apply IH in H. cbn [contains_chars]. rewrite H. apply orb_true_r.
Qed.

End Pattern.

Lemma lstrip_suffix l : exists pre, l = pre ++ lstrip l.
Proof.
  induction l as [|c l [pre IH]]; [by exists []|].
  cbn [lstrip]. destruct (is_space c); [|by exists []].
  exists (c :: pre). cbn [app]. by rewrite <- IH.
Qed.

Lemma contains_strip p l :
  p <> [] ->
  contains_chars p (rev (lstrip (rev (lstrip l)))) = true -> contains_chars p l = true.
Proof.
  intros Hp H. destruct (lstrip_suffix l) as [pre E].
  destruct (lstrip_suffix (rev (lstrip l))) as [post E'].
  apply (f_equal (@rev ascii)) in E'. rewrite rev_involutive, rev_app_distr in E'.
  rewrite E, E'. apply contains_suffix. by apply contains_prefix.
Qed.

(** The mark has neither a space nor a hyphen, so that the key has it
    only when one of the two levels has it. *)
Lemma mark_in_key (director bd_name : string) :
  contains "离职" (dimension_key director bd_name) = true ->
  contains "离职" director = true \/ contains "离职" bd_name = true.
Proof.
  assert (Hapart : Forall (fun c => c ∉ chars " - ") (chars "离职")).
  { apply Forall_forall. intros c Hc Hin. revert Hc.
    assert (H : Forall (fun c => c ∉ chars "离职") (chars " - ")).
    { repeat constructor; by apply (bool_decide_unpack _). }
    rewrite Forall_forall in H. by apply H. }
  assert (Hmark : chars "离职" <> []) by done.
  rewrite dimension_key_stripped. unfold contains.
  rewrite replace_text, chars_text by done. intros H.
  apply (contains_replaced _ _ Hapart Hmark) in H; [|done].
  unfold strip in H. rewrite chars_text in H.
  apply contains_strip in H; [|done]. rewrite !chars_app in H.
  by apply (contains_joined_sides _ _ Hapart Hmark) in H.
Qed.

End MarkFacts.

Module ProcessFacts.
Import Text Generator Store Reports Notions StoreFacts MarkFacts.

Section Cleaning.
Variable to_numeric : string -> option Q.
Variable str_of_number : Q -> string.

Abbreviation clean := (clean_numeric_columns to_numeric str_of_number).
Abbreviation level := (Generator.level str_of_number).
Abbreviation set_director :=
  (setitem "商务总监" (fun r => Generator.Text (level (raw_cell r "商务总监")))).
Abbreviation set_bd :=
  (setitem "商务BD" (fun r => Generator.Text (level (raw_cell r "商务BD")))).
Abbreviation set_dimension :=
  (setitem "dimension" (fun r =>
     Generator.Text (dimension_key (astype_str str_of_number (raw_cell r "商务总监"))
                                   (astype_str str_of_number (raw_cell r "商务BD"))))).

(** The cleaning loop, cell by cell: a numeric column that the frame has
    holds numbers afterwards, and the other cells are as they were. *)
Lemma clean_cells cols df :
  let step := fun (df : RawFrame) col =>
    if bool_decide (col ∈ raw_columns df)
    then setitem col (fun r => clean_cell to_numeric str_of_number (raw_cell r col)) df
    else df in
  exists h : gmap string raw -> gmap string raw,
    raw_rows (foldl step df cols) = map h (raw_rows df) /\
    forall row col,
      (col ∉ cols -> h row !! col = row !! col) /\
      (col ∈ cols -> col ∈ raw_columns df -> exists q, h row !! col = Some (Number q)).
Proof.
  intros step. revert df. induction cols as [|c cols IH]; intros df.
  - exists id. split; [by rewrite map_id|]. intros row col. split; [done|].
    intros H. by apply elem_of_nil in H.
  - cbn [foldl]. destruct (IH (step df c)) as (h & Hh & Hcells).
    assert (Hcols : raw_columns (step df c) = raw_columns df).
    { unfold step. destruct (bool_decide (c ∈ raw_columns df)) eqn:E; [|done].
      apply bool_decide_eq_true in E. by apply setitem_columns. }
    destruct (decide (c ∈ raw_columns df)) as [Hc|Hc].
    + exists (fun row => h (<[c := clean_cell to_numeric str_of_number (raw_cell row c)]> row)).
      split.
      { rewrite Hh. unfold step. rewrite bool_decide_eq_true_2 by done.
        cbn [setitem raw_rows]. by rewrite map_map. }
      intros row col. split.
      * intros Hcol. apply not_elem_of_cons in Hcol as [Hne Hcol].
        rewrite (proj1 (Hcells _ col) Hcol). by rewrite lookup_insert_ne.
      * intros Hcol Hin. destruct (decide (col ∈ cols)) as [Hin'|Hnin].
        -- apply (Hcells _ col); [done|by rewrite Hcols].
        -- apply elem_of_cons in Hcol as [->|?]; [|done].
           rewrite (proj1 (Hcells _ c) Hnin), lookup_insert_eq. by eexists.
    + exists h. split.
      { rewrite Hh. unfold step. by rewrite bool_decide_eq_false_2. }
      intros row col. split.
      * intros Hcol. apply not_elem_of_cons in Hcol as [_ Hcol]. by apply Hcells.
      * intros Hcol Hin. apply elem_of_cons in Hcol as [->|Hcol]; [done|].
        apply (Hcells _ col); [done|by rewrite Hcols].
Qed.

Lemma clean_numbers df :
  exists h : gmap string raw -> gmap string raw,
    raw_rows (clean df) = map h (raw_rows df) /\
    forall row col,
      (col ∉ numeric_columns -> h row !! col = row !! col) /\
      (col ∈ numeric_columns -> col ∈ raw_columns df ->
       exists q, h row !! col = Some (Number q)).
Proof. exact (clean_cells numeric_columns df). Qed.

(** [fillna('')], cell by cell. *)
Lemma fillna_cells df :
  exists h : gmap string raw -> gmap string raw,
    raw_rows (fillna_empty df) = map h (raw_rows df) /\
    forall row col,
      (col ∈ raw_columns df -> h row !! col = Some (filled (raw_cell row col))) /\
      (col ∉ raw_columns df -> h row !! col = row !! col).
Proof.
  unfold fillna_empty.
  set (step := fun (d : RawFrame) (col : string) => setitem col _ d).
  assert (Hstep : forall d c,
            raw_rows (step d c) =
            map (fun row => <[c := filled (raw_cell row c)]> row) (raw_rows d)).
  { intros d c. unfold step. cbn [setitem raw_rows]. apply map_ext.
    intros row. by destruct (raw_cell row c). }
  clearbody step.
  assert (H : forall cols d,
    exists h : gmap string raw -> gmap string raw,
      raw_rows (foldl step d cols) = map h (raw_rows d) /\
      forall row col,
        (col ∈ cols -> h row !! col = Some (filled (raw_cell row col))) /\
        (col ∉ cols -> h row !! col = row !! col)).
  { induction cols as [|c cols IH]; intros d.
    - exists id. split; [by rewrite map_id|]. intros row col. split; [|done].
      intros H. by apply elem_of_nil in H.
    - cbn [foldl]. destruct (IH (step d c)) as (h & Hh & Hcells).
      exists (fun row => h (<[c := filled (raw_cell row c)]> row)). split.
      { by rewrite Hh, Hstep, map_map. }
      intros row col. split.
      + intros Hcol. destruct (decide (col ∈ cols)) as [Hin|Hnin].
        * rewrite (proj1 (Hcells _ col) Hin). f_equal. unfold raw_cell.
          destruct (decide (col = c)) as [->|Hne].
          -- rewrite lookup_insert_eq. cbn [default from_option id].
             by destruct (default Blank (row !! c)).
          -- by rewrite lookup_insert_ne.
        * apply elem_of_cons in Hcol as [->|?]; [|done].
          by rewrite (proj2 (Hcells _ c) Hnin), lookup_insert_eq.
      + intros Hcol. apply not_elem_of_cons in Hcol as [Hne Hcol].
        rewrite (proj2 (Hcells _ col) Hcol). by rewrite lookup_insert_ne. }
  apply H.
Qed.

Lemma level_filled c : level (filled c) = level c.
Proof. by destruct c. Qed.

Lemma filter_map {A B} (P : B -> Prop) `{!forall y, Decision (P y)} (g : A -> B) l :
  filter P (map g l) = map g (filter (fun x => P (g x)) l).
Proof.
  induction l as [|x l IH]; [done|]. cbn [map]. rewrite !filter_cons.
  destruct (decide (P (g x))); cbn [map]; by rewrite IH.
Qed.

(** What a call of [process_raw_data] returns: the frame and its place
    in the store. *)
Lemma process_raw_data_frame (st : list RawFrame) r df :
  st !! r = Some df ->
  "商务总监" ∈ raw_columns df ->
  "商务BD" ∈ raw_columns df ->
  exists out st',
    process_raw_data to_numeric str_of_number r st = Some (out, st') /\
    st' !! out =
    Some (keep (stays str_of_number "dimension")
            (keep (stays str_of_number "商务BD")
               (keep (stays str_of_number "商务总监")
                  (set_dimension (set_bd (set_director (fillna_empty (clean df)))))))).
Proof.
  intros Hr H1 H2. unfold process_raw_data.
  erewrite bind_run by (by apply update_run).
  assert (Hr' : <[r := clean df]> st !! r = Some (clean df))
    by (apply list_lookup_insert_eq; by eapply lookup_lt_Some).
  erewrite bind_run by (by apply read_run).
  erewrite bind_run by reflexivity.
  set (st1 := <[r := clean df]> st).
  erewrite bind_run by (apply read_run, lookup_last).
  rewrite bool_decide_eq_true_2
    by (by rewrite fillna_columns, clean_columns).
  erewrite bind_run by (apply update_run, lookup_last). rewrite insert_last.
  erewrite bind_run by (apply update_run, lookup_last). rewrite insert_last.
  erewrite bind_run by (apply update_run, lookup_last). rewrite insert_last.
  erewrite bind_run by (apply read_run, lookup_last).
  erewrite bind_run by reflexivity.
  erewrite bind_run by (apply read_run, lookup_last).
  erewrite bind_run by reflexivity.
  erewrite bind_run by (apply read_run, lookup_last).
  erewrite bind_run by reflexivity.
  unfold ret. eexists _, _. split; [reflexivity|]. apply lookup_last.
Qed.

(** The three columns that lines 101-106 write, in a row. *)
Lemma keyed_cells (row : gmap string raw) :
  let keyed := keyed_row str_of_number in
  keyed row !! "商务总监" = Some (Generator.Text (level (raw_cell row "商务总监"))) /\
  keyed row !! "商务BD" = Some (Generator.Text (level (raw_cell row "商务BD"))) /\
  keyed row !! "dimension" =
    Some (Generator.Text (dimension_key (level (raw_cell row "商务总监"))
                                        (level (raw_cell row "商务BD")))) /\
  forall col, col ∉ ["商务总监"; "商务BD"; "dimension"] -> keyed row !! col = row !! col.
Proof.
  intros keyed. unfold keyed, keyed_row. cbv zeta.
  set (r1 := <["商务总监" := _]> row). set (r2 := <["商务BD" := _]> r1).
  assert (E1 : raw_cell r2 "商务总监" = Generator.Text (level (raw_cell row "商务总监"))).
  { unfold raw_cell, r2, r1. rewrite lookup_insert_ne by done.
    by rewrite lookup_insert_eq. }
  assert (E2 : raw_cell r2 "商务BD" = Generator.Text (level (raw_cell row "商务BD"))).
  { unfold raw_cell at 1. unfold r2. rewrite lookup_insert_eq. cbn [default from_option id].
    do 2 f_equal. unfold raw_cell, r1. by rewrite lookup_insert_ne. }
  repeat split.
  - rewrite lookup_insert_ne by done. unfold r2. rewrite lookup_insert_ne by done.
    unfold r1. by rewrite lookup_insert_eq.
  - rewrite lookup_insert_ne by done. unfold r2. rewrite lookup_insert_eq.
    do 3 f_equal. unfold raw_cell, r1. by rewrite lookup_insert_ne.
  - rewrite lookup_insert_eq, E1, E2. done.
  - intros col Hcol. rewrite !not_elem_of_cons in Hcol. destruct Hcol as (H1 & H2 & H3 & _).
    rewrite lookup_insert_ne by done. unfold r2. rewrite lookup_insert_ne by done.
    unfold r1. by rewrite lookup_insert_ne.
Qed.

Lemma filter_ext_iff {A} (P Q : A -> Prop) `{!forall x, Decision (P x)}
    `{!forall x, Decision (Q x)} (l : list A) :
  (forall x, P x <-> Q x) -> filter P l = filter Q l.
Proof.
  intros Hiff. induction l as [|x l IH]; [done|]. rewrite !filter_cons, IH.
  destruct (decide (P x)) as [HP|HP], (decide (Q x)) as [HQ|HQ]; try done.
  - by apply Hiff in HP.
  - by apply Hiff in HQ.
Qed.

(** The frame after lines 101-106, and after the three filters. *)
Lemma keyed_frame_rows f :
  raw_rows (set_dimension (set_bd (set_director f))) =
  map (keyed_row str_of_number) (raw_rows f).
Proof.
  cbn [setitem raw_rows]. rewrite !map_map. apply map_ext. intros row.
  unfold keyed_row. reflexivity.
Qed.

Lemma keyed_frame_columns f :
  "商务总监" ∈ raw_columns f -> "商务BD" ∈ raw_columns f ->
  raw_columns (set_dimension (set_bd (set_director f))) =
  (if bool_decide ("dimension" ∈ raw_columns f) then raw_columns f
   else raw_columns f ++ ["dimension"]).
Proof.
  intros Hd Hb.
  assert (E1 : raw_columns (set_director f) = raw_columns f)
    by by apply setitem_columns.
  assert (E2 : raw_columns (set_bd (set_director f)) = raw_columns f)
    by (rewrite setitem_columns; [done|by rewrite E1]).
  unfold setitem at 1. cbn [raw_columns]. by rewrite E2.
Qed.

Lemma kept_rows (f : RawFrame) :
  raw_rows (keep (stays str_of_number "dimension")
              (keep (stays str_of_number "商务BD")
                 (keep (stays str_of_number "商务总监") f))) =
  filter (fun r => stays str_of_number "dimension" r = true)
    (filter (fun r => stays str_of_number "商务BD" r = true)
       (filter (fun r => stays str_of_number "商务总监" r = true) (raw_rows f))).
Proof. reflexivity. Qed.

Lemma kept_columns (f : RawFrame) :
  raw_columns (keep (stays str_of_number "dimension")
                 (keep (stays str_of_number "商务BD")
                    (keep (stays str_of_number "商务总监") f))) = raw_columns f.
Proof. reflexivity. Qed.

Lemma not_numeric col :
  col ∈ ["商务总监"; "商务BD"; "dimension"] -> col ∉ numeric_columns.
Proof.
  rewrite !elem_of_cons, elem_of_nil.
  intros [->|[->|[->|[]]]]; apply (bool_decide_unpack _); by vm_compute.
Qed.

End Cleaning.

End ProcessFacts.

Section ProcessProperties.
Import Text Generator Store Reports Notions StoreFacts MarkFacts ProcessFacts.
Variable to_numeric : string -> option Q.
Variable str_of_number : Q -> string.

(** X18.  What [process_raw_data] returns.  The call raises a
    [KeyError] when the frame lacks one of the two level columns.
    Otherwise the frame returned has the columns of the input and the
    column [dimension]; its rows are those of the input, in their order,
    whose two levels are free of the mark 离职 (the third filter, on the
    key, drops nothing that the first two have kept, for the mark has
    neither a space nor a hyphen); in each of them the two level columns
    hold the cleaned levels, [dimension] holds their key, every numeric
    column that the input has holds a number, and no cell is missing. *)
Theorem departed_rows_dropped (st : list RawFrame) r df :
  st !! r = Some df ->
  let present := "商务总监" ∈ raw_columns df /\ "商务BD" ∈ raw_columns df in
  (~ present -> process_raw_data to_numeric str_of_number r st = None) /\
  (present ->
   exists out st' f finish,
     process_raw_data to_numeric str_of_number r st = Some (out, st') /\
     st' !! out = Some f /\
     raw_columns f =
       (if bool_decide ("dimension" ∈ raw_columns df) then raw_columns df
        else raw_columns df ++ ["dimension"]) /\
     raw_rows f =
       map finish (filter (fun row => ~ departed str_of_number row) (raw_rows df)) /\
     forall row,
       finish row !! "商务总监" =
         Some (Generator.Text (level_of str_of_number row "商务总监")) /\
       finish row !! "商务BD" =
         Some (Generator.Text (level_of str_of_number row "商务BD")) /\
       finish row !! "dimension" =
         Some (Generator.Text (dimension_key (level_of str_of_number row "商务总监")
                                             (level_of str_of_number row "商务BD"))) /\
       (forall col, col ∈ numeric_columns -> col ∈ raw_columns df ->
                    exists q, finish row !! col = Some (Number q)) /\
       (forall col, col ∈ raw_columns f ->
                    exists c, finish row !! col = Some c /\ c <> Blank)).
Proof.
  intros Hr present. split.
  - intros Hno. unfold process_raw_data.
    erewrite bind_run by (by apply update_run).
    assert (Hr' : <[r := clean_numeric_columns to_numeric str_of_number df]> st !! r =
                  Some (clean_numeric_columns to_numeric str_of_number df))
      by (apply list_lookup_insert_eq; by eapply lookup_lt_Some).
    erewrite bind_run by (by apply read_run).
    erewrite bind_run by reflexivity.
    erewrite bind_run by (apply read_run, lookup_last).
    rewrite bool_decide_eq_false_2; [done|].
    by rewrite fillna_columns, clean_columns.
  - intros [Hd Hb].
    destruct (process_raw_data_frame to_numeric str_of_number st r df Hr Hd Hb)
      as (out & st' & Hrun & Hout).
    destruct (clean_numbers to_numeric str_of_number df) as (hc & Hhc & Hclean).
    set (cleaned := clean_numeric_columns to_numeric str_of_number df) in *.
    destruct (fillna_cells cleaned) as (hf & Hhf & Hfill).
    assert (Hcols : raw_columns (fillna_empty cleaned) = raw_columns df)
      by (unfold cleaned; by rewrite fillna_columns, clean_columns).
    assert (Hcols' : raw_columns cleaned = raw_columns df) by apply clean_columns.
    set (finish := fun row => keyed_row str_of_number (hf (hc row))).
    assert (Hn1 : "商务总监" ∉ numeric_columns)
      by (apply (bool_decide_unpack _); by vm_compute).
    assert (Hn2 : "商务BD" ∉ numeric_columns)
      by (apply (bool_decide_unpack _); by vm_compute).
    (* the cells of a finished row *)
    assert (Hraw : forall row col, col ∈ raw_columns df -> col ∉ numeric_columns ->
              raw_cell (hf (hc row)) col = filled (raw_cell row col)).
    { intros row col Hcol Hnum. unfold raw_cell at 1.
      rewrite (proj1 (Hfill _ col)) by by rewrite Hcols'.
      cbn [default from_option id]. f_equal. unfold raw_cell.
      by rewrite (proj1 (Hclean row col)). }
    assert (Hcells : forall row,
       finish row !! "商务总监" =
         Some (Generator.Text (level_of str_of_number row "商务总监")) /\
       finish row !! "商务BD" =
         Some (Generator.Text (level_of str_of_number row "商务BD")) /\
       finish row !! "dimension" =
         Some (Generator.Text (dimension_key (level_of str_of_number row "商务总监")
                                             (level_of str_of_number row "商务BD"))) /\
       forall col, col ∉ ["商务总监"; "商务BD"; "dimension"] ->
                   finish row !! col = hf (hc row) !! col).
    { intros row. destruct (keyed_cells str_of_number (hf (hc row))) as (K1 & K2 & K3 & K4).
      cbv zeta in K1, K2, K3, K4. unfold finish, level_of.
      rewrite K1, K2, K3, !Hraw, !level_filled by done.
      done. }
    pose proof (keyed_frame_columns str_of_number (fillna_empty cleaned)) as Hframe.
    rewrite Hcols in Hframe. specialize (Hframe Hd Hb).
    exists out, st'. eexists. exists finish.
    split; [exact Hrun|]. split; [exact Hout|]. split; [|split].
    + rewrite kept_columns. exact Hframe.
    + rewrite kept_rows, keyed_frame_rows, Hhf, Hhc, !map_map.
      fold finish.
      rewrite !filter_map, !list_filter_filter. f_equal.
      apply filter_ext_iff. intros row. unfold stays, departed.
      destruct (Hcells row) as (C1 & C2 & C3 & _). unfold raw_cell.
      rewrite C1, C2, C3. cbn [default from_option id astype_str].
      rewrite !negb_true_iff. split.
      * intros [[_ H2] H1] [H|H]; congruence.
      * intros Hn.
        assert (H1 : contains "离职" (level_of str_of_number row "商务总监") = false)
          by (apply not_true_is_false; tauto).
        assert (H2 : contains "离职" (level_of str_of_number row "商务BD") = false)
          by (apply not_true_is_false; tauto).
        repeat split; try done. apply not_true_is_false. intros H.
        apply mark_in_key in H as [H|H]; congruence.
    + intros row. destruct (Hcells row) as (C1 & C2 & C3 & C4).
      repeat split; try done.
      * intros col Hnum Hcol. rewrite C4.
        2: { intros Hin. by apply not_numeric in Hin. }
        rewrite (proj1 (Hfill _ col)) by by rewrite Hcols'.
        destruct (proj2 (Hclean row col) Hnum Hcol) as [q Hq].
        exists q. unfold raw_cell. by rewrite Hq.
      * intros col Hcol. rewrite kept_columns, Hframe in Hcol.
        destruct (decide (col ∈ ["商务总监"; "商务BD"; "dimension"])) as [Hin|Hnin].
        -- rewrite !elem_of_cons, elem_of_nil in Hin.
           destruct Hin as [->|[->|[->|[]]]]; eexists; (split; [eassumption|done]).
        -- rewrite (C4 _ Hnin).
           assert (Hcol' : col ∈ raw_columns df).
           { destruct (bool_decide ("dimension" ∈ raw_columns df)); [done|].
             apply elem_of_app in Hcol as [?|Hdim]; [done|].
             apply list_elem_of_singleton in Hdim as ->. exfalso. apply Hnin.
             right. right. left. }
           rewrite (proj1 (Hfill _ col)) by by rewrite Hcols'.
           eexists. split; [reflexivity|]. by destruct (raw_cell (hc row) col).
Qed.

End ProcessProperties.

Section ProcessSamples.
Import Text Generator Store Reports Notions.

Lemma departed_rows_dropped_witness :
  let df := Sample.key_frame in
  let present := "商务总监" ∈ raw_columns df /\ "商务BD" ∈ raw_columns df in
  (~ present -> process_raw_data Sample.to_numeric Sample.str_of_number 0%nat [df] = None) /\
  (present ->
   exists out st' f finish,
     process_raw_data Sample.to_numeric Sample.str_of_number 0%nat [df] = Some (out, st') /\
     st' !! out = Some f /\
     raw_columns f =
       (if bool_decide ("dimension" ∈ raw_columns df) then raw_columns df
        else raw_columns df ++ ["dimension"]) /\
     raw_rows f =
       map finish (filter (fun row => ~ departed Sample.str_of_number row) (raw_rows df)) /\
     forall row,
       finish row !! "商务总监" =
         Some (Generator.Text (level_of Sample.str_of_number row "商务总监")) /\
       finish row !! "商务BD" =
         Some (Generator.Text (level_of Sample.str_of_number row "商务BD")) /\
       finish row !! "dimension" =
         Some (Generator.Text (dimension_key (level_of Sample.str_of_number row "商务总监")
                                             (level_of Sample.str_of_number row "商务BD"))) /\
       (forall col, col ∈ numeric_columns -> col ∈ raw_columns df ->
                    exists q, finish row !! col = Some (Number q)) /\
       (forall col, col ∈ raw_columns f ->
                    exists c, finish row !! col = Some c /\ c <> Blank)).
Proof.
  apply (departed_rows_dropped Sample.to_numeric Sample.str_of_number
           [Sample.key_frame] 0%nat Sample.key_frame).
  reflexivity.
Defined.

End ProcessSamples.

Module TeamFrameFacts.
Import Text Calendar Generator Store Reports Notions LabelFacts KeyFacts NameFacts
       StyleFacts MarkFacts.

(** Two names without a hyphen, each followed by the separator: one is
    the beginning of the other only when they are the same name. *)
Lemma prefix_same_name (s d rest : list ascii) :
  hyphen ∉ s -> hyphen ∉ d ->
  starts_with (s ++ chars " - ") (d ++ chars " - " ++ rest) = true <-> s = d.
Proof.
  intros Hs Hd. split.
  - revert d Hd. induction s as [|a s IH]; intros d Hd H.
    + destruct d as [|c d]; [done|]. exfalso.
      cbn [app chars String.list_ascii_of_string] in H.
      apply starts_with_cons in H as [_ H].
      destruct d as [|x d]; cbn [app] in H.
      * by apply starts_with_cons in H as [? _].
      * apply starts_with_cons in H as [<- _]. apply Hd. right. left.
    + apply not_elem_of_cons in Hs as [Ha Hs]. destruct d as [|c d].
      * exfalso. cbn [app chars String.list_ascii_of_string] in H.
        apply starts_with_cons in H as [_ H].
        destruct s as [|x s]; cbn [app] in H.
        -- by apply starts_with_cons in H as [? _].
        -- apply starts_with_cons in H as [-> _]. apply Hs. left.
      * apply not_elem_of_cons in Hd as [_ Hd]. cbn [app] in H.
        apply starts_with_cons in H as [-> H]. f_equal. by apply IH.
  - intros <-. rewrite app_assoc. apply starts_with_app.
Qed.

Lemma starts_with_split p l : starts_with p l = true -> exists rest, l = p ++ rest.
Proof.
  revert l. induction p as [|a p IH]; intros l H; [by exists l|].
  destruct l as [|b l]; [done|]. apply starts_with_cons in H as [<- H].
  destruct (IH l H) as [rest ->]. by exists rest.
Qed.

End TeamFrameFacts.

Section TeamFrameProperties.
Import Text Calendar Generator Store Reports Notions LabelFacts KeyFacts NameFacts
       StyleFacts RollupFacts TeamFrameFacts.
Variable to_datetime : string -> option date.

(** X19.  Who is in a team report.  [main] hands to the team report of
    a supervisor the rows whose dimension begins with the name of the
    supervisor and [" - "].  A row whose dimension has no [" - "] is
    filed under Other by [group_by_supervisor] and is in the frame of no
    team, that of Other included; a row whose dimension is a name without
    a hyphen, [" - "] and a second name is in the frame of that name and
    of no other name without a hyphen.  When no dimension begins with
    [Other - ], the frame of the team Other is empty and
    [create_supervisor_report] returns [None] for it. *)
Theorem team_frames_leave_out_other (aggregated_df : DataFrame) :
  let in_team := fun supervisor_name row =>
    row ∈ rows (supervisor_df aggregated_df supervisor_name) in
  Forall (fun row =>
      (contains " - " (Dimension row) = false ->
       supervisor_of (Dimension row) = "Other" /\
       forall supervisor_name, ~ in_team supervisor_name row) /\
      (forall director bd_name supervisor_name,
         hyphen ∉ chars director -> hyphen ∉ chars supervisor_name ->
         Dimension row = (director ++ " - " ++ bd_name)%string ->
         (in_team supervisor_name row <-> supervisor_name = director)))
    (rows aggregated_df) /\
  (Forall (fun row => startswith "Other - " (Dimension row) = false) (rows aggregated_df) ->
   rows (supervisor_df aggregated_df "Other") = [] /\
   forall st : list DataFrame,
     fst <$> create_supervisor_report to_datetime (length st)
               (st ++ [supervisor_df aggregated_df "Other"]) = Some None).
Proof.
  intros in_team. split.
  - apply Forall_forall. intros row Hrow. split.
    + intros Hno. split; [unfold supervisor_of; by rewrite Hno|].
      intros supervisor_name Hin. unfold in_team, supervisor_df in Hin. cbn [rows] in Hin.
      apply list_elem_of_filter in Hin as [Hstart _].
      unfold startswith in Hstart. rewrite chars_app in Hstart.
      assert (Hc : contains " - " (Dimension row) = true); [|congruence].
      unfold contains. apply starts_with_split in Hstart as [rest ->].
      rewrite <- app_assoc. apply contains_app.
    + intros director bd_name supervisor_name Hd Hs Hdim.
      unfold in_team, supervisor_df. cbn [rows].
      rewrite list_elem_of_filter, Hdim. unfold startswith. rewrite !chars_app.
      rewrite prefix_same_name by done. split.
      * intros [H _]. apply (f_equal text) in H. by rewrite !text_of_chars in H.
      * intros ->. done.
  - intros Hnone.
    assert (Hrows : rows (supervisor_df aggregated_df "Other") = []).
    { unfold supervisor_df. cbn [rows]. rewrite Forall_forall in Hnone.
      induction (rows aggregated_df) as [|row l IH]; [done|].
      rewrite filter_cons. destruct (decide _) as [H|_].
      - rewrite Hnone in H by left. done.
      - apply IH. intros x Hx. apply Hnone. by right. }
    split; [done|]. intros st.
    unfold create_supervisor_report, bind, update, read.
    rewrite StoreFacts.lookup_last, StoreFacts.insert_last, StoreFacts.lookup_last.
    rewrite dated_rows_set. unfold days_of. rewrite Hrows. done.
Qed.

End TeamFrameProperties.

Section TeamFrameSamples.
Import Text Calendar Generator Store Reports Notions NameFacts.

Lemma team_frames_leave_out_other_witness :
  let aggregated_df := aggregate Sample.processed in
  let in_team := fun supervisor_name row =>
    row ∈ rows (supervisor_df aggregated_df supervisor_name) in
  Forall (fun row =>
      (contains " - " (Dimension row) = false ->
       supervisor_of (Dimension row) = "Other" /\
       forall supervisor_name, ~ in_team supervisor_name row) /\
      (forall director bd_name supervisor_name,
         hyphen ∉ chars director -> hyphen ∉ chars supervisor_name ->
         Dimension row = (director ++ " - " ++ bd_name)%string ->
         (in_team supervisor_name row <-> supervisor_name = director)))
    (rows aggregated_df) /\
  (Forall (fun row => startswith "Other - " (Dimension row) = false) (rows aggregated_df) ->
   rows (supervisor_df aggregated_df "Other") = [] /\
   forall st : list DataFrame,
     fst <$> create_supervisor_report Sample.to_datetime (length st)
               (st ++ [supervisor_df aggregated_df "Other"]) = Some None).
Proof.
  apply (team_frames_leave_out_other Sample.to_datetime (aggregate Sample.processed)).
Defined.

End TeamFrameSamples.

(* ================================================================== *)
(** * The weeks of the team report                                      *)
(* ================================================================== *)

Module WeekFacts.
Import Calendar Generator Notions.
Local Open Scope Z_scope.

Lemma ordinal_jan1 y : ordinal (mkDate y 1 1) = days_before_year y + 1.
Proof.
  unfold ordinal, days_before_month. cbn [year month day].
  change (Z.to_nat 1) with 1%nat.
  cbn [nth DAYS_BEFORE_MONTH Z.ltb Z.compare Pos.compare Pos.compare_cont andb]. lia.
Qed.

Lemma year_days y :
  days_before_year (y + 1) - days_before_year y = if isleap y then 366 else 365.
Proof.
  unfold days_before_year, isleap. replace (y + 1 - 1) with y by lia.
  destruct (Z.eqb_spec (y mod 4) 0) as [H4|H4];
    destruct (Z.eqb_spec (y mod 100) 0) as [H100|H100];
    destruct (Z.eqb_spec (y mod 400) 0) as [H400|H400]; cbn [andb orb negb];
    revert H4 H100 H400; Z.div_mod_to_equations; lia.
Qed.

Lemma monday_mod y : isoweek1monday y mod 7 = 1.
Proof.
  unfold isoweek1monday. rewrite ordinal_jan1.
  destruct (_ <? _); Z.div_mod_to_equations; lia.
Qed.

Lemma monday_near y :
  days_before_year y - 2 <= isoweek1monday y <= days_before_year y + 4.
Proof.
  unfold isoweek1monday. rewrite ordinal_jan1.
  destruct (Z.ltb_spec 3 ((days_before_year y + 1 + 6) mod 7));
    revert H; Z.div_mod_to_equations; lia.
Qed.

Lemma monday_step y :
  isoweek1monday (y + 1) - isoweek1monday y = 364 \/
  isoweek1monday (y + 1) - isoweek1monday y = 371.
Proof.
  pose proof (monday_mod y). pose proof (monday_mod (y + 1)).
  pose proof (monday_near y). pose proof (monday_near (y + 1)).
  pose proof (year_days y) as Hy. destruct (isleap y);
    revert H H0; Z.div_mod_to_equations; lia.
Qed.

Lemma monday_mono y (n : nat) : isoweek1monday y <= isoweek1monday (y + Z.of_nat n).
Proof.
  induction n as [|n IH]; [by rewrite Z.add_0_r|].
  replace (y + Z.of_nat (S n)) with (y + Z.of_nat n + 1) by lia.
  pose proof (monday_step (y + Z.of_nat n)). lia.
Qed.

Lemma monday_lt y y' : y < y' -> isoweek1monday (y + 1) <= isoweek1monday y'.
Proof.
  intros H. replace y' with (y + 1 + Z.of_nat (Z.to_nat (y' - y - 1))) by lia.
  apply monday_mono.
Qed.

(** A day of the calendar lies within its year. *)
Lemma ordinal_in_year d :
  valid_date d = true ->
  days_before_year (year d) + 1 <= ordinal d <= days_before_year (year d + 1).
Proof.
  unfold valid_date. rewrite !andb_true_iff, !Z.leb_le.
  intros [[[[[_ _] Hm1] Hm2] Hd1] Hd2].
  pose proof (year_days (year d)) as Hy.
  unfold ordinal, days_before_month. unfold days_in_month in Hd2.
  assert (Hm : month d = 1 \/ month d = 2 \/ month d = 3 \/ month d = 4 \/
               month d = 5 \/ month d = 6 \/ month d = 7 \/ month d = 8 \/
               month d = 9 \/ month d = 10 \/ month d = 11 \/ month d = 12) by lia.
  destruct (isleap (year d));
    repeat (destruct Hm as [Hm|Hm]); rewrite Hm in *; simpl in *; lia.
Qed.

(** The ISO year and week of a day of the calendar: the year whose first
    ISO week begins on or before the day and whose successor's begins
    after it, and the number of the week counted from that Monday. *)
Lemma isocalendar_spec d :
  valid_date d = true ->
  let iso := isocalendar d in
  isoweek1monday iso.1 <= ordinal d < isoweek1monday (iso.1 + 1) /\
  iso.2 = (ordinal d - isoweek1monday iso.1) / 7 + 1.
Proof.
  intros Hv. pose proof (ordinal_in_year d Hv) as Ho.
  set (y := year d) in *. set (o := ordinal d) in *.
  pose proof (monday_step (y - 1)) as S0. replace (y - 1 + 1) with y in S0 by lia.
  pose proof (monday_step y) as S1.
  pose proof (monday_step (y + 1)) as S2.
  pose proof (monday_near y) as N1. pose proof (monday_near (y + 1)) as N2.
  pose proof (year_days y) as Hy.
  unfold isocalendar. fold y o. cbv zeta.
  destruct (Z.ltb_spec ((o - isoweek1monday y) / 7) 0) as [Hneg|Hpos].
  - cbn [fst snd]. replace (y - 1 + 1) with y by lia.
    split; [|done]. revert Hneg. Z.div_mod_to_equations.
    destruct (isleap y); lia.
  - destruct (Z.leb_spec 52 ((o - isoweek1monday y) / 7)) as [H52|H52];
      [destruct (Z.leb_spec (isoweek1monday (y + 1)) o) as [Hn|Hn]|]; cbn [andb fst snd].
    + split; [destruct (isleap y); lia|].
      Z.div_mod_to_equations. destruct (isleap y); lia.
    + split; [|done]. revert Hpos. Z.div_mod_to_equations. lia.
    + split; [|done]. revert Hpos H52. Z.div_mod_to_equations. lia.
Qed.

(** Two days of the calendar have the same ISO year and week exactly when
    they lie in the same week, Monday to Sunday. *)
Lemma isocalendar_week a b :
  valid_date a = true -> valid_date b = true ->
  isocalendar a = isocalendar b <-> week_of a = week_of b.
Proof.
  intros Ha Hb.
  destruct (isocalendar_spec a Ha) as [Ha1 Ha2].
  destruct (isocalendar_spec b Hb) as [Hb1 Hb2].
  destruct (isocalendar a) as [ya wa], (isocalendar b) as [yb wb]. cbn [fst snd] in *.
  pose proof (monday_mod ya) as Ma. pose proof (monday_mod yb) as Mb.
  pose proof (monday_mod (ya + 1)) as Ma'. pose proof (monday_mod (yb + 1)) as Mb'.
  unfold week_of. split.
  - intros [= <- <-]. subst wa. revert Ma Hb2. Z.div_mod_to_equations. lia.
  - intros Hw.
    assert (ya = yb) as <-.
    { destruct (Z.lt_trichotomy ya yb) as [Hlt|[?|Hlt]]; [exfalso|done|exfalso].
      - pose proof (monday_lt _ _ Hlt).
        revert Hw Ma' Mb. Z.div_mod_to_equations. lia.
      - pose proof (monday_lt _ _ Hlt).
        revert Hw Ma Mb'. Z.div_mod_to_equations. lia. }
    f_equal. subst wa wb. revert Hw Ma. Z.div_mod_to_equations. lia.
Qed.

(** The ISO week of a day of the calendar is one of 1 to 53, and its
    ISO year is the year of the day, the one before or the one after. *)
Lemma isocalendar_range d :
  valid_date d = true -> 1 <= (isocalendar d).2 <= 53.
Proof.
  intros Hv. destruct (isocalendar_spec d Hv) as [H1 H2].
  pose proof (monday_step (isocalendar d).1).
  rewrite H2. revert H1. Z.div_mod_to_equations. lia.
Qed.

End WeekFacts.

Module WeekKeyFacts.
Import Text Calendar Generator Notions LabelFacts KeyFacts NameFacts StyleFacts WeekFacts.

Lemma str_of_Z_inj a b : str_of_Z a = str_of_Z b -> a = b.
Proof.
  assert (Hnil : forall n, Z.to_int n <> Decimal.Pos Decimal.Nil /\
                           Z.to_int n <> Decimal.Neg Decimal.Nil).
  { intros [|p|p]; simpl; split; try discriminate;
      intros [= H]; by apply (DecimalPos.Unsigned.to_uint_nonnil p). }
  unfold str_of_Z. intros H. apply (f_equal NilZero.int_of_string) in H.
  destruct (Hnil a), (Hnil b). rewrite !NilZero.isi in H by done.
  injection H as H. by apply DecimalZ.to_int_inj.
Qed.

Lemma chars_inj a b : chars a = chars b -> a = b.
Proof. intros H. by rewrite <- (text_of_chars a), <- (text_of_chars b), H. Qed.

(** Two texts that agree and have their first W at the same place. *)
Lemma split_at (c : ascii) a a' b b' :
  c ∉ a -> c ∉ a' -> a ++ c :: b = a' ++ c :: b' -> a = a' /\ b = b'.
Proof.
  revert a'. induction a as [|x a IH]; intros [|x' a'] Ha Ha' H.
  - by injection H.
  - injection H as <- _. exfalso. apply Ha'. left.
  - injection H as -> _. exfalso. apply Ha. left.
  - apply not_elem_of_cons in Ha as [_ Ha], Ha' as [_ Ha'].
    injection H as <- H. destruct (IH _ Ha Ha' H) as [-> ->]. done.
Qed.

Lemma zfill2_inj a b :
  (1 <= a <= 53)%Z -> (1 <= b <= 53)%Z -> zfill2 a = zfill2 b -> a = b.
Proof.
  intros Ha Hb H.
  assert (Hall : forallb (fun i => forallb (fun j =>
             implb (String.eqb (zfill2 (1 + Z.of_nat i)) (zfill2 (1 + Z.of_nat j)))
                   (i =? j)%nat) (seq 0 53)) (seq 0 53) = true) by by vm_compute.
  rewrite forallb_forall in Hall.
  specialize (Hall (Z.to_nat (a - 1))). rewrite forallb_forall in Hall.
  specialize (Hall ltac:(apply in_seq; lia) (Z.to_nat (b - 1)) ltac:(apply in_seq; lia)).
  rewrite !Z2Nat.id in Hall by lia.
  replace (1 + (a - 1))%Z with a in Hall by lia.
  replace (1 + (b - 1))%Z with b in Hall by lia.
  rewrite H, String.eqb_refl in Hall. simpl in Hall. apply Nat.eqb_eq in Hall. lia.
Qed.

(** The week key of the code tells the weeks apart, and nothing else. *)
Lemma YearWeek_week (x z : Day) :
  valid_date (stamp x) = true -> valid_date (stamp z) = true ->
  YearWeek x = YearWeek z <-> week_of (stamp x) = week_of (stamp z).
Proof.
  intros Hx Hz. rewrite <- (isocalendar_week _ _ Hx Hz).
  pose proof (isocalendar_range _ Hx) as Rx. pose proof (isocalendar_range _ Hz) as Rz.
  unfold YearWeek.
  destruct (isocalendar (stamp x)) as [yx wx], (isocalendar (stamp z)) as [yz wz].
  cbn [snd] in Rx, Rz. split; [|by intros [= -> ->]].
  intros H. apply (f_equal chars) in H. rewrite !chars_app in H.
  change (chars "-W") with (["-"%char] ++ "W"%char :: []) in H.
  rewrite <- !app_assoc in H. rewrite !(app_assoc (chars (str_of_Z _)) ["-"%char]) in H.
  cbn [app] in H.
  apply (split_at "W"%char) in H as [H1 H2].
  - apply app_inj_tail in H1 as [H1 _]. apply chars_inj, str_of_Z_inj in H1.
    apply chars_inj, zfill2_inj in H2; [|done..]. by subst.
  - rewrite elem_of_app. intros [H'|H']; revert H'.
    + apply plain_absent; [apply str_of_Z_plain|]. apply (bool_decide_unpack _). by vm_compute.
    + apply (bool_decide_unpack _). by vm_compute.
  - rewrite elem_of_app. intros [H'|H']; revert H'.
    + apply plain_absent; [apply str_of_Z_plain|]. apply (bool_decide_unpack _). by vm_compute.
    + apply (bool_decide_unpack _). by vm_compute.
Qed.

End WeekKeyFacts.

Module TotalsFacts.
Import Text Calendar Generator Notions Numeric NumericFacts OrderFacts FrameFacts
       RollupFacts TeamFacts SumFacts DateOrder TeamSums WeekFacts WeekKeyFacts.

Abbreviation day_key := (fun x : Day => (label x, stamp x)).
Abbreviation day_total := (fun (k : string * date) (g : list Day) =>
  mkDay k.2 k.1
        (list_to_map (map (fun col => (col, Numeric.sum (column col g))) team_columns))).
Abbreviation days_keys :=
  (fun l : list Day => Frame.sorted_keys day_key_compare (map day_key l)).
Abbreviation of_key := (fun (l : list Day) (k : string * date) =>
  filter (fun x => day_key x = k) l).

Lemma daily_totals_perm l :
  daily_totals l ≡ₚ map (fun k => day_total k (of_key l k)) (days_keys l).
Proof.
  unfold daily_totals. rewrite sort_values_desc_perm.
  unfold Frame.groupby_sorted. by rewrite map_map.
Qed.

Lemma days_keys_NoDup l : NoDup (days_keys l).
Proof.
  apply (sorted_NoDup day_key_compare day_key_compare_eq),
    (sorted_keys_sorted _ day_key_compare_eq day_key_compare_antisym day_key_compare_trans).
Qed.

Lemma elem_of_days_keys k l : k ∈ days_keys l <-> k ∈ map day_key l.
Proof. apply (elem_of_sorted_keys _ day_key_compare_eq). Qed.

(** The daily totals have the days of the rows, each once. *)
Lemma daily_totals_keys l : map day_key (daily_totals l) ≡ₚ days_keys l.
Proof.
  rewrite daily_totals_perm, map_map. cbn [label stamp].
  rewrite (map_ext _ id) by by intros [? ?]. by rewrite map_id.
Qed.

Lemma elem_of_daily_totals k l :
  k ∈ map day_key (daily_totals l) <-> k ∈ map day_key l.
Proof. by rewrite daily_totals_keys, elem_of_days_keys. Qed.

Lemma daily_totals_stamps d l :
  d ∈ map stamp (daily_totals l) <-> d ∈ map stamp l.
Proof.
  rewrite !list_elem_of_fmap. split.
  - intros (t & -> & Ht).
    assert (Hk : day_key t ∈ map day_key (daily_totals l))
      by (apply list_elem_of_fmap; by exists t).
    apply (proj1 (elem_of_daily_totals _ l)), list_elem_of_fmap in Hk as (x & Hk & Hx).
    exists x. split; [by injection Hk|done].
  - intros (x & -> & Hx).
    assert (Hk : day_key x ∈ map day_key l) by (apply list_elem_of_fmap; by exists x).
    apply (proj2 (elem_of_daily_totals _ l)), list_elem_of_fmap in Hk as (t & Hk & Ht).
    exists t. split; [by injection Hk|done].
Qed.

(** Sorting leaves rows of one date in their order. *)
Lemma sort_same {A} (key : A -> Z) c (l : list A) :
  Forall (fun x => key x = c) l -> Frame.sort_values_desc key l = l.
Proof.
  induction 1 as [|x l Hx Hl IH]; [done|]. simpl. rewrite IH.
  apply insert_desc_front. eapply Forall_impl; [exact Hl|]. intros y Hy. simpl in *. lia.
Qed.

Lemma of_key_sorted l k : of_key (newest_first l) k = of_key l k.
Proof.
  unfold newest_first. rewrite sort_values_desc_filter.
  apply (sort_same _ (ordinal k.2)). apply Forall_forall. intros x Hx.
  apply list_elem_of_filter in Hx as [<- _]. done.
Qed.

Lemma filter_fmap_comm {A B} (F : A -> B) (Q : B -> Prop) `{!forall y, Decision (Q y)}
    (l : list A) :
  filter Q (map F l) = map F (filter (fun x => Q (F x)) l).
Proof.
  induction l as [|x l IH]; [done|]. simpl. rewrite !filter_cons, IH.
  by destruct (decide (Q (F x))).
Qed.

(** The daily totals of the rows of some dates are the daily totals of
    those dates. *)
Lemma daily_totals_filter (W : Day -> Prop) `{!forall x, Decision (W x)} l :
  (forall x y, stamp x = stamp y -> W x <-> W y) ->
  filter W (daily_totals l) ≡ₚ daily_totals (filter W l).
Proof.
  intros HW. rewrite !daily_totals_perm. rewrite (filter_fmap_comm _ W).
  set (l' := filter W l).
  set (F := fun k : string * date => day_total k (of_key l k)).
  assert (Hks : days_keys l' ≡ₚ filter (fun k => W (F k)) (days_keys l)).
  { apply NoDup_Permutation; [apply days_keys_NoDup|apply NoDup_filter, days_keys_NoDup|].
    intros k. rewrite list_elem_of_filter, !elem_of_days_keys, !list_elem_of_fmap. split.
    - intros (x & -> & Hx). apply list_elem_of_filter in Hx as [Hw Hx].
      split; [|by exists x]. by apply (HW x).
    - intros [Hw (x & -> & Hx)]. exists x. split; [done|].
      apply list_elem_of_filter. split; [|done]. by apply (HW (F (day_key x))). }
  rewrite Hks.
  assert (E : forall k, W (F k) -> of_key l' k = of_key l k).
  { intros k Hw. unfold l'. rewrite list_filter_filter. apply filter_iff_in.
    apply Forall_forall. intros x _. split; [by intros [? _]|].
    intros <-. split; [done|]. by apply (HW (F (day_key x))). }
  erewrite (map_ext_in _ _ (filter _ (days_keys l))); [reflexivity|].
  intros k Hk. apply list_elem_of_In, list_elem_of_filter in Hk as [Hw _].
  cbv beta. by rewrite E.
Qed.

Lemma days_keys_unique (l : list Day) :
  days_keys (newest_first l) ≡ₚ Frame.unique (map day_key l).
Proof.
  apply NoDup_Permutation; [apply days_keys_NoDup|apply unique_NoDup|].
  intros k. rewrite elem_of_days_keys, elem_of_unique.
  unfold newest_first. by rewrite sort_values_desc_perm.
Qed.

(** The column of the daily totals holds the sums of the days. *)
Lemma daily_column col (l : list Day) :
  col ∈ team_columns ->
  column col (daily_totals (newest_first l)) ≡ₚ day_sums col l.
Proof.
  intros Hc. unfold column, day_sums. rewrite daily_totals_perm, map_map.
  rewrite (map_ext _ (fun k => Numeric.sum (column col (of_key l k)))).
  2:{ intros k. rewrite (day_total_cell k _ col Hc). by rewrite of_key_sorted. }
  by rewrite days_keys_unique.
Qed.

Lemma earliest_spec l d :
  earliest l = Some d -> d ∈ l /\ forall x, x ∈ l -> (ordinal d <= ordinal x)%Z.
Proof.
  revert d. induction l as [|a l IH]; intros d; [done|].
  unfold earliest. cbn [foldr]. fold (earliest l).
  destruct (earliest l) as [e|] eqn:E.
  - destruct (IH e eq_refl) as [He Hmin].
    destruct (Z.ltb_spec (ordinal a) (ordinal e)); intros [= <-].
    + split; [left|]. intros x Hx. apply elem_of_cons in Hx as [->|Hx]; [lia|].
      specialize (Hmin x Hx). lia.
    + split; [by right|]. intros x Hx. apply elem_of_cons in Hx as [->|Hx]; [lia|].
      by apply Hmin.
  - intros [= <-]. destruct l as [|b l].
    + split; [left|]. intros x Hx. apply list_elem_of_singleton in Hx as ->. lia.
    + exfalso. destruct (earliest_is_Some (b :: l)) as [? ?]; [done|congruence].
Qed.

Lemma most_recent_spec l d :
  most_recent l = Some d -> d ∈ l /\ forall x, x ∈ l -> (ordinal x <= ordinal d)%Z.
Proof.
  revert d. induction l as [|a l IH]; intros d; [done|].
  unfold most_recent. cbn [foldr]. fold (most_recent l).
  destruct (most_recent l) as [e|] eqn:E.
  - destruct (IH e eq_refl) as [He Hmax].
    destruct (Z.ltb_spec (ordinal e) (ordinal a)); intros [= <-].
    + split; [left|]. intros x Hx. apply elem_of_cons in Hx as [->|Hx]; [lia|].
      specialize (Hmax x Hx). lia.
    + split; [by right|]. intros x Hx. apply elem_of_cons in Hx as [->|Hx]; [lia|].
      by apply Hmax.
  - intros [= <-]. destruct l as [|b l].
    + split; [left|]. intros x Hx. apply list_elem_of_singleton in Hx as ->. lia.
    + exfalso. destruct (most_recent_is_Some (b :: l)) as [? ?]; [done|congruence].
Qed.

Lemma Forall2_filter_both {A B} (R : A -> B -> Prop) (P : A -> Prop) (Q : B -> Prop)
    `{!forall x, Decision (P x)} `{!forall y, Decision (Q y)} l1 l2 :
  Forall2 R l1 l2 -> (forall a b, R a b -> (P a <-> Q b)) ->
  Forall2 R (filter P l1) (filter Q l2).
Proof.
  intros HR HPQ. induction HR as [|a b l1 l2 Hab _ IH]; [constructor|].
  rewrite !filter_cons. specialize (HPQ a b Hab).
  destruct (decide (P a)), (decide (Q b)); try tauto. by constructor.
Qed.

(** Two labellings that tell the same rows apart give their distinct
    labels in the same order. *)
Lemma unique_relabel {A} `{EqDecision K1} `{EqDecision K2}
    (f : A -> K1) (g : A -> K2) (l : list A) :
  (forall x y, x ∈ l -> y ∈ l -> f x = f y <-> g x = g y) ->
  Forall2 (fun a b => exists x, x ∈ l /\ a = f x /\ b = g x)
          (Frame.unique (map f l)) (Frame.unique (map g l)).
Proof.
  induction l as [|x l IH]; intros H; [constructor|].
  cbn [map Frame.unique]. constructor; [exists x; split; [left|done]|].
  apply Forall2_filter_both.
  - eapply Forall2_impl; [apply IH|].
    + intros y z Hy Hz. apply H; by right.
    + intros a b (y & Hy & -> & ->). exists y. split; [by right|done].
  - intros a b (y & Hy & -> & ->).
    specialize (H y x Hy ltac:(left)). tauto.
Qed.

Lemma StronglySorted_filter_keep {A} (R : A -> A -> Prop) (P : A -> Prop)
    `{!forall x, Decision (P x)} l :
  StronglySorted R l -> StronglySorted R (filter P l).
Proof.
  induction 1 as [|x l Hs IH Hx]; [constructor|].
  rewrite filter_cons. destruct (decide (P x)); [|done].
  constructor; [done|]. rewrite Forall_forall in *. intros y Hy.
  apply list_elem_of_filter in Hy as [_ Hy]. by apply Hx.
Qed.

(** The distinct values of a list that descends, descend strictly. *)
Lemma unique_descending (l : list Z) :
  StronglySorted (fun a b => (b <= a)%Z) l ->
  StronglySorted (fun a b => (b < a)%Z) (Frame.unique l).
Proof.
  induction 1 as [|k l Hs IH Hk]; [constructor|].
  cbn [Frame.unique]. constructor; [by apply StronglySorted_filter_keep|].
  apply Forall_forall. intros x Hx. apply list_elem_of_filter in Hx as [Hne Hx].
  apply (proj1 (elem_of_unique _ _)) in Hx.
  rewrite Forall_forall in Hk. specialize (Hk x Hx). lia.
Qed.

Lemma weeks_descending (l : list Day) :
  descending (fun x => ordinal (stamp x)) l ->
  StronglySorted (fun a b => (b <= a)%Z) (map (fun x => week_of (stamp x)) l).
Proof.
  induction 1 as [|x l Hs IH Hx]; [constructor|].
  cbn [map]. constructor; [done|]. apply Forall_forall. intros k Hk.
  apply list_elem_of_fmap in Hk as (y & -> & Hy).
  rewrite Forall_forall in Hx. specialize (Hx y Hy). unfold week_of.
  apply Z.div_le_mono; lia.
Qed.

Lemma daily_totals_descending l :
  descending (fun x => ordinal (stamp x)) (daily_totals l).
Proof. unfold daily_totals. apply sort_values_desc_sorted. Qed.

(** The daily totals of the rows of some dates, newest first. *)
Lemma daily_totals_of_dates (W : Day -> Prop) `{!forall x, Decision (W x)} l :
  (forall x y, stamp x = stamp y -> W x <-> W y) ->
  filter W (daily_totals (newest_first l)) ≡ₚ daily_totals (newest_first (filter W l)).
Proof.
  intros HW. rewrite (daily_totals_filter W) by done. unfold newest_first.
  by rewrite sort_values_desc_filter.
Qed.

Lemma daily_totals_dates d l :
  d ∈ map stamp (daily_totals (newest_first l)) <-> d ∈ map stamp l.
Proof.
  rewrite daily_totals_stamps. unfold newest_first. by rewrite sort_values_desc_perm.
Qed.

Section Valid.
Variable dated : list Day.
Hypothesis dated_valid : Forall (fun x => valid_date (stamp x) = true) dated.

Lemma totals_valid t :
  t ∈ daily_totals (newest_first dated) -> valid_date (stamp t) = true.
Proof.
  intros Ht.
  assert (Hd : stamp t ∈ map stamp (daily_totals (newest_first dated)))
    by (apply list_elem_of_fmap; by exists t).
  apply (proj1 (daily_totals_dates _ _)), list_elem_of_fmap in Hd as (x & -> & Hx).
  pose proof (proj1 (Forall_forall _ _) dated_valid) as Hv. by apply Hv.
Qed.

(** The rows that the code takes for the week of a daily total are the
    daily totals of the rows of that week. *)
Lemma week_data_spec t :
  t ∈ daily_totals (newest_first dated) ->
  filter (fun z => YearWeek z = YearWeek t) (daily_totals (newest_first dated)) ≡ₚ
  daily_totals (newest_first
    (filter (fun x => week_of (stamp x) = week_of (stamp t)) dated)).
Proof.
  intros Ht.
  assert (E : filter (fun z => YearWeek z = YearWeek t) (daily_totals (newest_first dated)) =
              filter (fun z => week_of (stamp z) = week_of (stamp t))
                     (daily_totals (newest_first dated))).
  { apply filter_iff_in, Forall_forall.
    intros z Hz. apply YearWeek_week; by apply totals_valid. }
  rewrite E. apply (daily_totals_of_dates (fun z => week_of (stamp z) = week_of (stamp t))).
  intros x y Hxy. by rewrite Hxy.
Qed.

Lemma week_row_spec t :
  t ∈ daily_totals (newest_first dated) ->
  is_week_row dated (week_of (stamp t))
    (week_total_row report_columns (daily_totals (newest_first dated)) (YearWeek t)).
Proof.
  intros Ht. pose proof (week_data_spec t Ht) as Hperm.
  unfold week_total_row, is_week_row.
  set (week_data := filter (fun z => YearWeek z = YearWeek t) _) in *.
  set (l := filter (fun x => week_of (stamp x) = week_of (stamp t)) dated) in *.
  assert (Hstamps : forall d, d ∈ map stamp week_data <-> d ∈ map stamp l).
  { intros d. by rewrite Hperm, daily_totals_dates. }
  assert (Hne : map stamp week_data <> []).
  { intros E. apply map_eq_nil in E.
    assert (Hw : t ∈ week_data) by by apply list_elem_of_filter.
    rewrite E in Hw. by apply elem_of_nil in Hw. }
  destruct (earliest_is_Some _ Hne) as [start_date Hstart].
  destruct (most_recent_is_Some _ Hne) as [end_date Hend].
  rewrite Hstart, Hend.
  apply earliest_spec in Hstart as [Hs1 Hs2].
  apply most_recent_spec in Hend as [He1 He2].
  exists start_date, end_date.
  split; [by apply (proj1 (Hstamps _))|]. split; [by apply (proj1 (Hstamps _))|].
  split.
  { intros d Hd. apply (proj2 (Hstamps _)) in Hd. split; [by apply Hs2|by apply He2]. }
  f_equal. change (tail report_columns) with team_columns.
  apply map_ext_in. intros col Hcol. apply list_elem_of_In in Hcol.
  apply format_number_comp. unfold reduce, week_value.
  destruct (bool_decide (col ∈ ["DAU"; "Activate KOL"])).
  - apply max_perm. unfold column at 1. rewrite Hperm. by apply daily_column.
  - eapply same_number_trans; [apply sum_perm; unfold column; by rewrite Hperm|].
    eapply same_number_trans; [by apply daily_totals_sum|].
    apply sum_perm. unfold column, newest_first. by rewrite sort_values_desc_perm.
Qed.

End Valid.

End TotalsFacts.

Section WeekClaims.
Import Text Calendar Generator Notions Numeric NumericFacts OrderFacts FrameFacts
       RollupFacts TeamFacts SumFacts DateOrder TeamSums WeekFacts WeekKeyFacts TotalsFacts.

Variable to_datetime : string -> option date.

(** C3.  The rows of the weeks in the team table.  Let the frame have a
    dated row and the columns that the team report sums, and let the
    parser give days of the calendar.  The table begins with the daily
    rows of the current month (the month of the newest date), one for
    each date of that month as the frame writes it.  Right after them,
    and before the total of the month, come the rows of the weeks: one
    for every week, Monday to Sunday, in which the current month has a
    row, the newest week first.  The row of a week is labelled with the
    first and the last date that the frame has in that week, and shows
    every summed column reduced over all the rows that the frame has in
    that week, of whatever month: their sum, and for DAU and Activate
    KOL the largest of the sums of the days (the report sums the team
    day by day before it makes the weeks).  The weeks are told apart by
    the Monday they begin on, not by the week key of the code. *)
Theorem week_row_over_full_range (st : list DataFrame) r df :
  st !! r = Some df ->
  (exists row, row ∈ rows df /\ is_Some (to_datetime (Date row))) ->
  Forall (fun col => col ∈ columns df) team_columns ->
  (forall s d, to_datetime s = Some d -> valid_date d = true) ->
  let dated := days_of to_datetime df in
  exists newest day_rows weeks week_rows rest,
    newest ∈ dated /\
    (forall x, x ∈ dated -> (ordinal (stamp x) <= ordinal (stamp newest))%Z) /\
    let month_rows := filter (fun x => year_month x = year_month newest) dated in
    fst <$> create_supervisor_report to_datetime r st =
      Some (Some (day_rows ++ week_rows ++ rest)) /\
    length day_rows =
      length (Frame.unique (map (fun x => (label x, stamp x)) month_rows)) /\
    Forall (fun row => exists x, x ∈ month_rows /\
                                 head row = Some (strftime_ymd (stamp x))) day_rows /\
    StronglySorted (fun a b => (b < a)%Z) weeks /\
    (forall k, k ∈ weeks <-> exists x, x ∈ month_rows /\ week_of (stamp x) = k) /\
    Forall2 (is_week_row dated) weeks week_rows /\
    head rest ≫= head = Some (month_label (year (stamp newest)) (month (stamp newest))).
Proof.
  intros Hr Hrow Hcols Hparse dated.
  assert (Hne : dated <> []) by by apply dated_row_days_of.
  assert (Hvalid : Forall (fun x => valid_date (stamp x) = true) dated).
  { apply Forall_forall. intros x Hx.
    apply list_elem_of_omap in Hx as (row & _ & Hx).
    destruct (to_datetime (Date row)) as [d|] eqn:E; [|done].
    injection Hx as <-. by apply (Hparse _ _ E). }
  rewrite (create_supervisor_report_run _ _ _ _ Hr Hne Hcols).
  destruct (team_table_of_spec _ Hne) as (newest0 & others & earlier & Hd & _ & Ht).
  cbv zeta in Ht. fold dated in Hd, Ht |- *. rewrite Ht. clear Ht.
  set (totals := daily_totals (newest_first dated)) in *.
  assert (Hin0 : newest0 ∈ totals) by (rewrite Hd; left).
  assert (Hnew : exists newest, newest ∈ dated /\ stamp newest0 = stamp newest).
  { assert (H : stamp newest0 ∈ map stamp totals)
      by (apply list_elem_of_fmap; by exists newest0).
    apply (proj1 (daily_totals_dates _ _)), list_elem_of_fmap in H as (x & H & Hx).
    by exists x. }
  destruct Hnew as (newest & Hnewest & Hsame).
  set (month_rows := filter (fun x => year_month x = year_month newest) dated).
  assert (Hmd : in_month (year (stamp newest0)) (month (stamp newest0)) (newest0 :: others)
                ≡ₚ daily_totals (newest_first month_rows)).
  { rewrite <- Hd, Hsame.
    apply (daily_totals_of_dates (fun x => year_month x = year_month newest)).
    intros x y Hxy. unfold year_month. by rewrite Hxy. }
  set (month_data := in_month _ _ _) in *.
  assert (Hsub : forall t, t ∈ month_data -> t ∈ totals).
  { intros t Hin. apply list_elem_of_filter in Hin as [_ Hin]. by rewrite Hd. }
  assert (Hstamps : forall d, d ∈ map stamp month_data <-> d ∈ map stamp month_rows).
  { intros d. by rewrite Hmd, daily_totals_dates. }
  assert (Hdesc : descending (fun x => ordinal (stamp x)) month_data).
  { apply StronglySorted_filter_keep. rewrite <- Hd. apply daily_totals_descending. }
  exists newest, (map (formatted_row report_columns) month_data),
    (Frame.unique (map (fun x => week_of (stamp x)) month_data)),
    (map (week_total_row report_columns (newest0 :: others))
         (Frame.unique (map YearWeek month_data))),
    ([month_total_row month_data report_columns
        (year (stamp newest0)) (month (stamp newest0))]
     ++ earlier ++ [total_row (newest0 :: others) report_columns]).
  split; [done|]. split.
  { intros x Hx.
    assert (H : stamp x ∈ map stamp totals).
    { apply (proj2 (daily_totals_dates _ _)), list_elem_of_fmap. by exists x. }
    apply list_elem_of_fmap in H as (t & E & Hin). rewrite E, <- Hsame.
    pose proof (daily_totals_descending (newest_first dated)) as Hsorted.
    fold totals in Hsorted. rewrite Hd in Hsorted.
    apply ComparisonFacts.descending_head in Hsorted.
    rewrite Forall_forall in Hsorted. apply Hsorted. by rewrite <- Hd. }
  cbv zeta. fold month_rows. split; [done|]. split.
  { rewrite length_map, Hmd, <- (length_map day_key), daily_totals_keys.
    by rewrite days_keys_unique. }
  split.
  { apply Forall_forall. intros row Hin.
    apply list_elem_of_fmap in Hin as (t & -> & Hin).
    assert (H : stamp t ∈ map stamp month_rows)
      by (apply (proj1 (Hstamps _)), list_elem_of_fmap; by exists t).
    apply list_elem_of_fmap in H as (x & E & Hx). exists x. split; [done|].
    by rewrite <- E. }
  split; [by apply unique_descending, weeks_descending|]. split.
  { intros k. rewrite elem_of_unique, list_elem_of_fmap. split.
    - intros (t & -> & Hin).
      assert (H : stamp t ∈ map stamp month_rows)
        by (apply (proj1 (Hstamps _)), list_elem_of_fmap; by exists t).
      apply list_elem_of_fmap in H as (x & E & Hx). exists x. by rewrite E.
    - intros (x & Hx & <-).
      assert (H : stamp x ∈ map stamp month_data)
        by (apply (proj2 (Hstamps _)), list_elem_of_fmap; by exists x).
      apply list_elem_of_fmap in H as (t & E & Hin). exists t. by rewrite E. }
  split.
  { apply Forall2_fmap_r.
    eapply Forall2_impl.
    - apply (unique_relabel (fun x => week_of (stamp x)) YearWeek month_data).
      intros x y Hx Hy. symmetry.
      apply YearWeek_week; apply (totals_valid dated Hvalid); by apply Hsub.
    - intros k key (t & Hin & -> & ->). rewrite <- Hd.
      apply (week_row_spec dated Hvalid). by apply Hsub. }
  by rewrite Hsame.
Qed.

End WeekClaims.

Section WeekSamples.
Import Text Calendar Generator Notions.

Lemma week_row_over_full_range_witness :
  let dated := days_of Sample.to_datetime Sample.team_frame in
  exists newest day_rows weeks week_rows rest,
    newest ∈ dated /\
    (forall x, x ∈ dated -> (ordinal (stamp x) <= ordinal (stamp newest))%Z) /\
    let month_rows := filter (fun x => year_month x = year_month newest) dated in
    fst <$> create_supervisor_report Sample.to_datetime 0%nat [Sample.team_frame] =
      Some (Some (day_rows ++ week_rows ++ rest)) /\
    length day_rows =
      length (Frame.unique (map (fun x => (label x, stamp x)) month_rows)) /\
    Forall (fun row => exists x, x ∈ month_rows /\
                                 head row = Some (strftime_ymd (stamp x))) day_rows /\
    StronglySorted (fun a b => (b < a)%Z) weeks /\
    (forall k, k ∈ weeks <-> exists x, x ∈ month_rows /\ week_of (stamp x) = k) /\
    Forall2 (is_week_row dated) weeks week_rows /\
    head rest ≫= head = Some (month_label (year (stamp newest)) (month (stamp newest))).
Proof.
  apply (week_row_over_full_range Sample.to_datetime [Sample.team_frame] 0%nat
           Sample.team_frame).
  - reflexivity.
  - eexists. split; [left|]. vm_compute. eauto.
  - apply (bool_decide_unpack _). vm_compute. exact I.
  - apply sample_to_datetime_valid.
Defined.

End WeekSamples.
